(** * client-sqs-extended: the SQS client that offloads large bodies to S3

    A shallow embedding of [src/index.ts] (and of the async variant of the
    same class kept next to it) together with the properties of the
    send, receive and delete pipelines.

    Conventions of the embedding.
    - A JavaScript string is a Rocq [string] holding its UTF-8 bytes, so
      [Buffer.byteLength(s, 'utf8')] is [String.length s].  The marker
      literals and the parentheses of the reference token are ASCII: an
      ASCII pattern occurs in the UTF-16 string exactly where it occurs in
      its UTF-8 bytes, and every index the code passes to [substring] comes
      from [indexOf]/[lastIndexOf] on the same string, so the substrings
      cut out are the same.
    - [null] and [undefined] are both [None]: the code only ever tests
      them by truthiness ([!x], [x || y], [x ? a : b]) or treats them
      alike ([typeof x !== 'undefined' && x !== null]).
    - A JavaScript object used as a dictionary is a [gmap string _].
    - A number is a [Z]. *)

From Stdlib Require Import ZArith Lia String Ascii.
From stdpp Require Import base option list strings gmap.

(** ** JavaScript string primitives *)

Module JsString.

(** [s.startsWith(pat)] *)
Fixpoint startsWith (s pat : string) {struct pat} : bool :=
  match pat with
  | EmptyString => true
  | String c pat' =>
      match s with
      | EmptyString => false
      | String d s' => if Ascii.eqb c d then startsWith s' pat' else false
      end
  end.

(** The suffix of [s] from position [n], and its first [n] characters. *)
Fixpoint drop (n : nat) (s : string) : string :=
  match n with
  | O => s
  | S n' => match s with EmptyString => EmptyString | String _ s' => drop n' s' end
  end.

Fixpoint take (n : nat) (s : string) : string :=
  match n with
  | O => EmptyString
  | S n' => match s with EmptyString => EmptyString | String c s' => String c (take n' s') end
  end.

(** [s.length] *)
Definition length (s : string) : Z := Z.of_nat (String.length s).

(** [s.indexOf(pat)]: the first position at which [pat] occurs, or -1.
    [indexOfFrom pat s i] searches [s], whose first character has
    position [i] in the whole string. *)
Fixpoint indexOfFrom (pat s : string) (i : Z) : Z :=
  if startsWith s pat then i
  else match s with
       | EmptyString => (-1)%Z
       | String _ s' => indexOfFrom pat s' (i + 1)%Z
       end.

Definition indexOf (s pat : string) : Z := indexOfFrom pat s 0%Z.

(** [s.lastIndexOf(pat)]: the last position at which [pat] occurs, or -1. *)
Fixpoint lastIndexOfFrom (pat s : string) (i : Z) : Z :=
  match s with
  | EmptyString => if startsWith s pat then i else (-1)%Z
  | String _ s' =>
      let later := lastIndexOfFrom pat s' (i + 1)%Z in
      if (0 <=? later)%Z then later
      else if startsWith s pat then i else (-1)%Z
  end.

Definition lastIndexOf (s pat : string) : Z := lastIndexOfFrom pat s 0%Z.

(** [s.substring(start, end)]: both indices are clamped to [0, s.length]
    and swapped when [start > end]. *)
Definition substring (s : string) (start end_ : Z) : string :=
  let len := length s in
  let a := Z.min (Z.max start 0) len in
  let b := Z.min (Z.max end_ 0) len in
  let lo := Z.min a b in
  let hi := Z.max a b in
  take (Z.to_nat (hi - lo)) (drop (Z.to_nat lo) s).

(** [s.substring(start)]: [end] defaults to [s.length]. *)
Definition substringFrom (s : string) (start : Z) : string :=
  substring s start (length s).

(** [s.includes(pat)] *)
Definition includes (s pat : string) : bool := (0 <=? indexOf s pat)%Z.

End JsString.

Import JsString.

(** Where a pattern occurs in a string.  These are not primitives of the
    language: they say where the markers are in a receipt handle. *)

(** [pat] occurs in [s] at position [n]. *)
Definition occursAt (pat s : string) (n : nat) : Prop :=
  (n <= String.length s)%nat /\ startsWith (drop n s) pat = true.

(** The positions of [s] at which [pat] occurs (occurrences may overlap),
    and how many they are. *)
Definition occurrences (pat s : string) : list nat :=
  filter (fun n => startsWith (drop n s) pat = true) (seq 0 (S (String.length s))).

Definition countOccurrences (pat s : string) : nat := List.length (occurrences pat s).

(** Truthiness of a [string | null | undefined]: the empty string, [null]
    and [undefined] are falsy. *)
Definition truthy (v : option string) : bool :=
  match v with
  | Some s => negb (String.eqb s "")
  | None => false
  end.

(** [a || b] on such values. *)
Definition or_else (a b : option string) : option string :=
  if truthy a then a else b.

(** A value spliced into a template literal. *)
Definition templated (v : option string) : string :=
  match v with Some s => s | None => "undefined" end.

(** ** Data model *)

(** Errors that can be thrown or can reject a promise. *)
Inductive JsError : Type :=
  | TypeError (message : string)    (* raised by the language itself *)
  | Error (message : string)        (* [new Error(message)] of this library *)
  | ServiceError (name : string).   (* whatever the SQS or S3 client rejects with *)

(** The completion of synchronous code. *)
Inductive Completion (A : Type) : Type :=
  | Normal (a : A)
  | Throw (e : JsError).
Arguments Normal {A} a.
Arguments Throw {A} e.

(** [MessageAttributeValue] of the SQS client. *)
Record MessageAttributeValue : Type := {
  DataType : option string;
  StringValue : option string;
  BinaryValue : option string;
}.

(** [SendMessageRequest]: the fields the library reads or rewrites, and the
    queue the message goes to. *)
Record SendMessageRequest : Type := {
  QueueUrl : option string;
  MessageBody : option string;
  MessageAttributes : option (gmap string MessageAttributeValue);
}.

(** [Message], as returned by [receiveMessage]. *)
Module Message.
Record t : Type := {
  Body : option string;
  ReceiptHandle : option string;
  MessageAttributes : option (gmap string MessageAttributeValue);
}.
End Message.

(** [ReceiveMessageCommandInput]. *)
Record ReceiveMessageRequest : Type := {
  rcvQueueUrl : option string;
  MessageAttributeNames : option (list string);
}.

(** The parameters of [deleteMessage]. *)
Record DeleteMessageRequest : Type := {
  delQueueUrl : option string;
  ReceiptHandle : string;
}.

(** A record of a Lambda [SQSEvent]. *)
Record SQSMessageAttribute : Type := {
  dataType : option string;
  stringValue : option string;
}.

Record SQSRecord : Type := {
  body : option string;
  receiptHandle : option string;
  messageAttributes : option (gmap string SQSMessageAttribute);
}.

(** What a send transform returns. *)
Record SendObj : Type := {
  s3Content : option string;
  messageBody : option string;
}.

Definition SendTransform : Type := SendMessageRequest -> SendObj.
Definition ReceiveTransform : Type := Message.t -> option string -> option string.

(** ** Constants *)

Definition DEFAULT_MESSAGE_SIZE_THRESHOLD : Z := 262144.
Definition S3_MESSAGE_KEY_MARKER : string := "-..s3Key..-".
Definition S3_BUCKET_NAME_MARKER : string := "-..s3BucketName..-".
Definition S3_MESSAGE_BODY_KEY : string := "S3MessageBodyKey".
Definition RESERVED_ATTRIBUTE_NAME : string := S3_MESSAGE_BODY_KEY.

(** ** Size estimator *)

(** [Buffer.byteLength(s, 'utf8')] *)
Definition byteLength (s : string) : Z := Z.of_nat (String.length s).

Definition attributeSize (attrKey : string) (attr : MessageAttributeValue) : Z :=
  (byteLength attrKey
   + (if truthy (DataType attr) then byteLength (default "" (DataType attr)) else 0)
   + (match StringValue attr with Some v => byteLength v | None => 0 end)
   + (match BinaryValue attr with Some v => byteLength v | None => 0 end))%Z.

Definition getMessageAttributesSize
    (messageAttributes : option (gmap string MessageAttributeValue)) : Z :=
  match messageAttributes with
  | None => 0%Z
  | Some attrs =>
      map_fold (fun attrKey attr size => (size + attributeSize attrKey attr)%Z) 0%Z attrs
  end.

Definition isLarge (message : SendMessageRequest) (messageSizeThreshold : option Z) : bool :=
  let threshold := default DEFAULT_MESSAGE_SIZE_THRESHOLD messageSizeThreshold in
  let messageAttributeSize :=
    match MessageAttributes message with
    | Some attrs => getMessageAttributesSize (Some attrs)
    | None => 0%Z
    end in
  let bodySize :=
    if truthy (MessageBody message) then byteLength (default "" (MessageBody message)) else 0%Z in
  (threshold <? messageAttributeSize + bodySize)%Z.

(** ** Transforms *)

Definition defaultSendTransform (alwaysUseS3 : option bool) (messageSizeThreshold : option Z)
    : SendTransform :=
  fun message =>
    let useS3 := default false alwaysUseS3 || isLarge message messageSizeThreshold in
    {| messageBody := if useS3 then None else MessageBody message;
       s3Content := if useS3 then MessageBody message else None |}.

Definition defaultReceiveTransform : ReceiveTransform :=
  fun message s3Content => or_else s3Content (Message.Body message).

(** ** Key codec *)

(** A line terminator of the language starts here: LF, CR, U+2028 or
    U+2029 (the last two as their three UTF-8 bytes).  These are the
    characters [.] does not match. *)
Definition LINE_SEPARATOR : string :=
  String "226"%char (String "128"%char (String "168"%char EmptyString)).
Definition PARAGRAPH_SEPARATOR : string :=
  String "226"%char (String "128"%char (String "169"%char EmptyString)).

Definition atLineTerminator (s : string) : bool :=
  startsWith s (String "010"%char EmptyString)
  || startsWith s (String "013"%char EmptyString)
  || startsWith s LINE_SEPARATOR || startsWith s PARAGRAPH_SEPARATOR.

(** The longest prefix of [s] that a greedy "any characters" can match. *)
Fixpoint dotStar (s : string) : string :=
  if atLineTerminator s then EmptyString
  else match s with
       | EmptyString => EmptyString
       | String c s' => String c (dotStar s')
       end.

(** The match of the token against the regular expression of the source:
    at the start of the string an opening parenthesis, a first group of any
    characters (greedy), a closing parenthesis, and an optional second group
    of any characters (greedy).  The result is the two capture groups, or
    [None] when there is no match.  Being greedy, the first group takes the
    line up to its last closing parenthesis; the second is what is left of
    the line, and since an optional group that could only match the empty
    string does not take part in the match, it is [undefined] then. *)
Definition matchReference (s : string) : option (string * option string) :=
  match s with
  | String "("%char rest =>
      let line := dotStar rest in
      let close := lastIndexOf line ")" in
      if (0 <=? close)%Z then
        let tail := substringFrom line (close + 1) in
        Some (substring line 0 close,
              if String.eqb tail "" then None else Some tail)
      else None
  | _ => None
  end.

(** What it is for a token to match the pattern, said without the
    matching procedure: it is an opening parenthesis, a run of characters
    in which no line terminator starts, a closing parenthesis, and
    whatever follows. *)
Definition noLineTerminator (g : string) : Prop :=
  forall n, atLineTerminator (drop n g) = false.

Definition matchesReferencePattern (token : string) : Prop :=
  exists bucket rest, token = "(" +:+ bucket +:+ ")" +:+ rest /\ noLineTerminator bucket.

(** The decoded reference: [{ bucketName, s3MessageKey }]. *)
Record S3Reference : Type := {
  refBucketName : option string;
  refS3MessageKey : option string;
}.

Definition getS3MessageKeyAndBucket (s3MessageKey : option string) : Completion S3Reference :=
  if negb (truthy s3MessageKey) then
    Normal {| refBucketName := None; refS3MessageKey := None |}
  else
    match matchReference (default "" s3MessageKey) with
    | Some (group1, group2) =>
        Normal {| refBucketName := Some group1; refS3MessageKey := group2 |}
    | None => Throw (Error "Can not found match s3MessageKeyRegexMatch")
    end.

Definition embedS3MarkersInReceiptHandle
    (bucketName s3MessageKey : string) (receiptHandle : option string) : string :=
  S3_BUCKET_NAME_MARKER +:+ bucketName +:+ S3_BUCKET_NAME_MARKER +:+
  S3_MESSAGE_KEY_MARKER +:+ s3MessageKey +:+ S3_MESSAGE_KEY_MARKER +:+ templated receiptHandle.

Definition addS3MessageKeyAttribute
    (s3MessageKey : string) (attributes : option (gmap string MessageAttributeValue))
    : gmap string MessageAttributeValue :=
  <[ S3_MESSAGE_BODY_KEY :=
       {| DataType := Some "String"; StringValue := Some s3MessageKey; BinaryValue := None |} ]>
    (default ∅ attributes).

Definition extractBucketNameFromReceiptHandle (receiptHandle : string) : option string :=
  if (0 <=? indexOf receiptHandle S3_BUCKET_NAME_MARKER)%Z then
    Some (substring receiptHandle
            (indexOf receiptHandle S3_BUCKET_NAME_MARKER + length S3_BUCKET_NAME_MARKER)
            (lastIndexOf receiptHandle S3_BUCKET_NAME_MARKER))
  else None.

Definition extractS3MessageKeyFromReceiptHandle (receiptHandle : string) : option string :=
  if (0 <=? indexOf receiptHandle S3_MESSAGE_KEY_MARKER)%Z then
    Some (substring receiptHandle
            (indexOf receiptHandle S3_MESSAGE_KEY_MARKER + length S3_MESSAGE_KEY_MARKER)
            (lastIndexOf receiptHandle S3_MESSAGE_KEY_MARKER))
  else None.

Definition getOriginReceiptHandle (receiptHandle : string) : string :=
  if (0 <=? indexOf receiptHandle S3_MESSAGE_KEY_MARKER)%Z then
    substringFrom receiptHandle
      (lastIndexOf receiptHandle S3_MESSAGE_KEY_MARKER + length S3_MESSAGE_KEY_MARKER)
  else receiptHandle.

(** ** Promises, the clients and the world

    The queue, the object store and the key generator are outside the
    library.  A call to a client is logged when it is made (this is when
    the SDK dispatches the request) and answered by the client's reply
    function: an outcome and the latency after which it is known.  Time is
    logical: a promise carries the time at which it settles. *)

Inductive Outcome (A : Type) : Type :=
  | Fulfilled (a : A)
  | Rejected (e : JsError).
Arguments Fulfilled {A} a.
Arguments Rejected {A} e.

Record Promise (A : Type) : Type := {
  settledAt : nat;
  outcome : Outcome A;
}.
Arguments settledAt {A} p.
Arguments outcome {A} p.

Record Reply (A : Type) : Type := {
  latency : nat;
  answer : Outcome A;
}.
Arguments latency {A} r.
Arguments answer {A} r.

(** The parameters of [putObject], [getObject] and [deleteObject]. *)
Record S3Params : Type := {
  Bucket : option string;
  Key : string;
  Body : option string;
}.

Record SendMessageResult : Type := { MessageId : option string }.
Record DeleteMessageResult : Type := { }.

(** [ReceiveMessageResult]: the messages are objects, held by reference
    (an index into the heap of messages of the world), since the receive
    pipeline rewrites them in place. *)
Record ReceiveMessageResult : Type := { Messages : option (list nat) }.

(** [SQSEvent], its records likewise by reference. *)
Record SQSEvent : Type := { Records : list nat }.

(** The SQS and S3 clients. *)
Record SQS : Type := {
  sendMessageReply : SendMessageRequest -> Reply SendMessageResult;
  receiveMessageReply : ReceiveMessageRequest -> Reply (option (list Message.t));
  deleteMessageReply : DeleteMessageRequest -> Reply DeleteMessageResult;
}.

Record S3 : Type := {
  putObjectReply : S3Params -> Reply unit;
  getObjectReply : S3Params -> Reply string;   (* the body stream, read to its end *)
  deleteObjectReply : S3Params -> Reply unit;
}.

(** A callback of the caller, known by its name. *)
Inductive callbackFnType : Type := Callback (name : string).

(** The second argument a callback is called with. *)
Inductive CallbackData : Type := NoData | TheResponse | TheRequest.

Inductive Event : Type :=
  | SqsSendMessage (params : SendMessageRequest)
  | SqsReceiveMessage (params : ReceiveMessageRequest)
  | SqsDeleteMessage (params : DeleteMessageRequest)
  | S3PutObject (params : S3Params)
  | S3GetObject (params : S3Params)
  | S3DeleteObject (params : S3Params)
  | CallbackCall (callback : callbackFnType) (err : option JsError) (data : CallbackData).

Record World : Type := {
  clock : nat;                       (* the current time *)
  log : list (nat * Event);          (* what happened, and when *)
  uuids : nat -> string;             (* what the key generator will return *)
  minted : nat;                      (* how many keys it has returned *)
  messages : list Message.t;         (* the [Message] objects *)
  records : list SQSRecord;          (* the [SQSRecord] objects *)
}.

(** The client calls and callback invocations of a world, in the order of
    the log.  The log is written in the order in which the code below is
    run, an async function to its end before its caller goes on: within
    one time its entries are in the order in which they happen, and the
    times tell the order between entries of different times. *)
Definition events (w : World) : list Event := (log w).*2.

Definition M (A : Type) : Type := World -> Completion A * World.

Definition ret {A} (a : A) : M A := fun w => (Normal a, w).

Definition bind {A B} (m : M A) (k : A -> M B) : M B :=
  fun w =>
    match m w with
    | (Normal a, w') => k a w'
    | (Throw e, w') => (Throw e, w')
    end.

Definition throw {A} (e : JsError) : M A := fun w => (Throw e, w).

Definition lift {A} (c : Completion A) : M A := fun w => (c, w).

Declare Scope js_scope.
Delimit Scope js_scope with js.
Notation "x <- m ;; k" := (bind m (fun x => k))
  (at level 100, m at next level, right associativity) : js_scope.
Notation "m ;;; k" := (bind m (fun _ => k))
  (at level 100, right associativity) : js_scope.
Local Open Scope js_scope.

Definition setClock (t : nat) (w : World) : World :=
  {| clock := t; log := log w; uuids := uuids w; minted := minted w;
     messages := messages w; records := records w |}.

(** The world with one more entry in its log, and with one more key minted. *)
Definition record (t : nat) (ev : Event) (w : World) : World :=
  {| clock := clock w; log := log w ++ [(t, ev)]; uuids := uuids w; minted := minted w;
     messages := messages w; records := records w |}.

Definition mint (w : World) : World :=
  {| clock := clock w; log := log w; uuids := uuids w; minted := S (minted w);
     messages := messages w; records := records w |}.

Definition emit (ev : Event) : M unit :=
  fun w => (Normal tt, record (clock w) ev w).

(** [v4()] of the uuid package. *)
Definition v4 : M string :=
  fun w => (Normal (uuids w (minted w)), mint w).

(** A request dispatched now settles once its latency has passed. *)
Definition dispatch {A} (ev : Event) (r : Reply A) : M (Promise A) :=
  emit ev ;;;
  fun w => (Normal {| settledAt := clock w + latency r; outcome := answer r |}, w).

(** Waiting for a promise: time moves on to when it settles, and its
    outcome is at hand ([settle]); [await] throws a rejection. *)
Definition settle {A} (p : Promise A) : M (Outcome A) :=
  fun w => (Normal (outcome p), setClock (Nat.max (clock w) (settledAt p)) w).

Definition await {A} (p : Promise A) : M A :=
  o <- settle p ;;
  match o with
  | Fulfilled a => ret a
  | Rejected e => throw e
  end.

(** [try { m } catch (e) { ... }]: the completion of [m] as a value. *)
Definition tryCatch {A} (m : M A) : M (Completion A) :=
  fun w => let '(c, w') := m w in (Normal c, w').

(** The promise of an async function body, or of a [new Promise] executor
    together with its chain of [then]/[catch] handlers: what the body does
    before its first wait happens now, the rest when the promises it waits
    for settle; the caller goes on at the current time with the promise in
    hand.  A throw rejects the promise. *)
Definition async {A} (body : M A) : M (Promise A) :=
  fun w =>
    let '(c, w') := body w in
    (Normal {| settledAt := clock w';
               outcome := match c with Normal a => Fulfilled a | Throw e => Rejected e end |},
     setClock (clock w) w').

(** [Promise.all(ps)] settles when the last promise has fulfilled, or as
    soon as one rejects (of two that reject at the same time, the one
    that comes first in [ps]). *)
Fixpoint firstRejection {A} (ps : list (Promise A)) : option (nat * JsError) :=
  match ps with
  | [] => None
  | p :: ps' =>
      let later := firstRejection ps' in
      match outcome p with
      | Fulfilled _ => later
      | Rejected e =>
          match later with
          | Some (t, e') => if (t <? settledAt p)%nat then Some (t, e') else Some (settledAt p, e)
          | None => Some (settledAt p, e)
          end
      end
  end.

Definition fulfilledValues {A} (ps : list (Promise A)) : list A :=
  omap (fun p => match outcome p with Fulfilled a => Some a | Rejected _ => None end) ps.

Definition promiseAll {A} (ps : list (Promise A)) : M (Promise (list A)) :=
  fun w =>
    (Normal
       match firstRejection ps with
       | Some (t, e) => {| settledAt := Nat.max (clock w) t; outcome := Rejected e |}
       | None => {| settledAt := foldr Nat.max (clock w) (settledAt <$> ps);
                    outcome := Fulfilled (fulfilledValues ps) |}
       end, w).

(** [xs.map(f)] with an effectful [f]. *)
Fixpoint mapM {A B} (f : A -> M B) (xs : list A) : M (list B) :=
  match xs with
  | [] => ret []
  | x :: xs' => y <- f x ;; ys <- mapM f xs' ;; ret (y :: ys)
  end.

(** The client calls. *)
Definition sqs_sendMessage (sqs : SQS) (params : SendMessageRequest)
    : M (Promise SendMessageResult) :=
  dispatch (SqsSendMessage params) (sendMessageReply sqs params).

Definition sqs_deleteMessage (sqs : SQS) (params : DeleteMessageRequest)
    : M (Promise DeleteMessageResult) :=
  dispatch (SqsDeleteMessage params) (deleteMessageReply sqs params).

(** The messages of the reply become objects of the heap. *)
Definition sqs_receiveMessage (sqs : SQS) (params : ReceiveMessageRequest)
    : M (Promise ReceiveMessageResult) :=
  emit (SqsReceiveMessage params) ;;;
  fun w =>
    let r := receiveMessageReply sqs params in
    match answer r with
    | Rejected e => (Normal {| settledAt := clock w + latency r; outcome := Rejected e |}, w)
    | Fulfilled None =>
        (Normal {| settledAt := clock w + latency r;
                   outcome := Fulfilled {| Messages := None |} |}, w)
    | Fulfilled (Some msgs) =>
        (Normal {| settledAt := clock w + latency r;
                   outcome := Fulfilled
                     {| Messages := Some (seq (List.length (messages w)) (List.length msgs)) |} |},
         {| clock := clock w; log := log w; uuids := uuids w; minted := minted w;
            messages := messages w ++ msgs; records := records w |})
    end.

Definition s3_putObject (s3 : S3) (params : S3Params) : M (Promise unit) :=
  dispatch (S3PutObject params) (putObjectReply s3 params).

Definition s3_getObject (s3 : S3) (params : S3Params) : M (Promise string) :=
  dispatch (S3GetObject params) (getObjectReply s3 params).

Definition s3_deleteObject (s3 : S3) (params : S3Params) : M (Promise unit) :=
  dispatch (S3DeleteObject params) (deleteObjectReply s3 params).

(** Reading and writing the fields of a message or record object.  A
    reference that names no object reads as a [TypeError] (the code never
    makes one up). *)
Definition readMessage (ref : nat) : M Message.t :=
  fun w =>
    match messages w !! ref with
    | Some m => (Normal m, w)
    | None => (Throw (TypeError "not an object"), w)
    end.

Definition writeMessage (ref : nat) (m : Message.t) : M unit :=
  fun w => (Normal tt,
            {| clock := clock w; log := log w; uuids := uuids w; minted := minted w;
               messages := <[ref := m]> (messages w); records := records w |}).

Definition readRecord (ref : nat) : M SQSRecord :=
  fun w =>
    match records w !! ref with
    | Some r => (Normal r, w)
    | None => (Throw (TypeError "not an object"), w)
    end.

Definition writeRecord (ref : nat) (r : SQSRecord) : M unit :=
  fun w => (Normal tt,
            {| clock := clock w; log := log w; uuids := uuids w; minted := minted w;
               messages := messages w; records := <[ref := r]> (records w) |}).

(** ** Wrapping a request with a step before or after it *)

(** What [wrapRequest] returns: the spread of the request (a promise has
    no own enumerable property, so nothing comes of it) with [send] and
    [promise]. *)
Record WrappedRequest (R : Type) : Type := {
  send : option callbackFnType -> M (Promise (option R));
  promise : option callbackFnType -> M (Promise (option R));
}.
Arguments send {R} w.
Arguments promise {R} w.

Definition wrapRequest {R} (request : Promise R) (callback : option callbackFnType)
    (sendFn : option callbackFnType -> M (Promise (option R))) : M (WrappedRequest R) :=
  match callback with
  | Some cb => _ <- sendFn (Some cb) ;; ret tt
  | None => ret tt
  end ;;;
  ret {| send := sendFn; promise := sendFn |}.

(** [fn] returns a promise, or [null] ([None]), on which [.then] throws. *)
Definition invokeFnBeforeRequest {R} (request : Promise R) (fn : M (option (Promise unit)))
    : option callbackFnType -> M (Promise (option R)) :=
  fun callback =>
    async (
      started <- fn ;;
      match started with
      | None => throw (TypeError "Cannot read properties of null (reading 'then')")
      | Some p =>
          done <- settle p ;;
          match done with
          | Fulfilled _ =>
              answered <- settle request ;;
              match answered with
              | Fulfilled response =>
                  match callback with
                  | Some cb => emit (CallbackCall cb None TheResponse)
                  | None => ret tt
                  end ;;;
                  ret (Some response)
              | Rejected err =>
                  match callback with
                  | Some cb => emit (CallbackCall cb (Some err) TheRequest) ;;; ret None
                  | None => throw err
                  end
              end
          | Rejected fnErr =>
              match callback with
              | Some cb => emit (CallbackCall cb (Some fnErr) TheRequest) ;;; ret None
              | None => throw fnErr
              end
          end
      end).

Definition invokeFnAfterRequest {R A} (request : Promise R) (fn : R -> M (Promise A))
    : option callbackFnType -> M (Promise (option R)) :=
  fun callback =>
    let onRequestError (err : JsError) : M (option R) :=
      match callback with
      | Some cb => emit (CallbackCall cb (Some err) NoData) ;;; ret None
      | None => throw err
      end in
    async (
      answered <- settle request ;;
      match answered with
      | Fulfilled response =>
          started <- tryCatch (fn response) ;;
          match started with
          | Normal p =>
              done <- settle p ;;
              match done with
              | Fulfilled _ =>
                  match callback with
                  | Some cb => emit (CallbackCall cb None TheResponse)
                  | None => ret tt
                  end ;;;
                  ret (Some response)
              | Rejected s3Err =>
                  match callback with
                  | Some cb => emit (CallbackCall cb (Some s3Err) TheResponse) ;;; ret None
                  | None => throw s3Err
                  end
              end
          | Throw err => onRequestError err
          end
      | Rejected err => onRequestError err
      end).

(** ** The class [SQSExtended] of [src/index.ts]

    The logger only reports what is done and is left out. *)

Record Options : Type := {
  optBucketName : option string;
  alwaysUseS3 : option bool;
  messageSizeThreshold : option Z;
  optSendTransform : option SendTransform;
  optReceiveTransform : option ReceiveTransform;
}.

Record SQSExtended : Type := {
  sqs : SQS;
  s3 : S3;
  bucketName : option string;
  sendTransform : SendTransform;
  receiveTransform : ReceiveTransform;
}.

(** The constructor. *)
Definition new_SQSExtended (sqs : SQS) (s3 : S3) (options : Options) : SQSExtended :=
  {| sqs := sqs;
     s3 := s3;
     bucketName := optBucketName options;
     sendTransform :=
       match optSendTransform options with
       | Some f => f
       | None => defaultSendTransform (alwaysUseS3 options) (messageSizeThreshold options)
       end;
     receiveTransform := default defaultReceiveTransform (optReceiveTransform options) |}.

(** What [_prepareSend] returns. *)
Record PreparedSend : Type := {
  preparedS3MessageKey : option string;
  preparedSendParams : SendMessageRequest;
  preparedS3Content : option string;
}.

(** What [_prepareDelete] returns. *)
Record PreparedDelete : Type := {
  preparedBucketName : option string;
  preparedDeleteKey : option string;
  deleteParams : DeleteMessageRequest;
}.

(** What [deleteMessage] returns: the promise of the queue client, or the
    wrapped request. *)
Inductive DeleteMessageReturn : Type :=
  | TheQueueRequest (request : Promise DeleteMessageResult)
  | TheWrappedRequest (wrapped : WrappedRequest DeleteMessageResult).

Definition withMessageBody (p : SendMessageRequest) (b : option string) : SendMessageRequest :=
  {| QueueUrl := QueueUrl p; MessageBody := b; MessageAttributes := MessageAttributes p |}.

Definition withMessageAttributes (p : SendMessageRequest)
    (attrs : gmap string MessageAttributeValue) : SendMessageRequest :=
  {| QueueUrl := QueueUrl p; MessageBody := MessageBody p; MessageAttributes := Some attrs |}.

Definition withBody (m : Message.t) (b : option string) : Message.t :=
  {| Message.Body := b; Message.ReceiptHandle := Message.ReceiptHandle m;
     Message.MessageAttributes := Message.MessageAttributes m |}.

Definition withReceiptHandle (m : Message.t) (h : string) : Message.t :=
  {| Message.Body := Message.Body m; Message.ReceiptHandle := Some h;
     Message.MessageAttributes := Message.MessageAttributes m |}.

Definition fulfilledWith {A B} (f : A -> B) (p : Promise A) : Promise B :=
  {| settledAt := settledAt p;
     outcome := match outcome p with Fulfilled a => Fulfilled (f a) | Rejected e => Rejected e end |}.

Module Index.

Definition _storeS3Content (this : SQSExtended) (key : string) (s3Content : option string)
    : M (Promise unit) :=
  s3_putObject (s3 this) {| Bucket := bucketName this; Key := key; Body := s3Content |}.

Definition _getS3Content (this : SQSExtended) (bucketName : option string) (key : string)
    : M (Promise string) :=
  async (
    object <- (fetching <- s3_getObject (s3 this)
                             {| Bucket := bucketName; Key := key; Body := None |} ;;
               await fetching) ;;
    ret object).

Definition _deleteS3Content (this : SQSExtended) (bucketName : option string) (key : string)
    : M (option (Promise unit)) :=
  if negb (truthy bucketName) then ret None
  else
    deleting <- s3_deleteObject (s3 this) {| Bucket := bucketName; Key := key; Body := None |} ;;
    ret (Some deleting).

Definition _prepareSend (this : SQSExtended) (params : SendMessageRequest) : M PreparedSend :=
  let sendParams := params in
  let sendObj := sendTransform this sendParams in
  let existingS3MessageKey :=
    match MessageAttributes params with
    | Some attrs => attrs !! RESERVED_ATTRIBUTE_NAME
    | None => None
    end in
  if negb (truthy (s3Content sendObj)) || bool_decide (is_Some existingS3MessageKey) then
    outgoing <-
      (if truthy (messageBody sendObj) then ret (messageBody sendObj)
       else match existingS3MessageKey with
            | Some attr => ret (StringValue attr)
            | None =>
                throw (TypeError "Cannot read properties of undefined (reading 'StringValue')")
            end) ;;
    ret {| preparedS3MessageKey := None;
           preparedSendParams := withMessageBody sendParams outgoing;
           preparedS3Content := s3Content sendObj |}
  else
    s3MessageKey <- v4 ;;
    let sendParams :=
      withMessageAttributes sendParams
        (addS3MessageKeyAttribute
           ("(" +:+ templated (bucketName this) +:+ ")" +:+ s3MessageKey)
           (MessageAttributes sendParams)) in
    ret {| preparedS3MessageKey := Some s3MessageKey;
           preparedSendParams :=
             withMessageBody sendParams (or_else (messageBody sendObj) (Some s3MessageKey));
           preparedS3Content := s3Content sendObj |}.

Definition sendMessage (this : SQSExtended) (params : SendMessageRequest)
    (callback : option callbackFnType) : M (Promise (option SendMessageResult)) :=
  if negb (truthy (bucketName this)) then
    throw (Error "bucketName option is required for sending messages")
  else
    prepared <- _prepareSend this params ;;
    if negb (truthy (preparedS3MessageKey prepared)) then
      request <- sqs_sendMessage (sqs this) (preparedSendParams prepared) ;;
      ret (fulfilledWith Some request)
    else
      request <- sqs_sendMessage (sqs this) (preparedSendParams prepared) ;;
      wrapped <- wrapRequest request callback
                   (invokeFnBeforeRequest request
                      (storing <- _storeS3Content this
                                    (default "" (preparedS3MessageKey prepared))
                                    (preparedS3Content prepared) ;;
                       ret (Some storing))) ;;
      promise wrapped None.

(** The body of the async function mapped over the messages. *)
Definition processMessage (this : SQSExtended) (message : nat) : M unit :=
  read <- readMessage message ;;
  reference <- lift (getS3MessageKeyAndBucket
                       (match Message.MessageAttributes read with
                        | Some attrs =>
                            match attrs !! S3_MESSAGE_BODY_KEY with
                            | Some attr => StringValue attr
                            | None => None
                            end
                        | None => None
                        end)) ;;
  if truthy (refS3MessageKey reference) then
    fetching <- _getS3Content this (refBucketName reference)
                  (default "" (refS3MessageKey reference)) ;;
    content <- await fetching ;;
    current <- readMessage message ;;
    writeMessage message (withBody current (receiveTransform this current (Some content))) ;;;
    current <- readMessage message ;;
    writeMessage message
      (withReceiptHandle current
         (embedS3MarkersInReceiptHandle
            (default "null" (refBucketName reference))
            (default "" (refS3MessageKey reference))
            (Message.ReceiptHandle current)))
  else
    current <- readMessage message ;;
    writeMessage message (withBody current (receiveTransform this current None)).

Definition _processReceive (this : SQSExtended)
    : ReceiveMessageResult -> M (Promise (list unit)) :=
  fun response =>
    processing <- mapM (fun message => async (processMessage this message))
                    (default [] (Messages response)) ;;
    promiseAll processing.

Definition receiveMessage (this : SQSExtended) (params : ReceiveMessageRequest)
    (callback : option callbackFnType) : M (Promise (option ReceiveMessageResult)) :=
  let modifiedParams :=
    {| rcvQueueUrl := rcvQueueUrl params;
       MessageAttributeNames :=
         Some (default [] (MessageAttributeNames params) ++ [RESERVED_ATTRIBUTE_NAME]) |} in
  request <- sqs_receiveMessage (sqs this) modifiedParams ;;
  wrapped <- wrapRequest request callback
               (invokeFnAfterRequest request (_processReceive this)) ;;
  promise wrapped None.

Definition _prepareDelete (params : DeleteMessageRequest) : PreparedDelete :=
  {| preparedBucketName := extractBucketNameFromReceiptHandle (ReceiptHandle params);
     preparedDeleteKey := extractS3MessageKeyFromReceiptHandle (ReceiptHandle params);
     deleteParams :=
       {| delQueueUrl := delQueueUrl params;
          ReceiptHandle := getOriginReceiptHandle (ReceiptHandle params) |} |}.

Definition deleteMessage (this : SQSExtended) (params : DeleteMessageRequest)
    (callback : option callbackFnType) : M DeleteMessageReturn :=
  let prepared := _prepareDelete params in
  if negb (truthy (preparedDeleteKey prepared)) then
    request <- sqs_deleteMessage (sqs this) (deleteParams prepared) ;;
    ret (TheQueueRequest request)
  else
    request <- sqs_deleteMessage (sqs this) (deleteParams prepared) ;;
    wrapped <- wrapRequest request callback
                 (invokeFnBeforeRequest request
                    (_deleteS3Content this (preparedBucketName prepared)
                       (default "" (preparedDeleteKey prepared)))) ;;
    ret (TheWrappedRequest wrapped).

(** The body of the async function mapped over the records. *)
Definition checkRecord (this : SQSExtended) (record : nat) : M unit :=
  read <- readRecord record ;;
  reference <- lift (getS3MessageKeyAndBucket
                       (match messageAttributes read with
                        | Some attrs =>
                            match attrs !! S3_MESSAGE_BODY_KEY with
                            | Some attr => stringValue attr
                            | None => None
                            end
                        | None => None
                        end)) ;;
  if truthy (refS3MessageKey reference) then
    fetching <- _getS3Content this (refBucketName reference)
                  (default "" (refS3MessageKey reference)) ;;
    s3Content <- await fetching ;;
    current <- readRecord record ;;
    writeRecord record
      {| body := or_else (Some s3Content) (body current);
         receiptHandle := receiptHandle current;
         messageAttributes := messageAttributes current |}
  else ret tt.

Definition checkEvent (this : SQSExtended) (event : SQSEvent) : M (Promise (list unit)) :=
  checking <- mapM (fun record => async (checkRecord this record)) (Records event) ;;
  promiseAll checking.

Definition succeedRecord (this : SQSExtended) (record : nat) : M unit :=
  read <- readRecord record ;;
  reference <- lift (getS3MessageKeyAndBucket
                       (match messageAttributes read with
                        | Some attrs =>
                            match attrs !! S3_MESSAGE_BODY_KEY with
                            | Some attr => stringValue attr
                            | None => None
                            end
                        | None => None
                        end)) ;;
  if truthy (refS3MessageKey reference) then
    deleting <- _deleteS3Content this (refBucketName reference)
                  (default "" (refS3MessageKey reference)) ;;
    match deleting with
    | Some p => await p ;;; ret tt
    | None => ret tt
    end
  else ret tt.

Definition eventSucceeded (this : SQSExtended) (event : SQSEvent) : M (Promise (list unit)) :=
  succeeding <- mapM (fun record => async (succeedRecord this record)) (Records event) ;;
  promiseAll succeeding.

End Index.

(** ** The async variant of the class ([src/unnamed/part_001])

    The same class without the transforms and the callbacks: every method
    is an async function.  The size estimator, the key codec and the
    receipt-handle functions are the ones above, word for word. *)

Module Part001.

Record Options : Type := {
  optBucketName : option string;
  optAlwaysUseS3 : option bool;
  optMessageSizeThreshold : option Z;
}.

Record SQSExtended : Type := {
  sqs : SQS;
  s3 : S3;
  bucketName : option string;
  alwaysUseS3 : bool;
  messageSizeThreshold : Z;
}.

Definition new_SQSExtended (sqs : SQS) (s3 : S3) (options : Options) : SQSExtended :=
  {| sqs := sqs;
     s3 := s3;
     bucketName := optBucketName options;
     alwaysUseS3 := default false (optAlwaysUseS3 options);
     messageSizeThreshold :=
       default DEFAULT_MESSAGE_SIZE_THRESHOLD (optMessageSizeThreshold options) |}.

Definition _storeS3Content (this : SQSExtended) (key : string) (s3Content : option string)
    : M (Promise unit) :=
  s3_putObject (s3 this) {| Bucket := bucketName this; Key := key; Body := s3Content |}.

Definition _deleteS3Content (this : SQSExtended) (bucketName : option string) (key : string)
    : M (Promise unit) :=
  async (
    if negb (truthy bucketName) then ret tt
    else
      deleting <- s3_deleteObject (s3 this)
                    {| Bucket := bucketName; Key := key; Body := None |} ;;
      await deleting).

Definition _prepareSend (this : SQSExtended) (params : SendMessageRequest) : M PreparedSend :=
  let sendParams := params in
  let useS3 := alwaysUseS3 this || isLarge params (Some (messageSizeThreshold this)) in
  let sendObj :=
    {| messageBody := if useS3 then None else MessageBody params;
       s3Content := if useS3 then MessageBody params else None |} in
  let existingS3MessageKey :=
    match MessageAttributes params with
    | Some attrs => attrs !! RESERVED_ATTRIBUTE_NAME
    | None => None
    end in
  if negb (truthy (s3Content sendObj)) || bool_decide (is_Some existingS3MessageKey) then
    ret {| preparedS3MessageKey := None;
           preparedSendParams :=
             withMessageBody sendParams
               (or_else (messageBody sendObj)
                  (match existingS3MessageKey with
                   | Some attr => StringValue attr
                   | None => None
                   end));
           preparedS3Content := s3Content sendObj |}
  else
    s3MessageKey <- v4 ;;
    let sendParams :=
      withMessageAttributes sendParams
        (addS3MessageKeyAttribute
           ("(" +:+ templated (bucketName this) +:+ ")" +:+ s3MessageKey)
           (Some (default ∅ (MessageAttributes sendParams)))) in
    ret {| preparedS3MessageKey := Some s3MessageKey;
           preparedSendParams :=
             withMessageBody sendParams (or_else (messageBody sendObj) (Some s3MessageKey));
           preparedS3Content := s3Content sendObj |}.

Definition sendMessage (this : SQSExtended) (params : SendMessageRequest)
    : M (Promise SendMessageResult) :=
  async (
    if negb (truthy (bucketName this)) then
      throw (Error "bucketName option is required for sending messages")
    else
      prepared <- _prepareSend this params ;;
      (if truthy (preparedS3MessageKey prepared) && truthy (preparedS3Content prepared) then
         storing <- _storeS3Content this (default "" (preparedS3MessageKey prepared))
                      (preparedS3Content prepared) ;;
         await storing
       else ret tt) ;;;
      sending <- sqs_sendMessage (sqs this) (preparedSendParams prepared) ;;
      result <- await sending ;;
      ret result).

Definition _prepareDelete (params : DeleteMessageRequest) : PreparedDelete :=
  {| preparedBucketName := extractBucketNameFromReceiptHandle (ReceiptHandle params);
     preparedDeleteKey := extractS3MessageKeyFromReceiptHandle (ReceiptHandle params);
     deleteParams :=
       {| delQueueUrl := delQueueUrl params;
          ReceiptHandle := getOriginReceiptHandle (ReceiptHandle params) |} |}.

Definition deleteMessage (this : SQSExtended) (params : DeleteMessageRequest)
    : M (Promise DeleteMessageResult) :=
  async (
    let prepared := _prepareDelete params in
    deleting <- sqs_deleteMessage (sqs this) (deleteParams prepared) ;;
    result <- await deleting ;;
    (if truthy (preparedDeleteKey prepared) then
       cleaning <- _deleteS3Content this (preparedBucketName prepared)
                     (default "" (preparedDeleteKey prepared)) ;;
       await cleaning
     else ret tt) ;;;
    ret result).

Definition _getS3Content (this : SQSExtended) (bucketName : option string) (key : string)
    : M (Promise string) :=
  async (
    object <- (fetching <- s3_getObject (s3 this)
                             {| Bucket := bucketName; Key := key; Body := None |} ;;
               await fetching) ;;
    ret object).

(** The body of the async function mapped over the messages: there is no
    receive transform here, and a message without a key is not touched. *)
Definition processMessage (this : SQSExtended) (message : nat) : M unit :=
  read <- readMessage message ;;
  reference <- lift (getS3MessageKeyAndBucket
                       (match Message.MessageAttributes read with
                        | Some attrs =>
                            match attrs !! S3_MESSAGE_BODY_KEY with
                            | Some attr => StringValue attr
                            | None => None
                            end
                        | None => None
                        end)) ;;
  if truthy (refS3MessageKey reference) then
    fetching <- _getS3Content this (refBucketName reference)
                  (default "" (refS3MessageKey reference)) ;;
    content <- await fetching ;;
    current <- readMessage message ;;
    writeMessage message (withBody current (Some content)) ;;;
    current <- readMessage message ;;
    writeMessage message
      (withReceiptHandle current
         (embedS3MarkersInReceiptHandle
            (default "null" (refBucketName reference))
            (default "" (refS3MessageKey reference))
            (Message.ReceiptHandle current)))
  else ret tt.

Definition _processReceive (this : SQSExtended) (response : ReceiveMessageResult)
    : M (Promise (list unit)) :=
  processing <- mapM (fun message => async (processMessage this message))
                  (default [] (Messages response)) ;;
  promiseAll processing.

Definition receiveMessage (this : SQSExtended) (params : ReceiveMessageRequest)
    : M (Promise ReceiveMessageResult) :=
  async (
    let modifiedParams :=
      {| rcvQueueUrl := rcvQueueUrl params;
         MessageAttributeNames :=
           Some (default [] (MessageAttributeNames params) ++ [RESERVED_ATTRIBUTE_NAME]) |} in
    receiving <- sqs_receiveMessage (sqs this) modifiedParams ;;
    result <- await receiving ;;
    processing <- _processReceive this result ;;
    _ <- await processing ;;
    ret result).

(** The body of the async function mapped over the records by
    [checkEvent], and by [eventSucceeded]. *)
Definition checkRecord (this : SQSExtended) (record : nat) : M unit :=
  read <- readRecord record ;;
  reference <- lift (getS3MessageKeyAndBucket
                       (match messageAttributes read with
                        | Some attrs =>
                            match attrs !! S3_MESSAGE_BODY_KEY with
                            | Some attr => stringValue attr
                            | None => None
                            end
                        | None => None
                        end)) ;;
  if truthy (refS3MessageKey reference) then
    fetching <- _getS3Content this (refBucketName reference)
                  (default "" (refS3MessageKey reference)) ;;
    s3Content <- await fetching ;;
    current <- readRecord record ;;
    writeRecord record
      {| body := or_else (Some s3Content) (body current);
         receiptHandle := receiptHandle current;
         messageAttributes := messageAttributes current |}
  else ret tt.

Definition checkEvent (this : SQSExtended) (event : SQSEvent) : M (Promise (list unit)) :=
  async (
    checking <- mapM (fun record => async (checkRecord this record)) (Records event) ;;
    all <- promiseAll checking ;;
    await all).

Definition succeedRecord (this : SQSExtended) (record : nat) : M unit :=
  read <- readRecord record ;;
  reference <- lift (getS3MessageKeyAndBucket
                       (match messageAttributes read with
                        | Some attrs =>
                            match attrs !! S3_MESSAGE_BODY_KEY with
                            | Some attr => stringValue attr
                            | None => None
                            end
                        | None => None
                        end)) ;;
  if truthy (refS3MessageKey reference) then
    deleting <- _deleteS3Content this (refBucketName reference)
                  (default "" (refS3MessageKey reference)) ;;
    await deleting
  else ret tt.

Definition eventSucceeded (this : SQSExtended) (event : SQSEvent) : M (Promise (list unit)) :=
  async (
    succeeding <- mapM (fun record => async (succeedRecord this record)) (Records event) ;;
    all <- promiseAll succeeding ;;
    await all).

End Part001.

(** ** Words of the specification *)

(** The reserved attribute of a message to send, if it has one. *)
Definition reservedAttribute (params : SendMessageRequest) : option MessageAttributeValue :=
  match MessageAttributes params with
  | Some attrs => attrs !! RESERVED_ATTRIBUTE_NAME
  | None => None
  end.

(** The estimated size of a message: the byte lengths of the names, types
    and values of its attributes, and the byte length of its body. *)
Definition estimatedSize (message : SendMessageRequest) : Z :=
  (getMessageAttributesSize (MessageAttributes message)
   + byteLength (default "" (MessageBody message)))%Z.

(** The uploads, the queue sends and the object deletions among events. *)
Definition uploads (evs : list Event) : list S3Params :=
  omap (fun ev => match ev with S3PutObject p => Some p | _ => None end) evs.

Definition queueSends (evs : list Event) : list SendMessageRequest :=
  omap (fun ev => match ev with SqsSendMessage p => Some p | _ => None end) evs.

Definition queueDeletes (evs : list Event) : list DeleteMessageRequest :=
  omap (fun ev => match ev with SqsDeleteMessage p => Some p | _ => None end) evs.

Definition objectDeletes (evs : list Event) : list S3Params :=
  omap (fun ev => match ev with S3DeleteObject p => Some p | _ => None end) evs.

Definition fetches (evs : list Event) : list S3Params :=
  omap (fun ev => match ev with S3GetObject p => Some p | _ => None end) evs.

(** The token of the reserved attribute of a received message, and of a
    record of an event. *)
Definition referenceToken (m : Message.t) : option string :=
  match Message.MessageAttributes m with
  | Some attrs =>
      match attrs !! S3_MESSAGE_BODY_KEY with
      | Some attr => StringValue attr
      | None => None
      end
  | None => None
  end.

Definition recordToken (r : SQSRecord) : option string :=
  match messageAttributes r with
  | Some attrs =>
      match attrs !! S3_MESSAGE_BODY_KEY with
      | Some attr => stringValue attr
      | None => None
      end
  | None => None
  end.

(** The object a token asks for, when it decodes to a key. *)
Definition fetchFor (token : option string) : option S3Params :=
  match getS3MessageKeyAndBucket token with
  | Normal reference =>
      if truthy (refS3MessageKey reference) then
        Some {| Bucket := refBucketName reference;
                Key := default "" (refS3MessageKey reference);
                Body := None |}
      else None
  | Throw _ => None
  end.

(** What becomes of a received message, taken alone: how long it takes,
    and the message as rewritten, or the failure. *)
Definition processedMessage (this : SQSExtended) (m : Message.t) : Reply Message.t :=
  match getS3MessageKeyAndBucket (referenceToken m) with
  | Throw e => {| latency := 0; answer := Rejected e |}
  | Normal reference =>
      match fetchFor (referenceToken m) with
      | None =>
          {| latency := 0; answer := Fulfilled (withBody m (receiveTransform this m None)) |}
      | Some object =>
          {| latency := latency (getObjectReply (s3 this) object);
             answer :=
               match answer (getObjectReply (s3 this) object) with
               | Fulfilled content =>
                   Fulfilled
                     (withReceiptHandle
                        (withBody m (receiveTransform this m (Some content)))
                        (embedS3MarkersInReceiptHandle
                           (default "null" (Bucket object)) (Key object)
                           (Message.ReceiptHandle m)))
               | Rejected e => Rejected e
               end |}
      end
  end.

(** Likewise for a record of an event. *)
Definition processedRecord (this : SQSExtended) (r : SQSRecord) : Reply SQSRecord :=
  match getS3MessageKeyAndBucket (recordToken r) with
  | Throw e => {| latency := 0; answer := Rejected e |}
  | Normal reference =>
      match fetchFor (recordToken r) with
      | None => {| latency := 0; answer := Fulfilled r |}
      | Some object =>
          {| latency := latency (getObjectReply (s3 this) object);
             answer :=
               match answer (getObjectReply (s3 this) object) with
               | Fulfilled content =>
                   Fulfilled {| body := or_else (Some content) (body r);
                                receiptHandle := receiptHandle r;
                                messageAttributes := messageAttributes r |}
               | Rejected e => Rejected e
               end |}
      end
  end.

(** The object after the pipeline has run: rewritten, or as it was when
    its processing failed. *)
Definition settled {A} (original : A) (processed : Reply A) : A :=
  match answer processed with
  | Fulfilled rewritten => rewritten
  | Rejected _ => original
  end.

(** The promise of the async function that processes one object, started
    at time [t]. *)
Definition processing {A} (t : nat) (processed : Reply A) : Promise unit :=
  {| settledAt := t + latency processed;
     outcome := match answer processed with
                | Fulfilled _ => Fulfilled tt
                | Rejected e => Rejected e
                end |}.

(** The fetches dispatched at time [t] for a batch of tokens. *)
Definition fetchLog (t : nat) (tokens : list (option string)) : list (nat * Event) :=
  omap (fun token => (fun object => (t, S3GetObject object)) <$> fetchFor token) tokens.

(** The object the success of a record deletes: the one its token asks
    for, when the bucket of the token is not empty. *)
Definition cleanupFor (token : option string) : option S3Params :=
  match fetchFor token with
  | Some object => if truthy (Bucket object) then Some object else None
  | None => None
  end.

(** What becomes of the deletion for a record, taken alone: how long it
    takes and whether it fails.  The record itself is left as it is. *)
Definition succeededRecord (s3 : S3) (r : SQSRecord) : Reply SQSRecord :=
  match getS3MessageKeyAndBucket (recordToken r) with
  | Throw e => {| latency := 0; answer := Rejected e |}
  | Normal reference =>
      match cleanupFor (recordToken r) with
      | None => {| latency := 0; answer := Fulfilled r |}
      | Some object =>
          {| latency := latency (deleteObjectReply s3 object);
             answer := match answer (deleteObjectReply s3 object) with
                       | Fulfilled _ => Fulfilled r
                       | Rejected e => Rejected e
                       end |}
      end
  end.

(** The deletions dispatched at time [t] for a batch of tokens. *)
Definition cleanupLog (t : nat) (tokens : list (option string)) : list (nat * Event) :=
  omap (fun token => (fun object => (t, S3DeleteObject object)) <$> cleanupFor token) tokens.

(** What becomes of a message received by the async variant, taken alone:
    there is no receive transform, the content fetched is the body. *)
Definition receivedMessage (s3 : S3) (m : Message.t) : Reply Message.t :=
  match getS3MessageKeyAndBucket (referenceToken m) with
  | Throw e => {| latency := 0; answer := Rejected e |}
  | Normal reference =>
      match fetchFor (referenceToken m) with
      | None => {| latency := 0; answer := Fulfilled m |}
      | Some object =>
          {| latency := latency (getObjectReply s3 object);
             answer :=
               match answer (getObjectReply s3 object) with
               | Fulfilled content =>
                   Fulfilled
                     (withReceiptHandle
                        (withBody m (Some content))
                        (embedS3MarkersInReceiptHandle
                           (default "null" (Bucket object)) (Key object)
                           (Message.ReceiptHandle m)))
               | Rejected e => Rejected e
               end |}
      end
  end.

(** ** A world to start from, and replies *)

Definition initialWorld (uuids : nat -> string) : World :=
  {| clock := 0; log := []; uuids := uuids; minted := 0; messages := []; records := [] |}.

Definition after {A} (n : nat) (o : Outcome A) : Reply A := {| latency := n; answer := o |}.

(** ** Sample clients and inputs, after the tests of the repository *)

Definition mockS3Key : string := "1234-5678".

Definition testWorld : World := initialWorld (fun _ => mockS3Key).

Definition testMessageAttribute : MessageAttributeValue :=
  {| DataType := Some "String"; StringValue := Some "attr value"; BinaryValue := None |}.

Definition s3MessageBodyKeyAttribute : MessageAttributeValue :=
  {| DataType := Some "String"; StringValue := Some ("(test-bucket)" +:+ mockS3Key);
     BinaryValue := None |}.

(** A queue and a store that answer every request, after some time. *)
Definition testQueue : SQS :=
  {| sendMessageReply := fun _ => after 3 (Fulfilled {| MessageId := Some "test message id" |});
     receiveMessageReply := fun _ => after 1 (Fulfilled None);
     deleteMessageReply := fun _ => after 2 (Fulfilled Build_DeleteMessageResult) |}.

Definition testStore : S3 :=
  {| putObjectReply := fun _ => after 5 (Fulfilled tt);
     getObjectReply := fun _ => after 4 (Fulfilled "message body");
     deleteObjectReply := fun _ => after 1 (Fulfilled tt) |}.

(** A store that refuses every request. *)
Definition failingStore : S3 :=
  {| putObjectReply := fun _ => after 5 (Rejected (ServiceError "AccessDenied"));
     getObjectReply := fun _ => after 4 (Rejected (ServiceError "AccessDenied"));
     deleteObjectReply := fun _ => after 1 (Rejected (ServiceError "AccessDenied")) |}.

Definition testOptions : Options :=
  {| optBucketName := Some "test-bucket"; alwaysUseS3 := None; messageSizeThreshold := None;
     optSendTransform := None; optReceiveTransform := None |}.

Definition withThreshold (threshold : Z) : Options :=
  {| optBucketName := Some "test-bucket"; alwaysUseS3 := None;
     messageSizeThreshold := Some threshold;
     optSendTransform := None; optReceiveTransform := None |}.

Definition alwaysOffload : Options :=
  {| optBucketName := Some "test-bucket"; alwaysUseS3 := Some true;
     messageSizeThreshold := None;
     optSendTransform := None; optReceiveTransform := None |}.

Definition smallMessage : SendMessageRequest :=
  {| QueueUrl := Some "test-queue";
     MessageBody := Some "small message body";
     MessageAttributes := Some {[ "MessageAttribute" := testMessageAttribute ]} |}.

(** The same message with the reserved attribute already on it. *)
Definition referencedMessage : SendMessageRequest :=
  {| QueueUrl := Some "test-queue";
     MessageBody := Some "small message body";
     MessageAttributes :=
       Some (<[ S3_MESSAGE_BODY_KEY := s3MessageBodyKeyAttribute ]>
               {[ "MessageAttribute" := testMessageAttribute ]}) |}.

(** What goes to the queue when [smallMessage] is offloaded. *)
Definition offloadedMessage : SendMessageRequest :=
  {| QueueUrl := Some "test-queue";
     MessageBody := Some mockS3Key;
     MessageAttributes :=
       Some (<[ S3_MESSAGE_BODY_KEY := s3MessageBodyKeyAttribute ]>
               {[ "MessageAttribute" := testMessageAttribute ]}) |}.

(** The parameters of a delete with the receipt handle [receiveMessage]
    made of "receipthandle" for an object under test-bucket/8765-4321. *)
Definition wrappedDelete : DeleteMessageRequest :=
  {| delQueueUrl := Some "test-queue";
     ReceiptHandle :=
       embedS3MarkersInReceiptHandle "test-bucket" "8765-4321" (Some "receipthandle") |}.

(** A store in which the object "missing" is missing, and which is slow to
    return the others. *)
Definition flakyStore : S3 :=
  {| putObjectReply := fun _ => after 5 (Fulfilled tt);
     getObjectReply := fun object =>
       if String.eqb (Key object) "missing"
       then after 1 (Rejected (ServiceError "NoSuchKey"))
       else after 10 (Fulfilled "message body");
     deleteObjectReply := fun _ => after 1 (Fulfilled tt) |}.

(** A queue that refuses every request. *)
Definition failingQueue : SQS :=
  {| sendMessageReply := fun _ => after 3 (Rejected (ServiceError "ServiceUnavailable"));
     receiveMessageReply := fun _ => after 1 (Rejected (ServiceError "ServiceUnavailable"));
     deleteMessageReply := fun _ => after 2 (Rejected (ServiceError "ServiceUnavailable")) |}.

(** A queue that answers a receive with the given batch. *)
Definition queueWith (batch : list Message.t) : SQS :=
  {| sendMessageReply := fun _ => after 3 (Fulfilled {| MessageId := Some "test message id" |});
     receiveMessageReply := fun _ => after 1 (Fulfilled (Some batch));
     deleteMessageReply := fun _ => after 2 (Fulfilled Build_DeleteMessageResult) |}.

Definition referenceAttribute (token : string) : gmap string MessageAttributeValue :=
  {[ S3_MESSAGE_BODY_KEY :=
       {| DataType := Some "String"; StringValue := Some token; BinaryValue := None |} ]}.

(** A message whose body is in the store, one whose body is missing from
    it, and one that was never offloaded. *)
Definition storedMessage : Message.t :=
  {| Message.Body := Some "8765-4321";
     Message.ReceiptHandle := Some "receipthandle";
     Message.MessageAttributes := Some (referenceAttribute "(test-bucket)8765-4321") |}.

Definition missingMessage : Message.t :=
  {| Message.Body := Some "missing";
     Message.ReceiptHandle := Some "otherhandle";
     Message.MessageAttributes := Some (referenceAttribute "(test-bucket)missing") |}.

Definition plainMessage : Message.t :=
  {| Message.Body := Some "message body";
     Message.ReceiptHandle := Some "plainhandle";
     Message.MessageAttributes := None |}.

Definition receiveParams : ReceiveMessageRequest :=
  {| rcvQueueUrl := Some "test-queue"; MessageAttributeNames := Some ["MessageAttribute"] |}.

(** The same as records of an event. *)
Definition recordAttribute (token : string) : gmap string SQSMessageAttribute :=
  {[ S3_MESSAGE_BODY_KEY := {| dataType := Some "String"; stringValue := Some token |} ]}.

Definition storedRecord : SQSRecord :=
  {| body := Some "8765-4321"; receiptHandle := Some "receipthandle";
     messageAttributes := Some (recordAttribute "(test-bucket)8765-4321") |}.

Definition missingRecord : SQSRecord :=
  {| body := Some "missing"; receiptHandle := Some "otherhandle";
     messageAttributes := Some (recordAttribute "(test-bucket)missing") |}.

(** A world whose record objects are those of an event. *)
Definition worldWith (batch : list SQSRecord) : World :=
  {| clock := 0; log := []; uuids := fun _ => mockS3Key; minted := 0;
     messages := []; records := batch |}.

Definition eventOf (batch : list SQSRecord) : SQSEvent :=
  {| Records := seq 0 (List.length batch) |}.

(** * Properties *)

(** ** Facts about the string primitives *)

Section StringFacts.

Implicit Types (s t pat : string) (n m : nat) (i : Z).

Lemma string_app_cons c s t : String c s +:+ t = String c (s +:+ t).
Proof. reflexivity. Qed.

Lemma string_app_nil_l s : "" +:+ s = s.
Proof. reflexivity. Qed.

Lemma string_app_nil_r s : s +:+ "" = s.
Proof.
  induction s as [|c s IH]; [done |]. by rewrite string_app_cons, IH.
Qed.

Lemma string_app_assoc s t u : (s +:+ t) +:+ u = s +:+ t +:+ u.
Proof.
  induction s as [|c s IH]; [done |]. by rewrite !string_app_cons, IH.
Qed.

Lemma string_length_app s t :
  String.length (s +:+ t) = (String.length s + String.length t)%nat.
Proof.
  induction s as [|c s IH]; [done |]. rewrite string_app_cons. simpl. by rewrite IH.
Qed.

Lemma startsWith_app s pat : startsWith (pat +:+ s) pat = true.
Proof.
  induction pat as [|c pat IH]; [reflexivity |].
  rewrite string_app_cons. simpl. by rewrite Ascii.eqb_refl.
Qed.

Lemma startsWith_inv s pat : startsWith s pat = true -> exists t, s = pat +:+ t.
Proof.
  revert s. induction pat as [|c pat IH]; intros s H; simpl in *.
  - by exists s.
  - destruct s as [|d s]; [done |].
    destruct (Ascii.eqb c d) eqn:E; [| done].
    apply Ascii.eqb_eq in E as ->.
    destruct (IH _ H) as [t ->]. by exists t.
Qed.

Lemma startsWith_extend s t pat : startsWith s pat = true -> startsWith (s +:+ t) pat = true.
Proof.
  intros [u ->]%startsWith_inv. rewrite string_app_assoc. apply startsWith_app.
Qed.

Lemma drop_length_app s t : drop (String.length s) (s +:+ t) = t.
Proof. induction s as [|c s IH]; [done |]. rewrite string_app_cons. simpl. done. Qed.

Lemma take_length_app s t : take (String.length s) (s +:+ t) = s.
Proof.
  induction s as [|c s IH]; [done |]. rewrite string_app_cons. simpl. by rewrite IH.
Qed.

Lemma drop_all s : drop (String.length s) s = "".
Proof. induction s as [|c s IH]; simpl; done. Qed.

Lemma take_all s : take (String.length s) s = s.
Proof. induction s as [|c s IH]; simpl; [done | by rewrite IH]. Qed.

Lemma drop_add n m s : drop (n + m) s = drop m (drop n s).
Proof.
  revert s. induction n as [|n IH]; intros s; simpl; [done |].
  destruct s as [|c s]; [by destruct m | apply IH].
Qed.

Lemma take_drop s n : take n s +:+ drop n s = s.
Proof.
  revert s. induction n as [|n IH]; intros s; simpl; [done |].
  destruct s as [|c s]; [done |]. by rewrite string_app_cons, IH.
Qed.

Lemma take_length s n : (n <= String.length s)%nat -> String.length (take n s) = n.
Proof.
  revert s. induction n as [|n IH]; intros s H; simpl; [done |].
  destruct s as [|c s]; simpl in *; [lia |]. rewrite IH; [done | lia].
Qed.

Lemma drop_length s n : String.length (drop n s) = (String.length s - n)%nat.
Proof.
  revert s. induction n as [|n IH]; intros s; simpl; [lia |].
  destruct s as [|c s]; simpl; [done | apply IH].
Qed.

Lemma drop_app_le n s t :
  (n <= String.length s)%nat -> drop n (s +:+ t) = drop n s +:+ t.
Proof.
  revert s. induction n as [|n IH]; intros s H; [done |].
  destruct s as [|c s]; simpl in H; [lia |].
  rewrite string_app_cons. simpl. apply IH. lia.
Qed.

(** Occurrences, one character further. *)
Lemma occursAt_0 pat s : occursAt pat s 0 <-> startsWith s pat = true.
Proof. unfold occursAt. simpl. split; [tauto | split; [lia | done]]. Qed.

Lemma occursAt_S pat c s n : occursAt pat (String c s) (S n) <-> occursAt pat s n.
Proof. unfold occursAt. simpl. split; intros [? ?]; split; [lia | done | lia | done]. Qed.

Lemma occursAt_nil pat n : occursAt pat "" n -> n = 0%nat.
Proof. intros [H _]. simpl in H. lia. Qed.

Lemma occursAt_app pat s t : occursAt pat (s +:+ pat +:+ t) (String.length s).
Proof.
  split.
  - rewrite string_length_app. lia.
  - rewrite drop_length_app. apply startsWith_app.
Qed.

Lemma occursAt_occurrences pat s n : occursAt pat s n <-> n ∈ occurrences pat s.
Proof.
  unfold occursAt, occurrences.
  rewrite list_elem_of_filter, elem_of_seq. intuition lia.
Qed.

Lemma NoDup_occurrences pat s : NoDup (occurrences pat s).
Proof. apply NoDup_filter, NoDup_seq. Qed.

(** [indexOf] finds the first occurrence, [lastIndexOf] the last. *)
Lemma indexOfFrom_spec pat s i :
  (indexOfFrom pat s i = (-1)%Z /\ forall n, ~ occursAt pat s n) \/
  (exists n, indexOfFrom pat s i = (i + Z.of_nat n)%Z /\ occursAt pat s n /\
             forall m, (m < n)%nat -> ~ occursAt pat s m).
Proof.
  revert i. induction s as [|c s IH]; intros i.
  - simpl. destruct (startsWith "" pat) eqn:E.
    + right. exists 0%nat. rewrite Z.add_0_r. split; [done |].
      split; [by apply occursAt_0 | lia].
    + left. split; [done |]. intros n Hn.
      pose proof (occursAt_nil _ _ Hn) as ->. apply occursAt_0 in Hn. congruence.
  - cbn [indexOfFrom]. destruct (startsWith (String c s) pat) eqn:E.
    + right. exists 0%nat. rewrite Z.add_0_r. split; [done |].
      split; [by apply occursAt_0 | lia].
    + destruct (IH (i + 1)%Z) as [[H1 H2] | (n & H1 & H2 & H3)].
      * left. split; [done |]. intros [|n] Hn.
        -- apply occursAt_0 in Hn. congruence.
        -- apply occursAt_S in Hn. by apply (H2 n).
      * right. exists (S n). split; [rewrite H1; lia |].
        split; [by apply occursAt_S |].
        intros [|m] Hm Hocc.
        -- apply occursAt_0 in Hocc. congruence.
        -- apply occursAt_S in Hocc. apply (H3 m); [lia | done].
Qed.

Lemma lastIndexOfFrom_spec pat s i :
  (0 <= i)%Z ->
  (lastIndexOfFrom pat s i = (-1)%Z /\ forall n, ~ occursAt pat s n) \/
  (exists n, lastIndexOfFrom pat s i = (i + Z.of_nat n)%Z /\ occursAt pat s n /\
             forall m, (n < m)%nat -> ~ occursAt pat s m).
Proof.
  revert i. induction s as [|c s IH]; intros i Hi.
  - simpl. destruct (startsWith "" pat) eqn:E.
    + right. exists 0%nat. rewrite Z.add_0_r. split; [done |].
      split; [by apply occursAt_0 |].
      intros m Hm Hocc. apply occursAt_nil in Hocc. lia.
    + left. split; [done |]. intros n Hn.
      pose proof (occursAt_nil _ _ Hn) as ->. apply occursAt_0 in Hn. congruence.
  - cbn [lastIndexOfFrom].
    destruct (IH (i + 1)%Z ltac:(lia)) as [[H1 H2] | (n & H1 & H2 & H3)].
    + rewrite H1. simpl (0 <=? -1)%Z. cbv iota.
      destruct (startsWith (String c s) pat) eqn:E.
      * right. exists 0%nat. rewrite Z.add_0_r. split; [done |].
        split; [by apply occursAt_0 |].
        intros [|m] Hm Hocc; [lia |]. apply occursAt_S in Hocc. by apply (H2 m).
      * left. split; [done |]. intros [|n] Hn.
        -- apply occursAt_0 in Hn. congruence.
        -- apply occursAt_S in Hn. by apply (H2 n).
    + rewrite H1. destruct (Z.leb_spec 0 (i + 1 + Z.of_nat n)); [| lia].
      right. exists (S n). split; [lia |].
      split; [by apply occursAt_S |].
      intros [|m] Hm Hocc; [lia |]. apply occursAt_S in Hocc. apply (H3 m); [lia | done].
Qed.

Lemma indexOf_absent s pat : indexOf s pat = (-1)%Z <-> forall n, ~ occursAt pat s n.
Proof.
  unfold indexOf.
  destruct (indexOfFrom_spec pat s 0) as [[H1 H2] | (n & H1 & H2 & H3)].
  - tauto.
  - split; [lia |]. intros H. by destruct (H n).
Qed.

Lemma indexOf_found s pat :
  (0 <=? indexOf s pat)%Z = true <-> exists n, occursAt pat s n.
Proof.
  unfold indexOf.
  destruct (indexOfFrom_spec pat s 0) as [[H1 H2] | (n & H1 & H2 & H3)].
  - rewrite H1. split; [done |]. intros [n Hn]. by destruct (H2 n).
  - rewrite H1. split; [by exists n |]. intros _. apply Z.leb_le. lia.
Qed.

Lemma indexOf_first s pat n :
  occursAt pat s n -> (forall m, (m < n)%nat -> ~ occursAt pat s m) ->
  indexOf s pat = Z.of_nat n.
Proof.
  intros Hn Hfirst. unfold indexOf.
  destruct (indexOfFrom_spec pat s 0) as [[H1 H2] | (k & H1 & H2 & H3)].
  - by destruct (H2 n).
  - rewrite H1. destruct (Nat.lt_trichotomy k n) as [Hlt | [-> | Hgt]]; [| lia |].
    + by destruct (Hfirst k).
    + by destruct (H3 n).
Qed.

Lemma lastIndexOf_last s pat n :
  occursAt pat s n -> (forall m, (n < m)%nat -> ~ occursAt pat s m) ->
  lastIndexOf s pat = Z.of_nat n.
Proof.
  intros Hn Hlast. unfold lastIndexOf.
  destruct (lastIndexOfFrom_spec pat s 0 ltac:(lia)) as [[H1 H2] | (k & H1 & H2 & H3)].
  - by destruct (H2 n).
  - rewrite H1. destruct (Nat.lt_trichotomy k n) as [Hlt | [-> | Hgt]]; [| lia |].
    + by destruct (H3 n).
    + by destruct (Hlast k).
Qed.

(** A pattern that occurs exactly twice occurs nowhere but at the two
    places one knows. *)
Lemma occurs_twice pat s n1 n2 m :
  countOccurrences pat s = 2%nat ->
  occursAt pat s n1 -> occursAt pat s n2 -> n1 <> n2 ->
  occursAt pat s m -> m = n1 \/ m = n2.
Proof.
  intros Hcount H1 H2 Hne Hm.
  destruct (decide (m = n1)) as [| Hm1]; [by left |].
  destruct (decide (m = n2)) as [| Hm2]; [by right |].
  exfalso.
  assert (Hsub : [n1; n2; m] ⊆+ occurrences pat s).
  { apply NoDup_submseteq.
    - apply NoDup_ListNoDup. repeat constructor; simpl; intuition congruence.
    - intros x Hx. apply occursAt_occurrences.
      apply list_elem_of_In in Hx. simpl in Hx.
      destruct Hx as [<- | [<- | [<- | []]]]; done. }
  apply submseteq_length in Hsub. unfold countOccurrences in Hcount.
  simpl in Hsub. lia.
Qed.

(** [substring] between two positions in range, and from a position on. *)
Lemma substring_in_range s a b :
  (a <= b)%nat -> (b <= String.length s)%nat ->
  substring s (Z.of_nat a) (Z.of_nat b) = take (b - a) (drop a s).
Proof.
  intros Hab Hb. unfold substring, length.
  match goal with
  | |- take ?x (drop ?y _) = _ =>
      replace x with (b - a)%nat by lia; replace y with a by lia
  end.
  done.
Qed.

Lemma substringFrom_in_range s a :
  (a <= String.length s)%nat -> substringFrom s (Z.of_nat a) = drop a s.
Proof.
  intros Ha. unfold substringFrom, length.
  rewrite (substring_in_range s a (String.length s)) by lia.
  rewrite <- drop_length. apply take_all.
Qed.

End StringFacts.

(** ** The receipt-handle token *)

Section ReceiptHandle.

Implicit Types (b k h token x mid y pat : string).

(** A section of a string between two copies of a pattern that occurs
    nowhere else is what [indexOf], [lastIndexOf] and [substring] cut
    out, and what follows the second copy is what [substring] leaves. *)
Lemma marked_section pat x mid y :
  let s := x +:+ pat +:+ mid +:+ pat +:+ y in
  pat <> "" ->
  countOccurrences pat s = 2%nat ->
  indexOf s pat = Z.of_nat (String.length x) /\
  lastIndexOf s pat = Z.of_nat (String.length x + String.length pat + String.length mid) /\
  substring s (indexOf s pat + length pat) (lastIndexOf s pat) = mid /\
  substringFrom s (lastIndexOf s pat + length pat) = y.
Proof.
  intros s Hpat Hcount.
  assert (Hlen : (0 < String.length pat)%nat) by (destruct pat; [done | simpl; lia]).
  set (p1 := String.length x).
  set (p2 := (String.length x + String.length pat + String.length mid)%nat).
  assert (H1 : occursAt pat s p1) by apply occursAt_app.
  assert (H2 : occursAt pat s p2).
  { unfold s, p2.
    replace (x +:+ pat +:+ mid +:+ pat +:+ y) with ((x +:+ pat +:+ mid) +:+ pat +:+ y)
      by by rewrite !string_app_assoc.
    replace (String.length x + String.length pat + String.length mid)%nat
      with (String.length (x +:+ pat +:+ mid))
      by (rewrite !string_length_app; lia).
    apply occursAt_app. }
  assert (Hne : p1 <> p2) by (unfold p1, p2; lia).
  pose proof (fun m => occurs_twice pat s p1 p2 m Hcount H1 H2 Hne) as Honly.
  assert (Hfirst : indexOf s pat = Z.of_nat p1).
  { apply indexOf_first; [done |]. intros m Hm Hocc.
    destruct (Honly m Hocc); unfold p1, p2 in *; lia. }
  assert (Hlast : lastIndexOf s pat = Z.of_nat p2).
  { apply lastIndexOf_last; [done |]. intros m Hm Hocc.
    destruct (Honly m Hocc); unfold p1, p2 in *; lia. }
  assert (Hs : String.length s =
               (p2 + String.length pat + String.length y)%nat).
  { unfold s, p2. rewrite !string_length_app. lia. }
  split; [done |]. split; [done |]. rewrite Hfirst, Hlast. unfold length. split.
  - replace (Z.of_nat p1 + Z.of_nat (String.length pat))%Z
      with (Z.of_nat (p1 + String.length pat)) by lia.
    rewrite substring_in_range by (unfold p1, p2 in *; lia).
    replace (p2 - (p1 + String.length pat))%nat with (String.length mid)
      by (unfold p1, p2; lia).
    unfold s, p1.
    replace (x +:+ pat +:+ mid +:+ pat +:+ y) with ((x +:+ pat) +:+ mid +:+ pat +:+ y)
      by by rewrite !string_app_assoc.
    rewrite <- string_length_app, drop_length_app. apply take_length_app.
  - replace (Z.of_nat p2 + Z.of_nat (String.length pat))%Z
      with (Z.of_nat (p2 + String.length pat)) by lia.
    rewrite substringFrom_in_range by lia.
    unfold s, p2.
    replace (x +:+ pat +:+ mid +:+ pat +:+ y) with ((x +:+ pat +:+ mid +:+ pat) +:+ y)
      by by rewrite !string_app_assoc.
    replace (String.length x + String.length pat + String.length mid + String.length pat)%nat
      with (String.length (x +:+ pat +:+ mid +:+ pat))
      by (rewrite !string_length_app; lia).
    apply drop_length_app.
Qed.


(** C3, as amended.  For all bucket names b, keys k and original handles
    h such that the wrapped token contains each of the two marker
    literals exactly twice (the two copies wrapping puts there, and none
    that straddles a boundary), unwrapping inverts wrapping: the bucket
    extracted is b, the key is k and the original handle is h. *)
Theorem unwrap_wrap_receipt_handle b k h :
  let token := embedS3MarkersInReceiptHandle b k (Some h) in
  countOccurrences S3_BUCKET_NAME_MARKER token = 2%nat ->
  countOccurrences S3_MESSAGE_KEY_MARKER token = 2%nat ->
  extractBucketNameFromReceiptHandle token = Some b /\
  extractS3MessageKeyFromReceiptHandle token = Some k /\
  getOriginReceiptHandle token = h.
Proof.
  intros token Hbucket Hkey.
  assert (Htoken1 : token = "" +:+ S3_BUCKET_NAME_MARKER +:+ b +:+ S3_BUCKET_NAME_MARKER +:+
                            (S3_MESSAGE_KEY_MARKER +:+ k +:+ S3_MESSAGE_KEY_MARKER +:+ h))
    by reflexivity.
  assert (Htoken2 : token = (S3_BUCKET_NAME_MARKER +:+ b +:+ S3_BUCKET_NAME_MARKER) +:+
                            S3_MESSAGE_KEY_MARKER +:+ k +:+ S3_MESSAGE_KEY_MARKER +:+ h)
    by (unfold token, embedS3MarkersInReceiptHandle; simpl templated;
        by rewrite !string_app_assoc).
  rewrite Htoken1 in Hbucket. rewrite Htoken2 in Hkey.
  apply marked_section in Hbucket as (Hb1 & Hb2 & Hb3 & _); [| done].
  apply marked_section in Hkey as (Hk1 & Hk2 & Hk3 & Hk4); [| done].
  rewrite <- Htoken1 in Hb1, Hb2, Hb3. rewrite <- Htoken2 in Hk1, Hk2, Hk3, Hk4.
  unfold extractBucketNameFromReceiptHandle, extractS3MessageKeyFromReceiptHandle,
    getOriginReceiptHandle.
  rewrite Hb3, Hk3, Hk4.
  rewrite Hb1, Hk1.
  destruct (Z.leb_spec 0 (Z.of_nat (String.length ""))); [| lia].
  destruct (Z.leb_spec 0 (Z.of_nat (String.length
    (S3_BUCKET_NAME_MARKER +:+ b +:+ S3_BUCKET_NAME_MARKER)))); [| lia].
  done.
Qed.

Lemma unwrap_wrap_receipt_handle_witness :
  extractBucketNameFromReceiptHandle
    (embedS3MarkersInReceiptHandle "test-bucket" "8765-4321" (Some "receipthandle"))
    = Some "test-bucket" /\
  extractS3MessageKeyFromReceiptHandle
    (embedS3MarkersInReceiptHandle "test-bucket" "8765-4321" (Some "receipthandle"))
    = Some "8765-4321" /\
  getOriginReceiptHandle
    (embedS3MarkersInReceiptHandle "test-bucket" "8765-4321" (Some "receipthandle"))
    = "receipthandle".
Proof.
  apply (unwrap_wrap_receipt_handle "test-bucket" "8765-4321" "receipthandle");
    vm_compute; reflexivity.
Defined.

(** C3, as stated, fails.  None of the bucket name, the key and the handle
    below contains a marker literal, yet a copy of the bucket marker
    straddles the key and the two key markers around it, so the bucket
    extracted from the wrapped token is not the bucket name. *)
Lemma unwrap_wrap_receipt_handle_counterexample :
  let b := "b" in
  let k := "..s3BucketName.." in
  let h := "h" in
  includes b S3_BUCKET_NAME_MARKER = false /\ includes b S3_MESSAGE_KEY_MARKER = false /\
  includes k S3_BUCKET_NAME_MARKER = false /\ includes k S3_MESSAGE_KEY_MARKER = false /\
  includes h S3_BUCKET_NAME_MARKER = false /\ includes h S3_MESSAGE_KEY_MARKER = false /\
  extractBucketNameFromReceiptHandle (embedS3MarkersInReceiptHandle b k (Some h))
    = Some "b-..s3BucketName..--..s3Key.." /\
  extractBucketNameFromReceiptHandle (embedS3MarkersInReceiptHandle b k (Some h)) <> Some b.
Proof. vm_compute. repeat split; discriminate. Qed.

(** The same at the other two boundaries: a key marker completed across
    the bucket name, and one completed across the start of the handle. *)
Example unwrap_wrap_key_straddles :
  includes "..s3Key.." S3_BUCKET_NAME_MARKER = false /\
  includes "..s3Key.." S3_MESSAGE_KEY_MARKER = false /\
  extractS3MessageKeyFromReceiptHandle
    (embedS3MarkersInReceiptHandle "..s3Key.." "k" (Some "h"))
    = Some "..s3BucketName..--..s3Key..-k".
Proof. vm_compute. done. Qed.

Example unwrap_wrap_handle_straddles :
  includes "..s3Key..-x" S3_BUCKET_NAME_MARKER = false /\
  includes "..s3Key..-x" S3_MESSAGE_KEY_MARKER = false /\
  getOriginReceiptHandle (embedS3MarkersInReceiptHandle "b" "k" (Some "..s3Key..-x")) = "x".
Proof. vm_compute. done. Qed.

(** C7, as amended.  For every receipt-handle token in which the key
    marker is absent, unwrapping leaves the handle as it is and finds no
    key; the bucket it finds is null exactly when the bucket marker is
    absent too. *)
Theorem unwrap_without_key_marker token :
  (forall n, ~ occursAt S3_MESSAGE_KEY_MARKER token n) ->
  let unwrapped := Index._prepareDelete {| delQueueUrl := None; ReceiptHandle := token |} in
  ReceiptHandle (deleteParams unwrapped) = token /\
  preparedDeleteKey unwrapped = None /\
  (preparedBucketName unwrapped = None <->
   forall n, ~ occursAt S3_BUCKET_NAME_MARKER token n).
Proof.
  intros Habsent unwrapped. apply indexOf_absent in Habsent.
  unfold unwrapped, Index._prepareDelete; simpl.
  unfold getOriginReceiptHandle, extractS3MessageKeyFromReceiptHandle,
    extractBucketNameFromReceiptHandle.
  rewrite Habsent. simpl. split; [done |]. split; [done |].
  rewrite <- indexOf_absent.
  destruct (indexOfFrom_spec S3_BUCKET_NAME_MARKER token 0) as [[H1 H2] | (n & H1 & H2 & H3)];
    unfold indexOf; rewrite H1.
  - done.
  - destruct (Z.leb_spec 0 (0 + Z.of_nat n)); [| lia]. split; [done | lia].
Qed.

Lemma unwrap_without_key_marker_witness :
  let unwrapped :=
    Index._prepareDelete {| delQueueUrl := None; ReceiptHandle := "receipthandle" |} in
  ReceiptHandle (deleteParams unwrapped) = "receipthandle" /\
  preparedDeleteKey unwrapped = None /\
  (preparedBucketName unwrapped = None <->
   forall n, ~ occursAt S3_BUCKET_NAME_MARKER "receipthandle" n).
Proof.
  apply (unwrap_without_key_marker "receipthandle").
  apply indexOf_absent. vm_compute. reflexivity.
Defined.

(** C7, as stated, fails: in the token below the key marker is absent and
    the bucket marker is present, and the bucket unwrapping finds is not
    null. *)
Lemma unwrap_without_key_marker_counterexample :
  let token := "-..s3BucketName..-b-..s3BucketName..-h" in
  let unwrapped := Index._prepareDelete {| delQueueUrl := None; ReceiptHandle := token |} in
  includes token S3_MESSAGE_KEY_MARKER = false /\
  ReceiptHandle (deleteParams unwrapped) = token /\
  preparedDeleteKey unwrapped = None /\
  preparedBucketName unwrapped = Some "b" /\
  preparedBucketName unwrapped <> None.
Proof. vm_compute. repeat split; discriminate. Qed.

End ReceiptHandle.

(** ** The reference token *)

Section ReferenceToken.

Implicit Types (s t token : string).

Lemma atLineTerminator_extend s t :
  atLineTerminator s = true -> atLineTerminator (s +:+ t) = true.
Proof.
  unfold atLineTerminator. rewrite !orb_true_iff.
  intros [[[H | H] | H] | H]; eauto using startsWith_extend.
Qed.

Lemma dotStar_spec s :
  exists t, s = dotStar s +:+ t /\
            forall n, (n < String.length (dotStar s))%nat -> atLineTerminator (drop n s) = false.
Proof.
  induction s as [|c s (t & Ht & IH)].
  - exists "". split; [by destruct (atLineTerminator "") | simpl; destruct (atLineTerminator ""); simpl; lia].
  - cbn [dotStar]. destruct (atLineTerminator (String c s)) eqn:E.
    + exists (String c s). split; [done | simpl; lia].
    + exists t. split; [by rewrite string_app_cons, <- Ht |].
      intros [|n] Hn; [done |]. simpl in *. apply IH. lia.
Qed.

Lemma matchReference_matches token groups :
  matchReference token = Some groups -> matchesReferencePattern token.
Proof.
  unfold matchReference. destruct token as [|c rest]; [done |].
  destruct (decide (c = "("%char)) as [-> | Hc]; cycle 1.
  { intros H. exfalso. revert H.
    destruct c as [[] [] [] [] [] [] [] []]; try done. }
  destruct (dotStar_spec rest) as (t & Hrest & Hline).
  set (line := dotStar rest) in *.
  destruct (lastIndexOfFrom_spec ")" line 0 ltac:(lia)) as [[H1 _] | (n & H1 & H2 & _)];
    unfold lastIndexOf; rewrite H1; [done |].
  intros _. destruct H2 as [Hn Hstarts].
  apply startsWith_inv in Hstarts as [u Hu].
  exists (take n line), (u +:+ t). split.
  - rewrite string_app_cons, string_app_nil_l. f_equal.
    rewrite Hrest at 1. rewrite <- (take_drop line n) at 1. rewrite Hu.
    by rewrite !string_app_assoc.
  - intros m. destruct (decide (m < n)%nat) as [Hm | Hm].
    + destruct (atLineTerminator (drop m (take n line))) eqn:E; [| done].
      apply (atLineTerminator_extend _ (drop n line +:+ t)) in E.
      rewrite <- drop_app_le in E by (rewrite take_length; lia).
      rewrite <- string_app_assoc, take_drop, <- Hrest in E.
      rewrite Hline in E; [done | lia].
    + replace m with (String.length (take n line) + (m - n))%nat
        by (rewrite take_length; lia).
      rewrite drop_add, drop_all. by destruct (m - n)%nat.
Qed.

(** C6, as amended.  Decoding an absent or an empty token returns the
    not-offloaded sentinel (bucket and key null) and raises no error;
    decoding a token that is not empty and does not match the leading
    parenthesized pattern raises the parse error. *)
Theorem decode_reference_token :
  getS3MessageKeyAndBucket None
    = Normal {| refBucketName := None; refS3MessageKey := None |} /\
  getS3MessageKeyAndBucket (Some "")
    = Normal {| refBucketName := None; refS3MessageKey := None |} /\
  forall token, token <> "" -> ~ matchesReferencePattern token ->
    getS3MessageKeyAndBucket (Some token)
      = Throw (Error "Can not found match s3MessageKeyRegexMatch").
Proof.
  split; [done |]. split; [done |]. intros token Hne Hno.
  unfold getS3MessageKeyAndBucket, truthy.
  destruct (String.eqb_spec token ""); [done |]. simpl.
  destruct (matchReference token) as [groups |] eqn:E; [| done].
  destruct Hno. eapply matchReference_matches, E.
Qed.

Lemma decode_reference_token_witness :
  getS3MessageKeyAndBucket (Some "test-bucket/1234-5678")
    = Throw (Error "Can not found match s3MessageKeyRegexMatch").
Proof.
  apply decode_reference_token; [discriminate |].
  intros (bucket & rest & H & _). discriminate H.
Defined.

(** C6, as stated, fails: the empty token is present and does not match
    the pattern, and decoding it returns the sentinel instead of raising. *)
Lemma decode_reference_token_counterexample :
  ~ matchesReferencePattern "" /\
  getS3MessageKeyAndBucket (Some "")
    = Normal {| refBucketName := None; refS3MessageKey := None |}.
Proof.
  split; [| done]. intros (bucket & rest & H & _). discriminate H.
Qed.

(** The tokens the send pipeline writes decode to their bucket and key. *)
Example decode_encoded_reference :
  getS3MessageKeyAndBucket (Some "(test-bucket)1234-5678")
    = Normal {| refBucketName := Some "test-bucket"; refS3MessageKey := Some "1234-5678" |}.
Proof. reflexivity. Qed.

Lemma atLineTerminator_before_paren x r :
  x <> "" -> atLineTerminator x = false -> atLineTerminator (x +:+ ")" +:+ r) = false.
Proof.
  intros Hx. unfold atLineTerminator, LINE_SEPARATOR, PARAGRAPH_SEPARATOR.
  destruct x as [|c1 [|c2 [|c3 x]]]; [done | | |];
    rewrite ?string_app_cons, ?string_app_nil_l; cbn [startsWith];
    destruct (Ascii.eqb "010" c1), (Ascii.eqb "013" c1), (Ascii.eqb "226" c1);
    cbn; try done;
    try (destruct (Ascii.eqb "128" c2); cbn; try done;
         destruct (Ascii.eqb "168" c3), (Ascii.eqb "169" c3); cbn; done).
Qed.

Lemma dotStar_before_paren bucket r :
  noLineTerminator bucket -> dotStar (bucket +:+ ")" +:+ r) = bucket +:+ ")" +:+ dotStar r.
Proof.
  induction bucket as [|c bucket IH]; intros Hno.
  - rewrite string_app_nil_l. change (")" +:+ r) with (String ")" r). cbn [dotStar].
    by replace (atLineTerminator (String ")" r)) with false by reflexivity.
  - assert (Hc : atLineTerminator (String c (bucket +:+ ")" +:+ r)) = false).
    { rewrite <- string_app_cons.
      apply atLineTerminator_before_paren; [done | apply (Hno 0%nat)]. }
    rewrite !(string_app_cons c bucket). cbn [dotStar]. rewrite Hc.
    f_equal. apply IH. intros n. apply (Hno (S n)).
Qed.

(** The matching procedure finds a match in every token that matches the
    pattern: with [matchReference_matches], it decides the pattern. *)
Lemma matchReference_complete token :
  matchesReferencePattern token -> exists groups, matchReference token = Some groups.
Proof.
  intros (bucket & rest & -> & Hno).
  change ("(" +:+ bucket +:+ ")" +:+ rest) with (String "(" (bucket +:+ ")" +:+ rest)).
  unfold matchReference. rewrite dotStar_before_paren by done.
  set (line := bucket +:+ ")" +:+ dotStar rest).
  assert (Hocc : occursAt ")" line (String.length bucket)) by apply occursAt_app.
  destruct (lastIndexOfFrom_spec ")" line 0 ltac:(lia)) as [[_ Hnone] | (n & Hn & _)].
  - by destruct (Hnone _ Hocc).
  - unfold lastIndexOf. rewrite Hn. destruct (Z.leb_spec 0 (0 + Z.of_nat n)); [| lia]. eauto.
Qed.

(** Decoding a token that is not empty raises the parse error exactly when
    the token does not match the pattern. *)
Lemma decode_raises_iff token :
  token <> "" ->
  (getS3MessageKeyAndBucket (Some token)
     = Throw (Error "Can not found match s3MessageKeyRegexMatch")
   <-> ~ matchesReferencePattern token).
Proof.
  intros Hne. unfold getS3MessageKeyAndBucket, truthy.
  destruct (String.eqb_spec token ""); [done |].
  change (default "" (Some token)) with token. cbn [negb].
  destruct (matchReference token) as [[group1 group2] |] eqn:E.
  - split; [done |]. intros Hno. destruct Hno. eapply matchReference_matches, E.
  - split; [| done]. intros _ [groups Hgroups]%matchReference_complete. congruence.
Qed.

End ReferenceToken.

(** ** The send pipeline *)

Section SendPipeline.

Implicit Types (this : SQSExtended) (params : SendMessageRequest) (w : World).

Ltac run :=
  unfold Index.sendMessage, Index._prepareSend, Index._storeS3Content,
    wrapRequest, invokeFnBeforeRequest, sqs_sendMessage, s3_putObject, dispatch,
    async, await, settle, emit, v4, bind, ret, throw;
  cbv zeta; unfold reservedAttribute in *.

Lemma truthy_Some (v : option string) : truthy v = true -> exists s, v = Some s /\ s <> "".
Proof.
  destruct v as [s |]; [| done]. simpl. destruct (String.eqb_spec s ""); [done |]. eauto.
Qed.

Lemma truthy_Some_ne (s : string) : s <> "" -> truthy (Some s) = true.
Proof. intros H. simpl. by destruct (String.eqb_spec s ""). Qed.

Lemma withMessageBody_same params : withMessageBody params (MessageBody params) = params.
Proof. by destruct params. Qed.

Lemma isLarge_estimatedSize params threshold :
  isLarge params threshold
  = (default DEFAULT_MESSAGE_SIZE_THRESHOLD threshold <? estimatedSize params)%Z.
Proof.
  unfold isLarge, estimatedSize. f_equal. f_equal.
  destruct (MessageBody params) as [s |]; simpl; [| done].
  by destruct (String.eqb_spec s "") as [-> |].
Qed.

(** The path on which nothing is offloaded: the message goes to the queue
    with the body the transform chose, or failing that with the string
    value of the reserved attribute; no key is minted and nothing else
    happens. *)
Lemma sendMessage_passes_through this params callback w outgoing :
  truthy (bucketName this) = true ->
  truthy (s3Content (sendTransform this params)) = false \/ is_Some (reservedAttribute params) ->
  (if truthy (messageBody (sendTransform this params))
   then Some (messageBody (sendTransform this params))
   else StringValue <$> reservedAttribute params) = Some outgoing ->
  Index.sendMessage this params callback w =
    (Normal (fulfilledWith Some
               {| settledAt := clock w + latency (sendMessageReply (sqs this)
                                                    (withMessageBody params outgoing));
                  outcome := answer (sendMessageReply (sqs this)
                                       (withMessageBody params outgoing)) |}),
     record (clock w) (SqsSendMessage (withMessageBody params outgoing)) w).
Proof.
  intros Hbucket Hpath Hbody. run. rewrite Hbucket. cbn [negb].
  set (existing := match MessageAttributes params with
                    | Some attrs => attrs !! RESERVED_ATTRIBUTE_NAME
                    | None => None
                    end) in *.
  assert (negb (truthy (s3Content (sendTransform this params)))
          || bool_decide (is_Some existing) = true) as ->.
  { destruct Hpath as [-> | H]; [done |]. rewrite (bool_decide_eq_true_2 _ H). apply orb_true_r. }
  destruct (truthy (messageBody (sendTransform this params))).
  - injection Hbody as <-. done.
  - destruct existing as [attr |]; [| done].
    injection Hbody as <-. done.
Qed.

(** The path on which the body is offloaded, called without a callback: a
    key is minted, the message goes to the queue with the reserved
    attribute (and, unless the transform left a body, with the key as its
    body), and then the content is uploaded under the key.  The request to
    the queue is dispatched first, whatever becomes of the upload. *)
Lemma sendMessage_offloads this params w :
  truthy (bucketName this) = true ->
  truthy (s3Content (sendTransform this params)) = true ->
  reservedAttribute params = None ->
  uuids w (minted w) <> "" ->
  let key := uuids w (minted w) in
  let outgoing :=
    withMessageBody
      (withMessageAttributes params
         (addS3MessageKeyAttribute ("(" +:+ templated (bucketName this) +:+ ")" +:+ key)
            (MessageAttributes params)))
      (or_else (messageBody (sendTransform this params)) (Some key)) in
  let put := {| Bucket := bucketName this; Key := key;
                Body := s3Content (sendTransform this params) |} in
  let sending := sendMessageReply (sqs this) outgoing in
  let storing := putObjectReply (s3 this) put in
  Index.sendMessage this params None w =
    (Normal
       {| settledAt :=
            match answer storing with
            | Fulfilled _ =>
                Nat.max (Nat.max (clock w) (clock w + latency storing))
                        (clock w + latency sending)
            | Rejected _ => Nat.max (clock w) (clock w + latency storing)
            end;
          outcome :=
            match answer storing with
            | Fulfilled _ =>
                match answer sending with
                | Fulfilled response => Fulfilled (Some response)
                | Rejected err => Rejected err
                end
            | Rejected fnErr => Rejected fnErr
            end |},
     record (clock w) (S3PutObject put) (record (clock w) (SqsSendMessage outgoing) (mint w))).
Proof.
  intros Hbucket Hcontent Hnone Hkey key outgoing put sending storing.
  run. rewrite Hbucket, Hcontent, Hnone. cbn [negb orb bool_decide].
  rewrite bool_decide_eq_false_2 by (by intros [? ?]).
  cbn [preparedS3MessageKey preparedSendParams preparedS3Content default].
  unfold id. rewrite (truthy_Some_ne _ Hkey). cbn [negb].
  fold key. fold outgoing. fold put. fold sending. fold storing.
  cbn [mint record clock setClock settledAt outcome promise].
  destruct (answer storing) as [[] | fnErr]; [destruct (answer sending) |]; reflexivity.
Qed.


Lemma events_record t ev w : events (record t ev w) = events w ++ [ev].
Proof. unfold events, record. simpl. by rewrite fmap_app. Qed.

Lemma minted_record t ev w : minted (record t ev w) = minted w.
Proof. reflexivity. Qed.

(** C1, as amended.  With the default send transform, a bucket configured
    and a message whose body is not empty: if alwaysUseS3 is not set and
    the estimated size of the message is at most the threshold, sendMessage
    sends the message as it is (the original body, no reserved attribute
    added), uploads nothing and mints no key; if alwaysUseS3 is set or the
    estimated size is over the threshold, and the message does not carry
    the reserved attribute already, sendMessage called without a callback
    mints a key, sends the message with the key as its body and the
    reserved attribute set to (bucketName)key, and uploads the original
    body under the key, once. *)
Theorem sendMessage_default_transform sqs s3 options params w :
  let this := new_SQSExtended sqs s3 options in
  let threshold := default DEFAULT_MESSAGE_SIZE_THRESHOLD (messageSizeThreshold options) in
  optSendTransform options = None ->
  truthy (optBucketName options) = true ->
  truthy (MessageBody params) = true ->
  (default false (alwaysUseS3 options) = false ->
   (estimatedSize params <= threshold)%Z ->
   forall callback,
     let after := snd (Index.sendMessage this params callback w) in
     (exists request, fst (Index.sendMessage this params callback w) = Normal request) /\
     events after = events w ++ [SqsSendMessage params] /\
     uploads (events after) = uploads (events w) /\
     minted after = minted w) /\
  (default false (alwaysUseS3 options) = true \/ (threshold < estimatedSize params)%Z ->
   reservedAttribute params = None ->
   uuids w (minted w) <> "" ->
   let key := uuids w (minted w) in
   let outgoing :=
     {| QueueUrl := QueueUrl params;
        MessageBody := Some key;
        MessageAttributes :=
          Some (<[ RESERVED_ATTRIBUTE_NAME :=
                   {| DataType := Some "String";
                      StringValue :=
                        Some ("(" +:+ default "" (optBucketName options) +:+ ")" +:+ key);
                      BinaryValue := None |} ]>
                  (default ∅ (MessageAttributes params))) |} in
   let upload :=
     {| Bucket := optBucketName options; Key := key; Body := MessageBody params |} in
   let after := snd (Index.sendMessage this params None w) in
   (exists request, fst (Index.sendMessage this params None w) = Normal request) /\
   events after = events w ++ [SqsSendMessage outgoing; S3PutObject upload] /\
   uploads (events after) = uploads (events w) ++ [upload] /\
   minted after = S (minted w)).
Proof.
  intros this threshold Hdefault Hbucket Hbody.
  assert (Htransform : sendTransform this
            = defaultSendTransform (alwaysUseS3 options) (messageSizeThreshold options)).
  { unfold this, new_SQSExtended. simpl. by rewrite Hdefault. }
  split.
  - intros Hnever Hsize callback after.
    assert (Huse : sendTransform this params
                   = {| s3Content := None; messageBody := MessageBody params |}).
    { rewrite Htransform. unfold defaultSendTransform.
      rewrite Hnever, isLarge_estimatedSize. fold threshold.
      destruct (Z.ltb_spec threshold (estimatedSize params)); [lia | done]. }
    pose proof (sendMessage_passes_through this params callback w (MessageBody params)
                  Hbucket) as Hsend.
    rewrite Huse in Hsend. simpl in Hsend. rewrite Hbody in Hsend.
    specialize (Hsend (or_introl eq_refl) eq_refl).
    rewrite withMessageBody_same in Hsend.
    unfold after. rewrite Hsend. simpl.
    split; [eauto |]. rewrite events_record. split; [done |].
    split; [| done]. unfold uploads. rewrite omap_app. simpl. apply app_nil_r.
  - intros Hover Hnone Hkey key outgoing upload after.
    assert (Huse : sendTransform this params
                   = {| s3Content := MessageBody params; messageBody := None |}).
    { rewrite Htransform. unfold defaultSendTransform.
      assert (default false (alwaysUseS3 options)
              || isLarge params (messageSizeThreshold options) = true) as ->; [| done].
      destruct Hover as [-> | Hlarge]; [done |].
      rewrite isLarge_estimatedSize. fold threshold.
      destruct (Z.ltb_spec threshold (estimatedSize params)); [apply orb_true_r | lia]. }
    pose proof (sendMessage_offloads this params w Hbucket) as Hsend.
    rewrite Huse in Hsend. cbn [s3Content messageBody] in Hsend.
    specialize (Hsend Hbody Hnone Hkey). cbv zeta in Hsend.
    unfold after. rewrite Hsend. cbn [fst snd].
    apply truthy_Some in Hbucket as (bucket & Hb & _).
    assert (Hevents :
      events (record (clock w)
                (S3PutObject {| Bucket := bucketName this; Key := uuids w (minted w);
                                Body := MessageBody params |})
                (record (clock w)
                   (SqsSendMessage
                      (withMessageBody
                         (withMessageAttributes params
                            (addS3MessageKeyAttribute
                               ("(" +:+ templated (bucketName this) +:+ ")" +:+
                                uuids w (minted w))
                               (MessageAttributes params)))
                         (or_else None (Some (uuids w (minted w))))))
                   (mint w)))
      = events w ++ [SqsSendMessage outgoing; S3PutObject upload]).
    { rewrite !events_record, <- app_assoc. unfold outgoing, upload, key, this.
      cbn [bucketName new_SQSExtended]. rewrite Hb. reflexivity. }
    split; [eauto |]. rewrite Hevents. split; [done |].
    split; [| done]. unfold uploads. rewrite !omap_app. simpl.
    by rewrite ?app_nil_r.
Qed.

Lemma sendMessage_default_transform_witness :
  let small := new_SQSExtended testQueue testStore testOptions in
  let always := new_SQSExtended testQueue testStore alwaysOffload in
  events (snd (Index.sendMessage small smallMessage None testWorld))
    = [SqsSendMessage smallMessage] /\
  events (snd (Index.sendMessage always smallMessage None testWorld))
    = [SqsSendMessage offloadedMessage;
       S3PutObject {| Bucket := Some "test-bucket"; Key := mockS3Key;
                      Body := Some "small message body" |}].
Proof.
  split.
  - apply (sendMessage_default_transform testQueue testStore testOptions smallMessage testWorld);
      [reflexivity | reflexivity | reflexivity | reflexivity | vm_compute; discriminate].
  - apply (sendMessage_default_transform testQueue testStore alwaysOffload smallMessage testWorld);
      [reflexivity | reflexivity | reflexivity | left; reflexivity | reflexivity
      | vm_compute; discriminate].
Defined.

(** C1, as stated, fails at the threshold itself: the estimated size of
    the message is exactly the threshold, and the message is sent as it
    is, with nothing uploaded. *)
Lemma sendMessage_default_transform_counterexample :
  let this := new_SQSExtended testQueue testStore (withThreshold 50) in
  let after := snd (Index.sendMessage this smallMessage None testWorld) in
  estimatedSize smallMessage = 50%Z /\
  events after = [SqsSendMessage smallMessage] /\
  uploads (events after) = [] /\
  minted after = 0%nat.
Proof. vm_compute. done. Qed.


(** With a callback the offloading send runs its send function twice, once
    for the callback and once for the promise it returns: the content is
    uploaded twice. *)
Example sendMessage_with_callback_uploads_twice :
  let this := new_SQSExtended testQueue testStore alwaysOffload in
  let upload := {| Bucket := Some "test-bucket"; Key := mockS3Key;
                   Body := Some "small message body" |} in
  events (snd (Index.sendMessage this smallMessage (Some (Callback "done")) testWorld))
  = [SqsSendMessage offloadedMessage; S3PutObject upload;
     CallbackCall (Callback "done") None TheResponse; S3PutObject upload].
Proof. vm_compute. done. Qed.

(** C5, as amended.  Whenever the reserved attribute is already present on
    the message given to sendMessage (and a bucket is configured), nothing
    is uploaded and no key is minted: the message goes to the queue, its
    attributes as they were, and its body is the body the send transform
    chose when that is not empty, and the string value of the reserved
    attribute otherwise. *)
Theorem sendMessage_reserved_attribute_present this params callback w attr :
  truthy (bucketName this) = true ->
  reservedAttribute params = Some attr ->
  let chosen := messageBody (sendTransform this params) in
  let outgoing :=
    {| QueueUrl := QueueUrl params;
       MessageBody := if truthy chosen then chosen else StringValue attr;
       MessageAttributes := MessageAttributes params |} in
  let after := snd (Index.sendMessage this params callback w) in
  (exists request, fst (Index.sendMessage this params callback w) = Normal request) /\
  events after = events w ++ [SqsSendMessage outgoing] /\
  uploads (events after) = uploads (events w) /\
  minted after = minted w.
Proof.
  intros Hbucket Hattr chosen outgoing after.
  pose proof (sendMessage_passes_through this params callback w
                (if truthy chosen then chosen else StringValue attr) Hbucket) as Hsend.
  rewrite Hattr in Hsend. fold chosen in Hsend.
  specialize (Hsend (or_intror (mk_is_Some _ _ eq_refl))).
  assert (Hchosen : (if truthy chosen then Some chosen else StringValue <$> Some attr)
                    = Some (if truthy chosen then chosen else StringValue attr))
    by by destruct (truthy chosen).
  specialize (Hsend Hchosen). unfold after. rewrite Hsend. cbn [fst snd].
  split; [eauto |]. rewrite events_record. split; [done |].
  split; [| done]. unfold uploads. rewrite omap_app. simpl. apply app_nil_r.
Qed.

Lemma sendMessage_reserved_attribute_present_witness :
  events (snd (Index.sendMessage (new_SQSExtended testQueue testStore alwaysOffload)
                 referencedMessage None testWorld))
  = [SqsSendMessage
       {| QueueUrl := Some "test-queue";
          MessageBody := Some "(test-bucket)1234-5678";
          MessageAttributes := MessageAttributes referencedMessage |}].
Proof.
  apply (sendMessage_reserved_attribute_present
           (new_SQSExtended testQueue testStore alwaysOffload) referencedMessage None testWorld
           s3MessageBodyKeyAttribute); reflexivity.
Defined.

(** C5, as stated, fails: the message below carries the reserved attribute
    and a body of its own, the default transform keeps that body, and the
    queue gets the body, not the string value of the attribute. *)
Lemma sendMessage_reserved_attribute_present_counterexample :
  let this := new_SQSExtended testQueue testStore testOptions in
  let after := snd (Index.sendMessage this referencedMessage None testWorld) in
  (StringValue <$> reservedAttribute referencedMessage) = Some (Some "(test-bucket)1234-5678") /\
  (MessageBody <$> queueSends (events after)) = [Some "small message body"] /\
  (MessageBody <$> queueSends (events after)) <> [Some "(test-bucket)1234-5678"].
Proof. vm_compute. repeat split; discriminate. Qed.

(** C9.  If the bucket is configured, the send transform declines to
    offload (its s3Content is null), the body it returns is falsy (as for
    a message whose MessageBody is absent or empty under the default
    transform), and the message has no reserved attribute, then
    _prepareSend reads StringValue of undefined: sendMessage throws a
    TypeError and nothing is delegated to the queue (the world is as it
    was). *)
Theorem sendMessage_empty_body_throws this params callback w :
  truthy (bucketName this) = true ->
  s3Content (sendTransform this params) = None ->
  truthy (messageBody (sendTransform this params)) = false ->
  reservedAttribute params = None ->
  exists message,
    Index._prepareSend this params w = (Throw (TypeError message), w) /\
    Index.sendMessage this params callback w = (Throw (TypeError message), w) /\
    queueSends (events (snd (Index.sendMessage this params callback w)))
      = queueSends (events w).
Proof.
  intros Hbucket Hcontent Hbody Hnone.
  exists "Cannot read properties of undefined (reading 'StringValue')".
  run. rewrite Hbucket, Hcontent, Hbody. simpl. rewrite Hnone. simpl. done.
Qed.

Lemma sendMessage_empty_body_throws_witness :
  exists message,
    Index.sendMessage (new_SQSExtended testQueue testStore testOptions)
      {| QueueUrl := Some "test-queue"; MessageBody := Some ""; MessageAttributes := None |}
      None testWorld
    = (Throw (TypeError message), testWorld).
Proof.
  destruct (sendMessage_empty_body_throws
              (new_SQSExtended testQueue testStore testOptions)
              {| QueueUrl := Some "test-queue"; MessageBody := Some "";
                 MessageAttributes := None |}
              None testWorld) as (message & _ & H & _);
    [reflexivity | reflexivity | reflexivity | reflexivity |].
  exists message. exact H.
Defined.

(** The same for a message with no body at all. *)
Example sendMessage_absent_body_throws :
  fst (Index.sendMessage (new_SQSExtended testQueue testStore testOptions)
         {| QueueUrl := Some "test-queue"; MessageBody := None; MessageAttributes := None |}
         None testWorld)
  = Throw (TypeError "Cannot read properties of undefined (reading 'StringValue')").
Proof. reflexivity. Qed.

(** C2 fails on [sendMessage] of [src/index.ts]: the request to the queue
    is dispatched before the upload is even started, so when the store
    refuses the upload the message is already with the queue, bearing the
    reference to an object that does not exist; here the queue has even
    answered (at time 3) before the upload fails (at time 5).  The send
    does fail with the error of the upload. *)
Theorem sendMessage_upload_failure_after_queue_send :
  let this := new_SQSExtended testQueue failingStore alwaysOffload in
  Index.sendMessage this smallMessage None testWorld
  = (Normal {| settledAt := 5; outcome := Rejected (ServiceError "AccessDenied") |},
     {| clock := 0;
        log := [(0, SqsSendMessage offloadedMessage);
                (0, S3PutObject {| Bucket := Some "test-bucket"; Key := mockS3Key;
                                   Body := Some "small message body" |})];
        uuids := uuids testWorld; minted := 1; messages := []; records := [] |}) /\
  reservedAttribute offloadedMessage = Some s3MessageBodyKeyAttribute /\
  settledAt {| settledAt := 0 + latency (sendMessageReply testQueue offloadedMessage);
               outcome := answer (sendMessageReply testQueue offloadedMessage) |} = 3.
Proof. vm_compute. done. Qed.

(** The async variant does what the claim says: it waits for the upload
    and only then dispatches the request to the queue; when the upload
    fails, the send fails with its error and the queue sees nothing.
    (X21: when the async variant offloads, the upload is dispatched at
    once and the request to the queue when the upload has succeeded.) *)
Lemma async_sendMessage_uploads_first (this : Part001.SQSExtended) params w :
  truthy (Part001.bucketName this) = true ->
  Part001.alwaysUseS3 this || isLarge params (Some (Part001.messageSizeThreshold this)) = true ->
  truthy (MessageBody params) = true ->
  reservedAttribute params = None ->
  uuids w (minted w) <> "" ->
  let key := uuids w (minted w) in
  let outgoing :=
    withMessageBody
      (withMessageAttributes params
         (addS3MessageKeyAttribute ("(" +:+ templated (Part001.bucketName this) +:+ ")" +:+ key)
            (Some (default ∅ (MessageAttributes params)))))
      (Some key) in
  let put := {| Bucket := Part001.bucketName this; Key := key; Body := MessageBody params |} in
  let storing := putObjectReply (Part001.s3 this) put in
  let sending := sendMessageReply (Part001.sqs this) outgoing in
  let uploaded := (clock w + latency storing)%nat in
  exists request, fst (Part001.sendMessage this params w) = Normal request /\
  match answer storing with
  | Rejected e =>
      outcome request = Rejected e /\
      log (snd (Part001.sendMessage this params w)) = log w ++ [(clock w, S3PutObject put)]
  | Fulfilled _ =>
      outcome request = answer sending /\
      settledAt request = (uploaded + latency sending)%nat /\
      log (snd (Part001.sendMessage this params w))
        = log w ++ [(clock w, S3PutObject put); (uploaded, SqsSendMessage outgoing)]
  end.
Proof.
  intros Hbucket Huse Hbody Hnone Hkey key outgoing put storing sending uploaded.
  unfold Part001.sendMessage, Part001._prepareSend, Part001._storeS3Content,
    sqs_sendMessage, s3_putObject, dispatch, async, await, settle, emit, v4, bind, ret, throw.
  cbv zeta. unfold reservedAttribute in Hnone.
  rewrite Hbucket, Huse, Hnone. cbn [negb orb s3Content messageBody].
  rewrite Hbody. cbn [negb orb].
  rewrite bool_decide_eq_false_2 by (by intros [? ?]).
  cbn [preparedS3MessageKey preparedSendParams preparedS3Content].
  change (default "" (Some (uuids w (minted w)))) with (uuids w (minted w)).
  rewrite (truthy_Some_ne _ Hkey), Hbody. cbn [andb].
  change (or_else None (Some (uuids w (minted w)))) with (Some (uuids w (minted w))).
  fold key. fold outgoing. fold put. fold storing.
  cbn [mint record clock setClock settledAt outcome log].
  destruct (answer storing) as [[] | e] eqn:Estoring.
  - fold sending.
    replace (Nat.max (clock w) (clock w + latency storing)) with uploaded
      by (unfold uploaded; lia).
    destruct (answer sending) eqn:Esending;
      (eexists; split; [reflexivity |]);
      cbn [mint record clock setClock settledAt outcome log fst snd];
      rewrite <- app_assoc; cbn [app];
      (split; [done |]); (split; [lia | done]).
  - eexists. split; [reflexivity |].
    cbn [mint record clock setClock settledAt outcome log fst snd]. done.
Qed.

(** On the failing input above the async variant leaves the queue alone. *)
Example async_sendMessage_upload_failure :
  let this := Part001.new_SQSExtended testQueue failingStore
                {| Part001.optBucketName := Some "test-bucket";
                   Part001.optAlwaysUseS3 := Some true;
                   Part001.optMessageSizeThreshold := None |} in
  Part001.sendMessage this smallMessage testWorld
  = (Normal {| settledAt := 5; outcome := Rejected (ServiceError "AccessDenied") |},
     {| clock := 0;
        log := [(0, S3PutObject {| Bucket := Some "test-bucket"; Key := mockS3Key;
                                   Body := Some "small message body" |})];
        uuids := uuids testWorld; minted := 1; messages := []; records := [] |}).
Proof. vm_compute. done. Qed.

End SendPipeline.

(** ** The delete pipeline *)

Section DeletePipeline.

Implicit Types (this : SQSExtended) (params : DeleteMessageRequest) (w : World).

Lemma occursAt_drop pat s a m :
  (a <= String.length s)%nat -> occursAt pat (drop a s) m -> occursAt pat s (a + m).
Proof.
  intros Ha [Hm Hstarts]. rewrite drop_length in Hm. split; [lia |].
  by rewrite drop_add.
Qed.

Lemma occursAt_length pat s n :
  occursAt pat s n -> (n + String.length pat <= String.length s)%nat.
Proof.
  intros [Hn [t Ht]%startsWith_inv].
  rewrite <- (take_drop s n), Ht, !string_length_app, take_length by done. lia.
Qed.

(** What goes to the queue carries no key marker. *)
Lemma getOriginReceiptHandle_no_key_marker receiptHandle n :
  ~ occursAt S3_MESSAGE_KEY_MARKER (getOriginReceiptHandle receiptHandle) n.
Proof.
  unfold getOriginReceiptHandle.
  destruct (0 <=? indexOf receiptHandle S3_MESSAGE_KEY_MARKER)%Z eqn:E.
  - destruct (lastIndexOfFrom_spec S3_MESSAGE_KEY_MARKER receiptHandle 0 ltac:(lia))
      as [[_ Hnone] | (k & Hk & Hocc & Hlast)].
    + apply indexOf_found in E as [m Hm]. by destruct (Hnone m).
    + unfold lastIndexOf. rewrite Hk. pose proof (occursAt_length _ _ _ Hocc) as Hlen.
      change (length S3_MESSAGE_KEY_MARKER) with (Z.of_nat 11).
      change (String.length S3_MESSAGE_KEY_MARKER) with 11%nat in Hlen.
      replace (0 + Z.of_nat k + Z.of_nat 11)%Z with (Z.of_nat (k + 11)) by lia.
      rewrite substringFrom_in_range by lia.
      intros Hn%occursAt_drop; [| lia]. apply (Hlast (k + 11 + n)%nat); [lia | done].
  - apply Z.leb_gt in E. intros Hn.
    assert (indexOf receiptHandle S3_MESSAGE_KEY_MARKER <> (-1)%Z) as Hne.
    { intros Habs. by destruct (proj1 (indexOf_absent _ _) Habs n). }
    unfold indexOf in *.
    destruct (indexOfFrom_spec S3_MESSAGE_KEY_MARKER receiptHandle 0)
      as [[H1 _] | (k & H1 & _)]; lia.
Qed.

(** When the key marker is present, what goes to the queue is shorter than
    the handle given: it is never the wrapped form. *)
Lemma getOriginReceiptHandle_shorter receiptHandle n :
  occursAt S3_MESSAGE_KEY_MARKER receiptHandle n ->
  (String.length (getOriginReceiptHandle receiptHandle) < String.length receiptHandle)%nat.
Proof.
  intros Hn. unfold getOriginReceiptHandle.
  assert ((0 <=? indexOf receiptHandle S3_MESSAGE_KEY_MARKER)%Z = true) as ->
    by (apply indexOf_found; eauto).
  destruct (lastIndexOfFrom_spec S3_MESSAGE_KEY_MARKER receiptHandle 0 ltac:(lia))
    as [[_ Hnone] | (k & Hk & Hocc & Hlast)]; [by destruct (Hnone n) |].
  unfold lastIndexOf. rewrite Hk. pose proof (occursAt_length _ _ _ Hocc) as Hlen.
  change (length S3_MESSAGE_KEY_MARKER) with (Z.of_nat 11).
  change (String.length S3_MESSAGE_KEY_MARKER) with 11%nat in Hlen.
  replace (0 + Z.of_nat k + Z.of_nat 11)%Z with (Z.of_nat (k + 11)) by lia.
  rewrite substringFrom_in_range by lia. rewrite drop_length. lia.
Qed.

(** When the key marker is present, what goes to the queue is what
    follows its last occurrence in the handle given. *)
Lemma getOriginReceiptHandle_after_last receiptHandle n :
  occursAt S3_MESSAGE_KEY_MARKER receiptHandle n ->
  exists before,
    receiptHandle
      = before +:+ S3_MESSAGE_KEY_MARKER +:+ getOriginReceiptHandle receiptHandle /\
    forall m, occursAt S3_MESSAGE_KEY_MARKER receiptHandle m -> (m <= String.length before)%nat.
Proof.
  intros Hn. unfold getOriginReceiptHandle.
  assert ((0 <=? indexOf receiptHandle S3_MESSAGE_KEY_MARKER)%Z = true) as ->
    by (apply indexOf_found; eauto).
  destruct (lastIndexOfFrom_spec S3_MESSAGE_KEY_MARKER receiptHandle 0 ltac:(lia))
    as [[_ Hnone] | (k & Hk & Hocc & Hlast)]; [by destruct (Hnone n) |].
  unfold lastIndexOf. rewrite Hk. pose proof (occursAt_length _ _ _ Hocc) as Hlen.
  change (length S3_MESSAGE_KEY_MARKER) with (Z.of_nat 11).
  change (String.length S3_MESSAGE_KEY_MARKER) with 11%nat in Hlen.
  replace (0 + Z.of_nat k + Z.of_nat 11)%Z with (Z.of_nat (k + 11)) by lia.
  rewrite substringFrom_in_range by lia.
  destruct Hocc as [Hle Hstarts]. apply startsWith_inv in Hstarts as [rest Hrest].
  exists (take k receiptHandle). split.
  - rewrite drop_add, Hrest.
    change 11%nat with (String.length S3_MESSAGE_KEY_MARKER).
    rewrite drop_length_app, <- Hrest. by rewrite take_drop.
  - intros m Hm. rewrite take_length by done.
    destruct (decide (m <= k)%nat) as [| Hgt]; [done |].
    destruct (Hlast m); [lia | done].
Qed.

(** When the key marker is absent, the handle goes to the queue as it is. *)
Lemma getOriginReceiptHandle_absent receiptHandle :
  (forall n, ~ occursAt S3_MESSAGE_KEY_MARKER receiptHandle n) ->
  getOriginReceiptHandle receiptHandle = receiptHandle.
Proof.
  intros Habsent. unfold getOriginReceiptHandle.
  by rewrite (proj2 (indexOf_absent _ _) Habsent).
Qed.

Lemma events_setClock t w : events (setClock t w) = events w.
Proof. reflexivity. Qed.

Lemma events_mint w : events (mint w) = events w.
Proof. reflexivity. Qed.

Ltac trace :=
  repeat (progress (cbn -[events record setClock mint Nat.max];
                    rewrite ?events_setClock, ?events_record, ?events_mint)).

Ltac run_delete :=
  unfold Index.deleteMessage, Index._deleteS3Content,
    wrapRequest, invokeFnBeforeRequest, sqs_deleteMessage, s3_deleteObject, dispatch,
    async, await, settle, emit, bind, ret, throw;
  cbv zeta.

(** Without a key, the delete goes to the queue and nowhere else. *)
Lemma deleteMessage_passes_through this params callback w :
  truthy (extractS3MessageKeyFromReceiptHandle (ReceiptHandle params)) = false ->
  Index.deleteMessage this params callback w =
    (Normal (TheQueueRequest
               {| settledAt := clock w + latency (deleteMessageReply (sqs this)
                                                    (deleteParams (Index._prepareDelete params)));
                  outcome := answer (deleteMessageReply (sqs this)
                                       (deleteParams (Index._prepareDelete params))) |}),
     record (clock w) (SqsDeleteMessage (deleteParams (Index._prepareDelete params))) w).
Proof.
  intros Hkey. run_delete. cbn [preparedDeleteKey Index._prepareDelete]. rewrite Hkey. done.
Qed.

(** With a key and no callback, the delete goes to the queue, and what is
    returned is the wrapped request: the object is deleted when (and only
    when) its send function is run. *)
Lemma deleteMessage_wraps this params w :
  truthy (extractS3MessageKeyFromReceiptHandle (ReceiptHandle params)) = true ->
  let prepared := Index._prepareDelete params in
  let request :=
    {| settledAt := clock w + latency (deleteMessageReply (sqs this) (deleteParams prepared));
       outcome := answer (deleteMessageReply (sqs this) (deleteParams prepared)) |} in
  let sendFn :=
    invokeFnBeforeRequest request
      (Index._deleteS3Content this (preparedBucketName prepared)
         (default "" (preparedDeleteKey prepared))) in
  Index.deleteMessage this params None w =
    (Normal (TheWrappedRequest {| send := sendFn; promise := sendFn |}),
     record (clock w) (SqsDeleteMessage (deleteParams prepared)) w).
Proof.
  intros Hkey prepared request sendFn. run_delete.
  fold prepared. cbn [preparedDeleteKey Index._prepareDelete] in *.
  unfold prepared at 1. cbn [preparedDeleteKey Index._prepareDelete]. rewrite Hkey. done.
Qed.

(** Running the send function of the wrapped request: with a bucket, the
    object is deleted. *)
Lemma delete_sendFn_deletes {R} this (request : Promise R) bucket key callback w :
  truthy bucket = true ->
  exists p,
    invokeFnBeforeRequest request (Index._deleteS3Content this bucket key) callback w
      = (Normal p, snd (invokeFnBeforeRequest request
                          (Index._deleteS3Content this bucket key) callback w)) /\
    objectDeletes (events (snd (invokeFnBeforeRequest request
                                  (Index._deleteS3Content this bucket key) callback w)))
      = objectDeletes (events w) ++ [{| Bucket := bucket; Key := key; Body := None |}].
Proof.
  intros Hbucket. run_delete. rewrite Hbucket. cbn [negb].
  set (deleting := deleteObjectReply (s3 this) _).
  destruct (answer deleting) as [[] | e], (outcome request) as [r | e'], callback as [cb |];
    (eexists; split; [reflexivity |]); trace; unfold objectDeletes;
    rewrite ?omap_app; cbn; rewrite ?app_nil_r; done.
Qed.


Lemma queueDeletes_record t ev w :
  queueDeletes (events (record t ev w))
  = queueDeletes (events w) ++ match ev with SqsDeleteMessage p => [p] | _ => [] end.
Proof.
  rewrite events_record. unfold queueDeletes. rewrite omap_app. by destruct ev.
Qed.

Lemma objectDeletes_record t ev w :
  objectDeletes (events (record t ev w))
  = objectDeletes (events w) ++ match ev with S3DeleteObject p => [p] | _ => [] end.
Proof.
  rewrite events_record. unfold objectDeletes. rewrite omap_app. by destruct ev.
Qed.

Lemma invokeFnBeforeRequest_returns {R} (request : Promise R) fn callback w :
  exists p, invokeFnBeforeRequest request fn callback w
            = (Normal p, snd (invokeFnBeforeRequest request fn callback w)).
Proof.
  unfold invokeFnBeforeRequest, async.
  destruct (bind _ _ w) as [c w']. eexists. reflexivity.
Qed.

(** With a key and a callback, [deleteMessage] runs the send function
    itself, once. *)
Lemma deleteMessage_with_callback this params cb w :
  truthy (extractS3MessageKeyFromReceiptHandle (ReceiptHandle params)) = true ->
  let prepared := Index._prepareDelete params in
  let request :=
    {| settledAt := clock w + latency (deleteMessageReply (sqs this) (deleteParams prepared));
       outcome := answer (deleteMessageReply (sqs this) (deleteParams prepared)) |} in
  let sendFn :=
    invokeFnBeforeRequest request
      (Index._deleteS3Content this (preparedBucketName prepared)
         (default "" (preparedDeleteKey prepared))) in
  Index.deleteMessage this params (Some cb) w =
    (Normal (TheWrappedRequest {| send := sendFn; promise := sendFn |}),
     snd (sendFn (Some cb) (record (clock w) (SqsDeleteMessage (deleteParams prepared)) w))).
Proof.
  intros Hkey prepared request sendFn.
  unfold Index.deleteMessage, wrapRequest, sqs_deleteMessage, dispatch. cbv zeta.
  fold prepared. replace (truthy (preparedDeleteKey prepared)) with true by done.
  cbn [negb]. unfold emit, bind, ret. cbn [record clock]. fold request. fold sendFn.
  destruct (invokeFnBeforeRequest_returns request
              (Index._deleteS3Content this (preparedBucketName prepared)
                 (default "" (preparedDeleteKey prepared)))
              (Some cb) (record (clock w) (SqsDeleteMessage (deleteParams prepared)) w))
    as [p Hp].
  fold sendFn in Hp. rewrite Hp. done.
Qed.

(** C4, as amended.  For every deleteMessage call the queue delete
    primitive receives the handle getOriginReceiptHandle makes of the one
    given: it contains no key marker, and when the handle given contains
    the key marker it is what follows the last one (the handle given is
    some text, the marker where it occurs last, and the handle sent),
    never the handle given; when the handle given contains no key marker
    it is sent as it is.  When the key and the bucket extracted from the handle are both
    non-empty, the send function of the wrapped request asks the object
    store to delete that bucket and key; deleteMessage runs it itself when
    it is given a callback.  When no key marker is present, no
    object-store deletion is attempted and the call returns the request
    of the queue, without error. *)
Theorem deleteMessage_unwraps_receipt_handle this params callback w :
  let handle := ReceiptHandle params in
  let key := extractS3MessageKeyFromReceiptHandle handle in
  let bucket := extractBucketNameFromReceiptHandle handle in
  let object := {| Bucket := bucket; Key := default "" key; Body := None |} in
  let after := snd (Index.deleteMessage this params callback w) in
  ((exists returned, fst (Index.deleteMessage this params callback w) = Normal returned) /\
   queueDeletes (events after)
     = queueDeletes (events w)
       ++ [{| delQueueUrl := delQueueUrl params;
              ReceiptHandle := getOriginReceiptHandle handle |}] /\
   (forall n, ~ occursAt S3_MESSAGE_KEY_MARKER (getOriginReceiptHandle handle) n) /\
   ((exists n, occursAt S3_MESSAGE_KEY_MARKER handle n) ->
    getOriginReceiptHandle handle <> handle) /\
   (forall n, occursAt S3_MESSAGE_KEY_MARKER handle n ->
      exists before,
        handle = before +:+ S3_MESSAGE_KEY_MARKER +:+ getOriginReceiptHandle handle /\
        forall m, occursAt S3_MESSAGE_KEY_MARKER handle m -> (m <= String.length before)%nat) /\
   ((forall n, ~ occursAt S3_MESSAGE_KEY_MARKER handle n) ->
    getOriginReceiptHandle handle = handle)) /\
  (truthy key = true -> truthy bucket = true ->
   (exists wrapped,
      fst (Index.deleteMessage this params callback w) = Normal (TheWrappedRequest wrapped) /\
      send wrapped = promise wrapped /\
      forall cb w1,
        objectDeletes (events (snd (promise wrapped cb w1)))
        = objectDeletes (events w1) ++ [object]) /\
   (is_Some callback -> objectDeletes (events after) = objectDeletes (events w) ++ [object])) /\
  ((forall n, ~ occursAt S3_MESSAGE_KEY_MARKER handle n) ->
   (exists request,
      fst (Index.deleteMessage this params callback w) = Normal (TheQueueRequest request)) /\
   objectDeletes (events after) = objectDeletes (events w)).
Proof.
  intros handle key bucket object after.
  destruct (truthy key) eqn:Hkey.
  - (* the wrapped request *)
    assert (Hfn : forall cb w1,
              objectDeletes (events (snd (invokeFnBeforeRequest
                 {| settledAt := clock w + latency (deleteMessageReply (sqs this)
                                     (deleteParams (Index._prepareDelete params)));
                    outcome := answer (deleteMessageReply (sqs this)
                                     (deleteParams (Index._prepareDelete params))) |}
                 (Index._deleteS3Content this bucket (default "" key)) cb w1)))
              = objectDeletes (events w1)
                ++ match truthy bucket with true => [object] | false => [] end).
    { intros cb w1. destruct (truthy bucket) eqn:Hbucket.
      - by destruct (delete_sendFn_deletes this
                       {| settledAt := clock w + latency (deleteMessageReply (sqs this)
                                           (deleteParams (Index._prepareDelete params)));
                          outcome := answer (deleteMessageReply (sqs this)
                                           (deleteParams (Index._prepareDelete params))) |}
                       bucket (default "" key) cb w1 Hbucket) as (p & _ & H).
      - run_delete. rewrite Hbucket. trace. by rewrite app_nil_r. }
    assert (Hqueue : forall cb w1,
              queueDeletes (events (snd (invokeFnBeforeRequest
                 {| settledAt := clock w + latency (deleteMessageReply (sqs this)
                                     (deleteParams (Index._prepareDelete params)));
                    outcome := answer (deleteMessageReply (sqs this)
                                     (deleteParams (Index._prepareDelete params))) |}
                 (Index._deleteS3Content this bucket (default "" key)) cb w1)))
              = queueDeletes (events w1)).
    { intros cb w1. run_delete.
      destruct (truthy bucket); cbn [negb]; [| done].
      set (deleting := deleteObjectReply (s3 this) _).
      destruct (answer deleting) as [[] | e],
        (answer (deleteMessageReply (sqs this) (deleteParams (Index._prepareDelete params))))
        as [r | e'], cb as [cb |];
        trace; unfold queueDeletes; rewrite ?omap_app; cbn; by rewrite ?app_nil_r. }
    assert (Hafter : exists wrapped,
              fst (Index.deleteMessage this params callback w)
                = Normal (TheWrappedRequest wrapped) /\
              send wrapped = promise wrapped /\
              (forall cb w1,
                 objectDeletes (events (snd (promise wrapped cb w1)))
                 = objectDeletes (events w1)
                   ++ match truthy bucket with true => [object] | false => [] end) /\
              queueDeletes (events after)
                = queueDeletes (events w) ++ [deleteParams (Index._prepareDelete params)] /\
              objectDeletes (events after)
                = objectDeletes (events w)
                  ++ match callback, truthy bucket with
                     | Some _, true => [object]
                     | _, _ => []
                     end).
    { unfold after. destruct callback as [cb |].
      - rewrite (deleteMessage_with_callback this params cb w Hkey). cbn [fst snd].
        eexists. split; [reflexivity |]. split; [reflexivity |]. cbn [promise].
        split; [apply Hfn |]. split.
        + rewrite Hqueue, queueDeletes_record. done.
        + rewrite Hfn, objectDeletes_record. cbn [app]. rewrite app_nil_r.
          by destruct (truthy bucket).
      - rewrite (deleteMessage_wraps this params w Hkey). cbn [fst snd].
        eexists. split; [reflexivity |]. split; [reflexivity |]. cbn [promise].
        split; [apply Hfn |]. rewrite queueDeletes_record, objectDeletes_record.
        cbn [app]. by rewrite !app_nil_r. }
    destruct Hafter as (wrapped & Hret & Hsame & Hrun & Hq & Ho).
    split; [| split].
    + split; [eauto |]. split; [exact Hq |].
      split; [apply getOriginReceiptHandle_no_key_marker |].
      split; [| split; [intros n Hn; by apply (getOriginReceiptHandle_after_last handle n)
                       | apply getOriginReceiptHandle_absent]].
      intros [n Hn] Heq. pose proof (getOriginReceiptHandle_shorter handle n Hn) as Hlt.
      rewrite Heq in Hlt. lia.
    + intros _ Hbucket. rewrite Hbucket in Hrun, Ho. split; [by exists wrapped |].
      intros [cb ->]. exact Ho.
    + intros Habsent. exfalso. apply indexOf_absent in Habsent.
      unfold key, extractS3MessageKeyFromReceiptHandle in Hkey.
      rewrite Habsent in Hkey. done.
  - (* straight to the queue *)
    pose proof (deleteMessage_passes_through this params callback w Hkey) as Hdelete.
    unfold after. rewrite Hdelete. cbn [fst snd].
    rewrite queueDeletes_record, objectDeletes_record. cbn [app]. rewrite app_nil_r.
    split; [| split].
    + split; [eauto |]. split; [done |].
      split; [apply getOriginReceiptHandle_no_key_marker |].
      split; [| split; [intros n Hn; by apply (getOriginReceiptHandle_after_last handle n)
                       | apply getOriginReceiptHandle_absent]].
      intros [n Hn] Heq. pose proof (getOriginReceiptHandle_shorter handle n Hn) as Hlt.
      rewrite Heq in Hlt. lia.
    + done.
    + intros _. split; [eauto | done].
Qed.


Lemma deleteMessage_unwraps_receipt_handle_witness :
  let after := snd (Index.deleteMessage (new_SQSExtended testQueue testStore testOptions)
                      wrappedDelete (Some (Callback "done")) testWorld) in
  queueDeletes (events after)
    = [{| delQueueUrl := Some "test-queue"; ReceiptHandle := "receipthandle" |}] /\
  objectDeletes (events after)
    = [{| Bucket := Some "test-bucket"; Key := "8765-4321"; Body := None |}].
Proof.
  destruct (deleteMessage_unwraps_receipt_handle
              (new_SQSExtended testQueue testStore testOptions)
              wrappedDelete (Some (Callback "done")) testWorld)
    as ((_ & Hqueue & _) & Hstore & _).
  split; [exact Hqueue |].
  apply Hstore; [reflexivity | reflexivity | eexists; reflexivity].
Defined.

(** C4, as stated, fails: the handle below contains the key marker (around
    the key 8765-4321) and no bucket marker, deleteMessage is given a
    callback and so runs the deletion step itself, and the object store
    is asked for nothing. *)
Lemma deleteMessage_unwraps_receipt_handle_counterexample :
  let params := {| delQueueUrl := Some "test-queue";
                   ReceiptHandle := "-..s3Key..-8765-4321-..s3Key..-receipthandle" |} in
  let after := snd (Index.deleteMessage (new_SQSExtended testQueue testStore testOptions)
                      params (Some (Callback "done")) testWorld) in
  includes (ReceiptHandle params) S3_MESSAGE_KEY_MARKER = true /\
  extractS3MessageKeyFromReceiptHandle (ReceiptHandle params) = Some "8765-4321" /\
  extractBucketNameFromReceiptHandle (ReceiptHandle params) = None /\
  events after
    = [SqsDeleteMessage {| delQueueUrl := Some "test-queue"; ReceiptHandle := "receipthandle" |}] /\
  objectDeletes (events after) = [].
Proof. vm_compute. done. Qed.

(** C10, as amended.  When deleteMessage is called without a callback on a
    receipt handle from which a non-empty key is extracted, the request to
    delete goes to the queue at once, and what is returned is the wrapped
    request, on which no object-store deletion has been performed: the
    object is deleted by the send function of the wrapper (promise and
    send are the same function), when the caller runs it, provided the
    bucket extracted is non-empty. *)
Theorem deleteMessage_without_callback_defers this params w :
  let handle := ReceiptHandle params in
  let key := extractS3MessageKeyFromReceiptHandle handle in
  let bucket := extractBucketNameFromReceiptHandle handle in
  let after := snd (Index.deleteMessage this params None w) in
  truthy key = true ->
  exists wrapped,
    fst (Index.deleteMessage this params None w) = Normal (TheWrappedRequest wrapped) /\
    events after
      = events w ++ [SqsDeleteMessage {| delQueueUrl := delQueueUrl params;
                                         ReceiptHandle := getOriginReceiptHandle handle |}] /\
    objectDeletes (events after) = objectDeletes (events w) /\
    send wrapped = promise wrapped /\
    (truthy bucket = true ->
     forall callback w1,
       objectDeletes (events (snd (promise wrapped callback w1)))
       = objectDeletes (events w1)
         ++ [{| Bucket := bucket; Key := default "" key; Body := None |}]).
Proof.
  intros handle key bucket after Hkey.
  unfold after. rewrite (deleteMessage_wraps this params w Hkey). cbn [fst snd].
  eexists. split; [reflexivity |]. rewrite objectDeletes_record, events_record.
  cbn [app]. rewrite app_nil_r. split; [done |]. split; [done |]. split; [done |].
  intros Hbucket callback w1. cbn [promise].
  by destruct (delete_sendFn_deletes this
                 {| settledAt := clock w + latency (deleteMessageReply (sqs this)
                                     (deleteParams (Index._prepareDelete params)));
                    outcome := answer (deleteMessageReply (sqs this)
                                     (deleteParams (Index._prepareDelete params))) |}
                 bucket (default "" key) callback w1 Hbucket) as (p & _ & H).
Qed.

Lemma deleteMessage_without_callback_defers_witness :
  exists wrapped,
    fst (Index.deleteMessage (new_SQSExtended testQueue testStore testOptions)
           wrappedDelete None testWorld) = Normal (TheWrappedRequest wrapped) /\
    events (snd (Index.deleteMessage (new_SQSExtended testQueue testStore testOptions)
                   wrappedDelete None testWorld))
      = [SqsDeleteMessage {| delQueueUrl := Some "test-queue";
                             ReceiptHandle := "receipthandle" |}] /\
    objectDeletes (events (snd (promise wrapped None testWorld)))
      = [{| Bucket := Some "test-bucket"; Key := "8765-4321"; Body := None |}].
Proof.
  destruct (deleteMessage_without_callback_defers
              (new_SQSExtended testQueue testStore testOptions) wrappedDelete testWorld)
    as (wrapped & Hret & Hevents & _ & _ & Hrun); [reflexivity |].
  exists wrapped. split; [exact Hret |]. split; [exact Hevents |].
  apply (Hrun eq_refl None testWorld).
Defined.

(** C10, as stated, fails: the handle below contains the key marker (twice,
    with nothing in between), the key extracted is empty, and without a
    callback deleteMessage returns the request of the queue itself, not a
    wrapper. *)
Lemma deleteMessage_without_callback_defers_counterexample :
  let params := {| delQueueUrl := Some "test-queue";
                   ReceiptHandle := "-..s3Key..--..s3Key..-receipthandle" |} in
  includes (ReceiptHandle params) S3_MESSAGE_KEY_MARKER = true /\
  extractS3MessageKeyFromReceiptHandle (ReceiptHandle params) = Some "" /\
  fst (Index.deleteMessage (new_SQSExtended testQueue testStore testOptions)
         params None testWorld)
  = Normal (TheQueueRequest {| settledAt := 2; outcome := Fulfilled Build_DeleteMessageResult |}).
Proof. vm_compute. done. Qed.

(** The async variant deletes the object itself, after the queue has
    answered. *)
Example async_deleteMessage_deletes_object :
  log (snd (Part001.deleteMessage
              (Part001.new_SQSExtended testQueue testStore
                 {| Part001.optBucketName := Some "test-bucket";
                    Part001.optAlwaysUseS3 := None;
                    Part001.optMessageSizeThreshold := None |})
              wrappedDelete testWorld))
  = [(0, SqsDeleteMessage {| delQueueUrl := Some "test-queue";
                             ReceiptHandle := "receipthandle" |});
     (2, S3DeleteObject {| Bucket := Some "test-bucket"; Key := "8765-4321"; Body := None |})].
Proof. vm_compute. done. Qed.

End DeletePipeline.

(** ** The receive pipeline *)

Section ReceivePipeline.

Implicit Types (this : SQSExtended) (w : World) (m : Message.t) (r : SQSRecord).

Lemma world_eq w1 w2 :
  clock w1 = clock w2 -> log w1 = log w2 -> uuids w1 = uuids w2 -> minted w1 = minted w2 ->
  messages w1 = messages w2 -> records w1 = records w2 -> w1 = w2.
Proof. destruct w1, w2. simpl. by intros -> -> -> -> -> ->. Qed.

Lemma promise_eq {A} (p q : Promise A) :
  settledAt p = settledAt q -> outcome p = outcome q -> p = q.
Proof. destruct p, q. simpl. by intros -> ->. Qed.

Lemma result_eq {A} (a b : A) w1 w2 :
  a = b -> w1 = w2 -> (Normal a, w1) = (Normal b, w2).
Proof. by intros -> ->. Qed.

(** One message of the batch: the async function reads and writes its
    own message only, and its promise is that of the message taken alone. *)
Lemma processMessage_async this i m w :
  messages w !! i = Some m ->
  async (Index.processMessage this i) w =
    (Normal (processing (clock w) (processedMessage this m)),
     {| clock := clock w;
        log := log w ++ fetchLog (clock w) [referenceToken m];
        uuids := uuids w; minted := minted w;
        messages := <[i := settled m (processedMessage this m)]> (messages w);
        records := records w |}).
Proof.
  intros Hm.
  assert (Hi : (i < List.length (messages w))%nat) by (by eapply lookup_lt_Some).
  assert (Hlog : fetchLog (clock w) [referenceToken m]
                 = match fetchFor (referenceToken m) with
                   | Some object => [(clock w, S3GetObject object)]
                   | None => []
                   end).
  { unfold fetchLog. cbn. by destruct (fetchFor (referenceToken m)). }
  rewrite Hlog. clear Hlog.
  unfold Index.processMessage, Index._getS3Content, processedMessage, fetchFor,
    processing, settled.
  unfold async at 1, bind at 1, readMessage at 1. rewrite Hm.
  change (match Message.MessageAttributes m with
          | Some attrs => match attrs !! S3_MESSAGE_BODY_KEY with
                          | Some attr => StringValue attr
                          | None => None
                          end
          | None => None
          end) with (referenceToken m).
  unfold bind at 1, lift at 1.
  destruct (getS3MessageKeyAndBucket (referenceToken m)) as [reference | e].
  - destruct (truthy (refS3MessageKey reference)).
    + unfold async, await, settle, s3_getObject, dispatch, emit, bind, ret, throw,
        readMessage, writeMessage.
      cbn [record clock log setClock messages settledAt outcome fst snd].
      set (fetching := getObjectReply (s3 this) _).
      cbn [answer latency Bucket Key].
      destruct (answer fetching) as [content | e];
        cbn [record clock log setClock messages settledAt outcome fst snd].
      * rewrite Hm.
        cbn [record clock log setClock messages settledAt outcome fst snd].
        rewrite list_lookup_insert_eq by done.
        cbn [record clock log setClock messages settledAt outcome fst snd].
        rewrite list_insert_insert_eq.
        apply result_eq; [apply promise_eq; cbn; [lia | done] |].
        apply world_eq; cbn; done.
      * rewrite list_insert_id by done.
        apply result_eq; [apply promise_eq; cbn; [lia | done] |].
        apply world_eq; cbn; done.
    + unfold bind, ret, readMessage, writeMessage. cbn [messages]. rewrite Hm.
      cbn [answer latency].
      apply result_eq; [apply promise_eq; cbn; [lia | done] |].
      apply world_eq; cbn; try done. by rewrite app_nil_r.
  - cbn [answer latency].
    rewrite list_insert_id by done.
    apply result_eq; [apply promise_eq; cbn; [lia | done] |].
    apply world_eq; cbn; try done. by rewrite app_nil_r.
Qed.


Lemma fetchLog_cons t token tokens :
  fetchLog t (token :: tokens) = fetchLog t [token] ++ fetchLog t tokens.
Proof. unfold fetchLog. cbn. by destruct (fetchFor token). Qed.

(** The whole batch: every message is processed as if it were alone. *)
Lemma processMessages_batch this pre todo w :
  messages w = pre ++ todo ->
  mapM (fun message => async (Index.processMessage this message))
    (seq (List.length pre) (List.length todo)) w =
    (Normal (processing (clock w) <$> (processedMessage this <$> todo)),
     {| clock := clock w;
        log := log w ++ fetchLog (clock w) (referenceToken <$> todo);
        uuids := uuids w; minted := minted w;
        messages := pre ++ ((fun m => settled m (processedMessage this m)) <$> todo);
        records := records w |}).
Proof.
  revert pre w. induction todo as [|m todo IH]; intros pre w Hw.
  - rewrite app_nil_r in Hw. cbn. unfold ret. apply result_eq; [done |].
    apply world_eq; cbn; rewrite ?app_nil_r; done.
  - cbn [List.length seq mapM]. unfold bind at 1.
    rewrite (processMessage_async this (List.length pre) m w)
      by (rewrite Hw; by apply list_lookup_middle).
    set (w1 := {| clock := clock w; log := _; messages := _ |}).
    assert (Hw1 : messages w1 = (pre ++ [settled m (processedMessage this m)]) ++ todo).
    { unfold w1. cbn [messages]. rewrite Hw.
      rewrite insert_app_r_alt, Nat.sub_diag by lia. cbn. by rewrite <- app_assoc. }
    specialize (IH _ w1 Hw1). rewrite length_app, Nat.add_1_r in IH.
    unfold bind at 1. rewrite IH. unfold ret.
    apply result_eq; [done |].
    apply world_eq; unfold w1; cbn [clock log uuids minted messages records]; try done.
    + by rewrite fmap_cons,
        (fetchLog_cons _ (referenceToken m) (referenceToken <$> todo)), app_assoc.
    + by rewrite fmap_cons, <- app_assoc.
Qed.

(** [Promise.all]: none rejected, or the earliest rejection. *)
Lemma firstRejection_None {A} (ps : list (Promise A)) :
  firstRejection ps = None <-> forall p, p ∈ ps -> exists a, outcome p = Fulfilled a.
Proof.
  induction ps as [|p ps IH]; cbn [firstRejection].
  - split; [| done]. intros _ p Hp. by apply elem_of_nil in Hp.
  - destruct (outcome p) as [a | e] eqn:E; cbv beta iota.
    + rewrite IH. split.
      * intros H q [-> | Hq]%elem_of_cons; eauto.
      * intros H q Hq. apply H. by right.
    + split.
      * intros H. exfalso.
        destruct (firstRejection ps) as [[t e'] |]; [destruct (t <? settledAt p)%nat |];
          discriminate H.
      * intros H. destruct (H p) as [a Ha]; [by left | congruence].
Qed.

Lemma firstRejection_Some {A} (ps : list (Promise A)) t e :
  firstRejection ps = Some (t, e) ->
  exists p, p ∈ ps /\ outcome p = Rejected e /\ settledAt p = t /\
            forall q e', q ∈ ps -> outcome q = Rejected e' -> (t <= settledAt q)%nat.
Proof.
  revert t e. induction ps as [|p ps IH]; intros t e; cbn [firstRejection]; [done |].
  destruct (outcome p) as [a | e0] eqn:E; cbv beta iota.
  - intros (q & Hq & Ho & Ht & Hmin)%IH. exists q. split; [by right |].
    split; [done |]. split; [done |].
    intros q' e' [-> | Hq']%elem_of_cons Hq'o; [congruence | eauto].
  - destruct (firstRejection ps) as [[t' e'] |] eqn:Elater.
    + destruct (IH _ _ eq_refl) as (q & Hq & Ho & Ht & Hmin).
      destruct (Nat.ltb_spec t' (settledAt p)).
      * intros [= <- <-]. exists q. split; [by right |]. split; [done |]. split; [done |].
        intros q' e'' [-> | Hq']%elem_of_cons Hq'o; [lia | eauto].
      * intros [= <- <-]. exists p. split; [by left |]. split; [done |]. split; [done |].
        intros q' e'' [-> | Hq']%elem_of_cons Hq'o; [lia |].
        specialize (Hmin _ _ Hq' Hq'o). lia.
    + intros [= <- <-]. exists p. split; [by left |]. split; [done |]. split; [done |].
      intros q' e'' [-> | Hq']%elem_of_cons Hq'o; [lia |].
      destruct (proj1 (firstRejection_None ps) Elater _ Hq') as [a Ha]. congruence.
Qed.


(** [receiveMessage] without a callback, when the queue answers with a
    batch: each message of the batch becomes what it becomes taken alone,
    every fetch is dispatched when the batch arrives, and the promise of
    the call is that of [Promise.all] over the messages. *)
Lemma receiveMessage_batch this params w msgs :
  let modifiedParams :=
    {| rcvQueueUrl := rcvQueueUrl params;
       MessageAttributeNames :=
         Some (default [] (MessageAttributeNames params) ++ [RESERVED_ATTRIBUTE_NAME]) |} in
  let reply := receiveMessageReply (sqs this) modifiedParams in
  let received := (clock w + latency reply)%nat in
  let promises := processing received <$> (processedMessage this <$> msgs) in
  let response := {| Messages := Some (seq (List.length (messages w)) (List.length msgs)) |} in
  answer reply = Fulfilled (Some msgs) ->
  exists p,
    Index.receiveMessage this params None w =
      (Normal p,
       {| clock := clock w;
          log := log w ++ (clock w, SqsReceiveMessage modifiedParams)
                       :: fetchLog received (referenceToken <$> msgs);
          uuids := uuids w; minted := minted w;
          messages := messages w ++ ((fun m => settled m (processedMessage this m)) <$> msgs);
          records := records w |}) /\
    match firstRejection promises with
    | Some (t, e) => outcome p = Rejected e /\ settledAt p = t
    | None => outcome p = Fulfilled (Some response)
    end.
Proof.
  intros modifiedParams reply received promises response Hreply.
  unfold Index.receiveMessage, wrapRequest, invokeFnAfterRequest, Index._processReceive,
    sqs_receiveMessage.
  fold modifiedParams. fold reply.
  unfold bind at 1. unfold bind at 1, emit at 1. cbn [record clock log messages].
  rewrite Hreply. unfold bind at 1, ret at 1. unfold bind at 1, ret at 1.
  cbn [promise]. unfold async at 1, bind at 1, settle at 1.
  cbn [settledAt outcome clock setClock default Messages].
  unfold bind at 1, tryCatch at 1, bind at 1.
  set (w2 := setClock _ _).
  assert (Hclock : clock w2 = received) by (unfold w2, received; cbn; lia).
  pose proof (processMessages_batch this (messages w) msgs w2 eq_refl) as Hbatch.
  unfold id. rewrite Hbatch. rewrite Hclock.
  unfold promiseAll at 1, settle at 1. cbn [clock log messages].
  fold promises.
  destruct (firstRejection promises) as [[t e] |] eqn:Efirst.
  - eexists. split.
    + unfold throw. cbn [setClock clock log messages uuids minted records fst snd].
      apply result_eq; [reflexivity |].
      apply world_eq; unfold w2; cbn [setClock record clock log messages uuids minted records];
        try done.
      by rewrite <- app_assoc.
    + cbn [outcome settledAt setClock clock]. split; [done |].
      apply firstRejection_Some in Efirst as (q & Hq & _ & Ht & _).
      unfold promises in Hq. rewrite <- list_fmap_compose in Hq.
      apply list_elem_of_fmap in Hq as (m & -> & _). cbn in Ht. lia.
  - eexists. split.
    + unfold ret. cbn [setClock clock log messages uuids minted records fst snd].
      apply result_eq; [reflexivity |].
      apply world_eq; unfold w2; cbn [setClock record clock log messages uuids minted records];
        try done.
      by rewrite <- app_assoc.
    + done.
Qed.

(** One record of an event, and the whole event. *)
Lemma checkRecord_async this i r w :
  records w !! i = Some r ->
  async (Index.checkRecord this i) w =
    (Normal (processing (clock w) (processedRecord this r)),
     {| clock := clock w;
        log := log w ++ fetchLog (clock w) [recordToken r];
        uuids := uuids w; minted := minted w;
        messages := messages w;
        records := <[i := settled r (processedRecord this r)]> (records w) |}).
Proof.
  intros Hr.
  assert (Hi : (i < List.length (records w))%nat) by (by eapply lookup_lt_Some).
  assert (Hlog : fetchLog (clock w) [recordToken r]
                 = match fetchFor (recordToken r) with
                   | Some object => [(clock w, S3GetObject object)]
                   | None => []
                   end).
  { unfold fetchLog. cbn. by destruct (fetchFor (recordToken r)). }
  rewrite Hlog. clear Hlog.
  unfold Index.checkRecord, Index._getS3Content, processedRecord, fetchFor,
    processing, settled.
  unfold async at 1, bind at 1, readRecord at 1. rewrite Hr.
  change (match messageAttributes r with
          | Some attrs => match attrs !! S3_MESSAGE_BODY_KEY with
                          | Some attr => stringValue attr
                          | None => None
                          end
          | None => None
          end) with (recordToken r).
  unfold bind at 1, lift at 1.
  destruct (getS3MessageKeyAndBucket (recordToken r)) as [reference | e].
  - destruct (truthy (refS3MessageKey reference)).
    + unfold async, await, settle, s3_getObject, dispatch, emit, bind, ret, throw,
        readRecord, writeRecord.
      cbn [record clock log setClock records settledAt outcome fst snd].
      set (fetching := getObjectReply (s3 this) _).
      cbn [answer latency Bucket Key].
      destruct (answer fetching) as [content | e];
        cbn [record clock log setClock records settledAt outcome fst snd].
      * rewrite Hr.
        apply result_eq; [apply promise_eq; cbn; [lia | done] |].
        apply world_eq; cbn; done.
      * rewrite list_insert_id by done.
        apply result_eq; [apply promise_eq; cbn; [lia | done] |].
        apply world_eq; cbn; done.
    + unfold ret. cbn [answer latency]. rewrite list_insert_id by done.
      apply result_eq; [apply promise_eq; cbn; [lia | done] |].
      apply world_eq; cbn; try done. by rewrite app_nil_r.
  - cbn [answer latency].
    rewrite list_insert_id by done.
    apply result_eq; [apply promise_eq; cbn; [lia | done] |].
    apply world_eq; cbn; try done. by rewrite app_nil_r.
Qed.

Lemma checkRecords_batch this pre todo w :
  records w = pre ++ todo ->
  mapM (fun record => async (Index.checkRecord this record))
    (seq (List.length pre) (List.length todo)) w =
    (Normal (processing (clock w) <$> (processedRecord this <$> todo)),
     {| clock := clock w;
        log := log w ++ fetchLog (clock w) (recordToken <$> todo);
        uuids := uuids w; minted := minted w;
        messages := messages w;
        records := pre ++ ((fun r => settled r (processedRecord this r)) <$> todo) |}).
Proof.
  revert pre w. induction todo as [|r todo IH]; intros pre w Hw.
  - rewrite app_nil_r in Hw. cbn. unfold ret. apply result_eq; [done |].
    apply world_eq; cbn; rewrite ?app_nil_r; done.
  - cbn [List.length seq mapM]. unfold bind at 1.
    rewrite (checkRecord_async this (List.length pre) r w)
      by (rewrite Hw; by apply list_lookup_middle).
    set (w1 := {| clock := clock w; log := _; records := _ |}).
    assert (Hw1 : records w1 = (pre ++ [settled r (processedRecord this r)]) ++ todo).
    { unfold w1. cbn [records]. rewrite Hw.
      rewrite insert_app_r_alt, Nat.sub_diag by lia. cbn. by rewrite <- app_assoc. }
    specialize (IH _ w1 Hw1). rewrite length_app, Nat.add_1_r in IH.
    unfold bind at 1. rewrite IH. unfold ret.
    apply result_eq; [done |].
    apply world_eq; unfold w1; cbn [clock log uuids minted messages records]; try done.
    + by rewrite fmap_cons,
        (fetchLog_cons _ (recordToken r) (recordToken <$> todo)), app_assoc.
    + by rewrite fmap_cons, <- app_assoc.
Qed.

(** [checkEvent] on an event whose records are the record objects
    [batch], after the objects [pre] of the world. *)
Lemma checkEvent_batch this event pre batch w :
  records w = pre ++ batch ->
  Records event = seq (List.length pre) (List.length batch) ->
  let promises := processing (clock w) <$> (processedRecord this <$> batch) in
  exists p,
    Index.checkEvent this event w =
      (Normal p,
       {| clock := clock w;
          log := log w ++ fetchLog (clock w) (recordToken <$> batch);
          uuids := uuids w; minted := minted w;
          messages := messages w;
          records := pre ++ ((fun r => settled r (processedRecord this r)) <$> batch) |}) /\
    match firstRejection promises with
    | Some (t, e) => outcome p = Rejected e /\ settledAt p = t
    | None => exists done, outcome p = Fulfilled done
    end.
Proof.
  intros Hw Hevent promises. unfold Index.checkEvent. rewrite Hevent.
  unfold bind at 1. rewrite (checkRecords_batch this pre batch w Hw).
  unfold promiseAll. cbn [clock]. fold promises.
  destruct (firstRejection promises) as [[t e] |] eqn:Efirst.
  - eexists. split; [reflexivity |]. cbn [outcome settledAt]. split; [done |].
    apply firstRejection_Some in Efirst as (q & Hq & _ & Ht & _).
    unfold promises in Hq. rewrite <- list_fmap_compose in Hq.
    apply list_elem_of_fmap in Hq as (r & -> & _). cbn in Ht. lia.
  - eexists. split; [reflexivity |]. cbn [outcome]. eauto.
Qed.

Lemma fetches_fetchLog t tokens : fetches (fetchLog t tokens).*2 = omap fetchFor tokens.
Proof.
  induction tokens as [|token tokens IH]; [done |].
  rewrite fetchLog_cons, fmap_app. unfold fetches in *. rewrite omap_app, IH.
  unfold fetchLog. cbn. by destruct (fetchFor token).
Qed.

Lemma processing_outcome {A} t (processed : Reply A) e :
  outcome (processing t processed) = Rejected e <-> answer processed = Rejected e.
Proof.
  unfold processing. cbn. destruct (answer processed); split; congruence.
Qed.

(** What [Promise.all] makes of a batch: with a failure in it, it rejects
    with the failure that comes first, when it comes; without, it
    fulfils. *)
Lemma batch_promise {A} (process : A -> Reply A) (batch : list A) t :
  let promises := processing t <$> (process <$> batch) in
  (forall failing e,
     failing ∈ batch -> answer (process failing) = Rejected e ->
     exists first e' t',
       first ∈ batch /\ answer (process first) = Rejected e' /\
       firstRejection promises = Some (t', e') /\
       t' = (t + latency (process first))%nat /\
       (t' <= t + latency (process failing))%nat) /\
  ((forall x, x ∈ batch -> exists rewritten, answer (process x) = Fulfilled rewritten) ->
   firstRejection promises = None).
Proof.
  intros promises. split.
  - intros failing e Hin Hfail.
    assert (Hq : processing t (process failing) ∈ promises).
    { unfold promises. rewrite <- list_fmap_compose. apply list_elem_of_fmap. eauto. }
    destruct (firstRejection promises) as [[t' e'] |] eqn:Efirst.
    + destruct (firstRejection_Some _ _ _ Efirst) as (q & Hqin & Ho & Ht & Hmin).
      unfold promises in Hqin. rewrite <- list_fmap_compose in Hqin.
      apply list_elem_of_fmap in Hqin as (first & -> & Hfirst).
      exists first, e', t'. split; [done |].
      split; [by apply (processing_outcome t) |]. split; [done |].
      split; [by rewrite <- Ht |].
      apply (Hmin _ e Hq). by apply processing_outcome.
    + destruct (proj1 (firstRejection_None promises) Efirst _ Hq) as [a Ha].
      apply (processing_outcome t) in Hfail. congruence.
  - intros Hall. apply firstRejection_None. intros q Hq.
    unfold promises in Hq. rewrite <- list_fmap_compose in Hq.
    apply list_elem_of_fmap in Hq as (x & -> & Hx).
    destruct (Hall x Hx) as [rewritten Hr]. unfold processing. cbn. rewrite Hr. eauto.
Qed.

(** C8, as amended.  In batch receive processing (receiveMessage called
    without a callback, and checkEvent), the failure of one message (a
    reserved attribute that does not decode, or a fetch the object store
    rejects) does not prevent the other messages of the batch from being
    processed: the fetch of every offloaded message is dispatched, every
    message whose own processing succeeds is rewritten, and a message
    whose processing fails is left as it was received.  The call as a
    whole then fails: its promise rejects with the error of the failure
    that occurs first, at the time that failure occurs, whether or not
    the other fetches have completed by then; the error is that of the
    call, not of a message.  Without a failure the promise fulfils. *)
Theorem batch_receive_failures this :
  (forall params w batch,
     let modifiedParams :=
       {| rcvQueueUrl := rcvQueueUrl params;
          MessageAttributeNames :=
            Some (default [] (MessageAttributeNames params) ++ [RESERVED_ATTRIBUTE_NAME]) |} in
     let reply := receiveMessageReply (sqs this) modifiedParams in
     let received := (clock w + latency reply)%nat in
     let after := snd (Index.receiveMessage this params None w) in
     answer reply = Fulfilled (Some batch) ->
     exists p,
       fst (Index.receiveMessage this params None w) = Normal p /\
       fetches (events after) = fetches (events w) ++ omap fetchFor (referenceToken <$> batch) /\
       (forall i m, batch !! i = Some m ->
          messages after !! (List.length (messages w) + i)%nat
          = Some match answer (processedMessage this m) with
                 | Fulfilled rewritten => rewritten
                 | Rejected _ => m
                 end) /\
       (forall failing e,
          failing ∈ batch -> answer (processedMessage this failing) = Rejected e ->
          exists first e',
            first ∈ batch /\ answer (processedMessage this first) = Rejected e' /\
            outcome p = Rejected e' /\
            settledAt p = (received + latency (processedMessage this first))%nat /\
            (settledAt p <= received + latency (processedMessage this failing))%nat) /\
       ((forall m, m ∈ batch ->
           exists rewritten, answer (processedMessage this m) = Fulfilled rewritten) ->
        outcome p = Fulfilled
                      (Some {| Messages := Some (seq (List.length (messages w))
                                                     (List.length batch)) |}))) /\
  (forall event w batch,
     let after := snd (Index.checkEvent this event w) in
     records w = batch ->
     Records event = seq 0 (List.length batch) ->
     exists p,
       fst (Index.checkEvent this event w) = Normal p /\
       fetches (events after) = fetches (events w) ++ omap fetchFor (recordToken <$> batch) /\
       (forall i r, batch !! i = Some r ->
          records after !! i
          = Some match answer (processedRecord this r) with
                 | Fulfilled rewritten => rewritten
                 | Rejected _ => r
                 end) /\
       (forall failing e,
          failing ∈ batch -> answer (processedRecord this failing) = Rejected e ->
          exists first e',
            first ∈ batch /\ answer (processedRecord this first) = Rejected e' /\
            outcome p = Rejected e' /\
            settledAt p = (clock w + latency (processedRecord this first))%nat /\
            (settledAt p <= clock w + latency (processedRecord this failing))%nat) /\
       ((forall r, r ∈ batch ->
           exists rewritten, answer (processedRecord this r) = Fulfilled rewritten) ->
        exists done, outcome p = Fulfilled done)).
Proof.
  split.
  - intros params w batch modifiedParams reply received after Hreply.
    destruct (receiveMessage_batch this params w batch Hreply) as (p & Hrun & Hp).
    fold modifiedParams reply received in Hrun, Hp.
    unfold after. rewrite Hrun. cbn [fst snd].
    destruct (batch_promise (processedMessage this) batch received) as [Hfail Hok].
    exists p. split; [done |]. split; [| split; [| split]].
    + unfold events at 1. cbn [log]. rewrite fmap_app, fmap_cons. cbn [snd].
      unfold fetches at 1. rewrite omap_app. cbn [omap]. fold (fetches (events w)).
      f_equal. apply fetches_fetchLog.
    + intros i m Hi. cbn [messages].
      rewrite lookup_app_r by lia.
      replace (List.length (messages w) + i - List.length (messages w))%nat with i by lia.
      rewrite list_lookup_fmap, Hi. done.
    + intros failing e Hin Hrejected.
      destruct (Hfail failing e Hin Hrejected) as (first & e' & t' & ? & ? & Hfirst & -> & ?).
      rewrite Hfirst in Hp. destruct Hp as [Ho Ht].
      exists first, e'. rewrite Ht. done.
    + intros Hall. rewrite (Hok Hall) in Hp. done.
  - intros event w batch after Hw Hevent.
    destruct (checkEvent_batch this event [] batch w Hw Hevent) as (p & Hrun & Hp).
    unfold after. rewrite Hrun. cbn [fst snd].
    destruct (batch_promise (processedRecord this) batch (clock w)) as [Hfail Hok].
    exists p. split; [done |]. split; [| split; [| split]].
    + unfold events at 1. cbn [log]. rewrite fmap_app.
      unfold fetches at 1. rewrite omap_app. fold (fetches (events w)).
      f_equal. apply fetches_fetchLog.
    + intros i r Hi. cbn [records app]. rewrite list_lookup_fmap, Hi. done.
    + intros failing e Hin Hrejected.
      destruct (Hfail failing e Hin Hrejected) as (first & e' & t' & ? & ? & Hfirst & -> & ?).
      rewrite Hfirst in Hp. destruct Hp as [Ho Ht].
      exists first, e'. rewrite Ht. done.
    + intros Hall. rewrite (Hok Hall) in Hp. done.
Qed.

Lemma batch_receive_failures_witness :
  let this := new_SQSExtended (queueWith [missingMessage; storedMessage; plainMessage])
                flakyStore testOptions in
  exists p,
    fst (Index.receiveMessage this receiveParams None testWorld) = Normal p /\
    outcome p = Rejected (ServiceError "NoSuchKey") /\
    messages (snd (Index.receiveMessage this receiveParams None testWorld)) !! 1%nat
    = Some {| Message.Body := Some "message body";
              Message.ReceiptHandle :=
                Some (embedS3MarkersInReceiptHandle "test-bucket" "8765-4321"
                        (Some "receipthandle"));
              Message.MessageAttributes := Message.MessageAttributes storedMessage |}.
Proof.
  intros this.
  destruct (proj1 (batch_receive_failures this) receiveParams testWorld
              [missingMessage; storedMessage; plainMessage] eq_refl)
    as (p & Hp & _ & Hmessages & Hfailure & _).
  exists p. split; [exact Hp |]. split.
  - destruct (Hfailure missingMessage (ServiceError "NoSuchKey"))
      as (first & e' & Hin & Hanswer & Houtcome & _).
    + apply list_elem_of_In. simpl. left. reflexivity.
    + reflexivity.
    + apply list_elem_of_In in Hin. simpl in Hin.
      destruct Hin as [<- | [<- | [<- | []]]]; vm_compute in Hanswer;
        try discriminate Hanswer.
      injection Hanswer as <-. exact Houtcome.
  - exact (Hmessages 1%nat storedMessage eq_refl).
Defined.

(** C8, as stated, fails.  In the batch below the object of the first
    message is missing.  The call rejects at time 2, when that fetch
    fails; the fetch of the second message, dispatched at time 1 with the
    first, completes at time 11 only: it is not awaited.  And the caller
    gets the bare error of the store, the same whichever message of the
    batch it was that failed: the failure is not attached to the message.
    The same holds of checkEvent. *)
Lemma batch_receive_failures_counterexample :
  let failingFirst := new_SQSExtended (queueWith [missingMessage; storedMessage])
                        flakyStore testOptions in
  let failingLast := new_SQSExtended (queueWith [storedMessage; missingMessage])
                       flakyStore testOptions in
  let arrived := setClock 1 testWorld in
  fst (Index.receiveMessage failingFirst receiveParams None testWorld)
    = Normal {| settledAt := 2; outcome := Rejected (ServiceError "NoSuchKey") |} /\
  fetches (events (snd (Index.receiveMessage failingFirst receiveParams None testWorld)))
    = [{| Bucket := Some "test-bucket"; Key := "missing"; Body := None |};
       {| Bucket := Some "test-bucket"; Key := "8765-4321"; Body := None |}] /\
  fst (Index._getS3Content failingFirst (Some "test-bucket") "8765-4321" arrived)
    = Normal {| settledAt := 11; outcome := Fulfilled "message body" |} /\
  fst (Index.receiveMessage failingLast receiveParams None testWorld)
    = fst (Index.receiveMessage failingFirst receiveParams None testWorld) /\
  fst (Index.checkEvent failingFirst (eventOf [missingRecord; storedRecord])
         (worldWith [missingRecord; storedRecord]))
    = Normal {| settledAt := 1; outcome := Rejected (ServiceError "NoSuchKey") |} /\
  fst (Index.checkEvent failingFirst (eventOf [storedRecord; missingRecord])
         (worldWith [storedRecord; missingRecord]))
    = Normal {| settledAt := 1; outcome := Rejected (ServiceError "NoSuchKey") |}.
Proof. vm_compute. done. Qed.

(** Scenario C of the specification: a message whose reserved attribute
    decodes to test-bucket and 8765-4321 comes back with the content of
    the object as its body and the wrapped receipt handle. *)
Example receiveMessage_scenario_C :
  let this := new_SQSExtended (queueWith [storedMessage]) testStore testOptions in
  fst (Index.receiveMessage this receiveParams None testWorld)
    = Normal {| settledAt := 5; outcome := Fulfilled (Some {| Messages := Some [0%nat] |}) |} /\
  messages (snd (Index.receiveMessage this receiveParams None testWorld))
    = [{| Message.Body := Some "message body";
          Message.ReceiptHandle :=
            Some "-..s3BucketName..-test-bucket-..s3BucketName..--..s3Key..-8765-4321-..s3Key..-receipthandle";
          Message.MessageAttributes := Message.MessageAttributes storedMessage |}].
Proof. vm_compute. done. Qed.

(** With a callback the send function runs twice (once for the callback,
    once for the promise returned): the object is fetched twice and the
    receipt handle wrapped twice. *)
Example receiveMessage_with_callback_runs_twice :
  let this := new_SQSExtended (queueWith [storedMessage]) testStore testOptions in
  let after := snd (Index.receiveMessage this receiveParams (Some (Callback "done")) testWorld) in
  fetches (events after)
    = [{| Bucket := Some "test-bucket"; Key := "8765-4321"; Body := None |};
       {| Bucket := Some "test-bucket"; Key := "8765-4321"; Body := None |}] /\
  Message.ReceiptHandle <$> messages after
    = [Some (embedS3MarkersInReceiptHandle "test-bucket" "8765-4321"
               (Some (embedS3MarkersInReceiptHandle "test-bucket" "8765-4321"
                        (Some "receipthandle"))))].
Proof. vm_compute. done. Qed.

End ReceivePipeline.

(** ** The key codec, both ways *)

Section KeyCodec.

Implicit Types (b k s t x y pat token : string).

Lemma drop_beyond s n : (String.length s <= n)%nat -> drop n s = "".
Proof.
  intros H. replace n with (String.length s + (n - String.length s))%nat by lia.
  rewrite drop_add, drop_all. by destruct (n - String.length s)%nat.
Qed.

Lemma dotStar_noLineTerminator s : noLineTerminator s -> dotStar s = s.
Proof.
  induction s as [|c s IH]; intros Hno.
  - simpl. by destruct (atLineTerminator "").
  - cbn [dotStar]. pose proof (Hno 0%nat) as H0. cbn [drop] in H0. rewrite H0.
    f_equal. apply IH. intros n. apply (Hno (S n)).
Qed.

(** A way to check that no line terminator starts in a string. *)
Lemma noLineTerminator_dotStar s : dotStar s = s -> noLineTerminator s.
Proof.
  intros Hs n. destruct (dotStar_spec s) as (t & _ & Hline). rewrite Hs in Hline.
  destruct (decide (n < String.length s)%nat) as [Hn | Hn]; [by apply Hline |].
  rewrite drop_beyond by lia. reflexivity.
Qed.

Lemma occursAt_app_r pat s t n :
  occursAt pat (s +:+ t) (String.length s + n) -> occursAt pat t n.
Proof.
  intros [Hn H]. rewrite string_length_app in Hn. split; [lia |].
  by rewrite drop_add, drop_length_app in H.
Qed.

Lemma matchReference_encoded b k :
  noLineTerminator b -> noLineTerminator k -> (forall n, ~ occursAt ")" k n) ->
  matchReference ("(" +:+ b +:+ ")" +:+ k)
  = Some (b, if String.eqb k "" then None else Some k).
Proof.
  intros Hb Hk Hparen.
  change ("(" +:+ b +:+ ")" +:+ k) with (String "(" (b +:+ ")" +:+ k)).
  unfold matchReference. rewrite dotStar_before_paren, dotStar_noLineTerminator by done.
  set (line := b +:+ ")" +:+ k).
  assert (Hline : line = (b +:+ ")") +:+ k) by (unfold line; by rewrite string_app_assoc).
  assert (Hlen : String.length (b +:+ ")") = S (String.length b))
    by (rewrite string_length_app; simpl; lia).
  assert (Hlast : lastIndexOf line ")" = Z.of_nat (String.length b)).
  { apply lastIndexOf_last; [apply occursAt_app |].
    intros m Hm Hocc. apply (Hparen (m - S (String.length b))%nat).
    apply (occursAt_app_r _ (b +:+ ")")). rewrite <- Hline, Hlen.
    by replace (S (String.length b) + (m - S (String.length b)))%nat with m by lia. }
  rewrite Hlast. destruct (Z.leb_spec 0 (Z.of_nat (String.length b))); [| lia].
  replace (Z.of_nat (String.length b) + 1)%Z with (Z.of_nat (S (String.length b))) by lia.
  rewrite substringFrom_in_range
    by (rewrite Hline, string_length_app, Hlen; lia).
  change 0%Z with (Z.of_nat 0).
  rewrite substring_in_range
    by (try lia; unfold line; rewrite string_length_app; lia).
  rewrite Nat.sub_0_r. change (drop 0 line) with line.
  assert (drop (S (String.length b)) line = k) as ->
    by (rewrite Hline, <- Hlen; apply drop_length_app).
  by assert (take (String.length b) line = b) as -> by apply take_length_app.
Qed.

(** X1.  Decoding inverts encoding.  For a bucket name b and a key k in
    which no line terminator starts, k without a closing parenthesis, the
    token made of b in parentheses followed by k (the one _prepareSend
    writes into the reserved attribute) decodes to the bucket b and the key
    k; the key decoded is undefined when k is empty.  The bucket name may
    itself contain parentheses. *)
Theorem decode_encode_round_trip b k :
  noLineTerminator b -> noLineTerminator k -> (forall n, ~ occursAt ")" k n) ->
  getS3MessageKeyAndBucket (Some ("(" +:+ b +:+ ")" +:+ k))
  = Normal {| refBucketName := Some b;
              refS3MessageKey := if String.eqb k "" then None else Some k |}.
Proof.
  intros Hb Hk Hparen. unfold getS3MessageKeyAndBucket.
  change (truthy (Some ("(" +:+ b +:+ ")" +:+ k))) with true. cbn [negb].
  change (default "" (Some ("(" +:+ b +:+ ")" +:+ k))) with ("(" +:+ b +:+ ")" +:+ k).
  by rewrite matchReference_encoded.
Qed.

Lemma decode_encode_round_trip_witness :
  getS3MessageKeyAndBucket (Some "(test-(bucket))1234-5678")
  = Normal {| refBucketName := Some "test-(bucket)"; refS3MessageKey := Some "1234-5678" |}.
Proof.
  apply (decode_encode_round_trip "test-(bucket)" "1234-5678").
  - apply noLineTerminator_dotStar. reflexivity.
  - apply noLineTerminator_dotStar. reflexivity.
  - apply indexOf_absent. reflexivity.
Defined.

Lemma occurs_once pat s n m :
  countOccurrences pat s = 1%nat -> occursAt pat s n -> occursAt pat s m -> m = n.
Proof.
  intros Hcount Hn Hm. destruct (decide (m = n)) as [| Hne]; [done |]. exfalso.
  assert (Hsub : [n; m] ⊆+ occurrences pat s).
  { apply NoDup_submseteq.
    - apply NoDup_ListNoDup. repeat constructor; simpl; intuition congruence.
    - intros i Hi. apply occursAt_occurrences.
      apply list_elem_of_In in Hi. simpl in Hi.
      destruct Hi as [<- | [<- | []]]; done. }
  apply submseteq_length in Hsub. unfold countOccurrences in Hcount.
  simpl in Hsub. lia.
Qed.

Lemma substring_swapped s (hi lo : nat) :
  (lo <= hi)%nat -> (hi <= String.length s)%nat ->
  substring s (Z.of_nat hi) (Z.of_nat lo) = take (hi - lo) (drop lo s).
Proof.
  intros Hlo Hhi. unfold substring, length.
  match goal with
  | |- take ?x (drop ?y _) = _ =>
      replace x with (hi - lo)%nat by lia; replace y with lo by lia
  end.
  done.
Qed.

(** X2.  A receipt handle in which the key marker occurs exactly once is
    taken for an offloaded one: the indices given to substring come in the
    wrong order, substring swaps them, and the key extracted is the marker
    literal itself; the handle that goes to the queue is what follows the
    marker. *)
Theorem unwrap_single_key_marker x y queueUrl :
  let token := x +:+ S3_MESSAGE_KEY_MARKER +:+ y in
  countOccurrences S3_MESSAGE_KEY_MARKER token = 1%nat ->
  let unwrapped := Index._prepareDelete {| delQueueUrl := queueUrl; ReceiptHandle := token |} in
  preparedDeleteKey unwrapped = Some S3_MESSAGE_KEY_MARKER /\
  deleteParams unwrapped = {| delQueueUrl := queueUrl; ReceiptHandle := y |}.
Proof.
  intros token Hcount unwrapped.
  assert (Hocc : occursAt S3_MESSAGE_KEY_MARKER token (String.length x)) by apply occursAt_app.
  assert (Hfirst : indexOf token S3_MESSAGE_KEY_MARKER = Z.of_nat (String.length x)).
  { apply indexOf_first; [done |]. intros m Hm Hm'.
    pose proof (occurs_once _ _ _ _ Hcount Hocc Hm'). lia. }
  assert (Hlast : lastIndexOf token S3_MESSAGE_KEY_MARKER = Z.of_nat (String.length x)).
  { apply lastIndexOf_last; [done |]. intros m Hm Hm'.
    pose proof (occurs_once _ _ _ _ Hcount Hocc Hm'). lia. }
  assert (Hlen : String.length token = (String.length x + 11 + String.length y)%nat).
  { unfold token. rewrite !string_length_app. simpl. lia. }
  unfold unwrapped, Index._prepareDelete. cbn [preparedDeleteKey deleteParams ReceiptHandle].
  unfold extractS3MessageKeyFromReceiptHandle, getOriginReceiptHandle.
  rewrite Hfirst, Hlast.
  destruct (Z.leb_spec 0 (Z.of_nat (String.length x))); [| lia].
  change (length S3_MESSAGE_KEY_MARKER) with (Z.of_nat 11).
  replace (Z.of_nat (String.length x) + Z.of_nat 11)%Z
    with (Z.of_nat (String.length x + 11)) by lia.
  rewrite substring_swapped, substringFrom_in_range by lia.
  replace (String.length x + 11 - String.length x)%nat with 11%nat by lia.
  split.
  - f_equal. unfold token. rewrite drop_length_app.
    apply (take_length_app S3_MESSAGE_KEY_MARKER).
  - f_equal. unfold token.
    replace (x +:+ S3_MESSAGE_KEY_MARKER +:+ y) with ((x +:+ S3_MESSAGE_KEY_MARKER) +:+ y)
      by by rewrite string_app_assoc.
    replace (String.length x + 11)%nat with (String.length (x +:+ S3_MESSAGE_KEY_MARKER))
      by (rewrite string_length_app; simpl; lia).
    apply drop_length_app.
Qed.

Lemma unwrap_single_key_marker_witness :
  let unwrapped :=
    Index._prepareDelete {| delQueueUrl := Some "test-queue";
                            ReceiptHandle := "abc-..s3Key..-receipthandle" |} in
  preparedDeleteKey unwrapped = Some "-..s3Key..-" /\
  deleteParams unwrapped
  = {| delQueueUrl := Some "test-queue"; ReceiptHandle := "receipthandle" |}.
Proof.
  apply (unwrap_single_key_marker "abc" "receipthandle" (Some "test-queue")).
  vm_compute. reflexivity.
Defined.

(** X3.  The handle that goes to the queue is an end of the handle given,
    and unwrapping stops there: no key is found in it, and unwrapping it
    again returns it as it is. *)
Theorem getOriginReceiptHandle_fixed_point receiptHandle :
  let origin := getOriginReceiptHandle receiptHandle in
  (exists wrapping, receiptHandle = wrapping +:+ origin) /\
  extractS3MessageKeyFromReceiptHandle origin = None /\
  getOriginReceiptHandle origin = origin.
Proof.
  intros origin. split; [| split].
  - unfold origin, getOriginReceiptHandle.
    destruct (0 <=? indexOf receiptHandle S3_MESSAGE_KEY_MARKER)%Z eqn:E;
      [| by exists ""].
    destruct (lastIndexOfFrom_spec S3_MESSAGE_KEY_MARKER receiptHandle 0 ltac:(lia))
      as [[_ Hnone] | (n & Hn & Hocc & _)].
    + apply indexOf_found in E as [m Hm]. by destruct (Hnone m).
    + unfold lastIndexOf. rewrite Hn. pose proof (occursAt_length _ _ _ Hocc) as Hlen.
      change (length S3_MESSAGE_KEY_MARKER) with (Z.of_nat 11).
      change (String.length S3_MESSAGE_KEY_MARKER) with 11%nat in Hlen.
      replace (0 + Z.of_nat n + Z.of_nat 11)%Z with (Z.of_nat (n + 11)) by lia.
      rewrite substringFrom_in_range by lia.
      exists (take (n + 11) receiptHandle). by rewrite take_drop.
  - unfold extractS3MessageKeyFromReceiptHandle.
    assert (indexOf origin S3_MESSAGE_KEY_MARKER = (-1)%Z) as ->; [| done].
    apply indexOf_absent. apply getOriginReceiptHandle_no_key_marker.
  - unfold getOriginReceiptHandle at 1.
    assert (indexOf origin S3_MESSAGE_KEY_MARKER = (-1)%Z) as ->; [| done].
    apply indexOf_absent. apply getOriginReceiptHandle_no_key_marker.
Qed.

End KeyCodec.

(** ** The size estimate *)

Section SizeEstimate.

Implicit Types (attrs : gmap string MessageAttributeValue) (params : SendMessageRequest).

Lemma attributeSize_nonneg attrKey attr : (0 <= attributeSize attrKey attr)%Z.
Proof.
  unfold attributeSize, byteLength.
  destruct (truthy (DataType attr)), (StringValue attr), (BinaryValue attr); lia.
Qed.

Lemma getMessageAttributesSize_fresh attrs attrKey attr :
  attrs !! attrKey = None ->
  getMessageAttributesSize (Some (<[attrKey := attr]> attrs))
  = (getMessageAttributesSize (Some attrs) + attributeSize attrKey attr)%Z.
Proof.
  intros Hfresh. unfold getMessageAttributesSize.
  rewrite map_fold_insert_L; [done | | done].
  intros; lia.
Qed.

Lemma getMessageAttributesSize_nonneg attributes : (0 <= getMessageAttributesSize attributes)%Z.
Proof.
  destruct attributes as [attrs |]; [| done].
  induction attrs as [|attrKey attr attrs Hfresh IH] using map_ind; [done |].
  rewrite getMessageAttributesSize_fresh by done.
  pose proof (attributeSize_nonneg attrKey attr). lia.
Qed.

(** X4.  The estimate counts every attribute once, whatever the order of
    the keys: setting the attribute of a name, new or already there, makes
    the estimate that of the other attributes plus the byte length of the
    name, of the data type, of the string value and of the binary value of
    the attribute set (an absent one counting for nothing).  Without
    attributes the estimate is 0, and it is never negative. *)
Theorem getMessageAttributesSize_insert attrs attrKey attr :
  getMessageAttributesSize None = 0%Z /\
  getMessageAttributesSize (Some ∅) = 0%Z /\
  getMessageAttributesSize (Some (<[attrKey := attr]> attrs))
  = (getMessageAttributesSize (Some (delete attrKey attrs))
     + Z.of_nat (String.length attrKey)
     + Z.of_nat (String.length (default "" (DataType attr)))
     + Z.of_nat (String.length (default "" (StringValue attr)))
     + Z.of_nat (String.length (default "" (BinaryValue attr))))%Z /\
  (0 <= getMessageAttributesSize (Some (delete attrKey attrs)))%Z.
Proof.
  split; [done |]. split; [apply map_fold_empty |].
  split; [| apply getMessageAttributesSize_nonneg].
  rewrite <- insert_delete_eq.
  rewrite getMessageAttributesSize_fresh by apply lookup_delete_eq.
  unfold attributeSize, byteLength.
  destruct (DataType attr) as [dataType |], (StringValue attr) as [stringValue |],
    (BinaryValue attr) as [binaryValue |]; cbn [truthy default String.length];
    unfold id; try lia;
    destruct (String.eqb_spec dataType "") as [-> |]; cbn [negb String.length]; lia.
Qed.

(** X5.  A body that alone is over the threshold is offloaded by the
    default send transform, whatever the attributes of the message and
    whether or not alwaysUseS3 is set: the transform returns the body as
    the content for the store and no body for the queue. *)
Theorem defaultSendTransform_large_body always threshold params :
  (default DEFAULT_MESSAGE_SIZE_THRESHOLD threshold < byteLength (default "" (MessageBody params)))%Z ->
  isLarge params threshold = true /\
  defaultSendTransform always threshold params
  = {| s3Content := MessageBody params; messageBody := None |}.
Proof.
  intros Hbody.
  assert (Hlarge : isLarge params threshold = true).
  { rewrite isLarge_estimatedSize. unfold estimatedSize.
    pose proof (getMessageAttributesSize_nonneg (MessageAttributes params)).
    apply Z.ltb_lt. lia. }
  split; [done |]. unfold defaultSendTransform. rewrite Hlarge, orb_true_r. done.
Qed.

Lemma defaultSendTransform_large_body_witness :
  defaultSendTransform None (Some 10%Z) smallMessage
  = {| s3Content := Some "small message body"; messageBody := None |}.
Proof.
  apply (defaultSendTransform_large_body None (Some 10%Z) smallMessage).
  vm_compute. reflexivity.
Defined.

End SizeEstimate.

(** ** More on the send pipeline *)

Section SendPipelineMore.

Implicit Types (this : SQSExtended) (params : SendMessageRequest) (w : World).

Lemma setClock_same w : setClock (clock w) w = w.
Proof. by destruct w. Qed.

Lemma setClock_setClock t1 t2 w : setClock t1 (setClock t2 w) = setClock t1 w.
Proof. reflexivity. Qed.

Lemma setClock_record t1 t2 ev w : setClock t1 (record t2 ev w) = record t2 ev (setClock t1 w).
Proof. reflexivity. Qed.

Lemma queueSends_record t ev w :
  queueSends (events (record t ev w))
  = queueSends (events w) ++ match ev with SqsSendMessage p => [p] | _ => [] end.
Proof.
  rewrite events_record. unfold queueSends. rewrite omap_app. by destruct ev.
Qed.

Lemma uploads_record t ev w :
  uploads (events (record t ev w))
  = uploads (events w) ++ match ev with S3PutObject p => [p] | _ => [] end.
Proof.
  rewrite events_record. unfold uploads. rewrite omap_app. by destruct ev.
Qed.

(** X6.  Without a bucket name nothing is sent: sendMessage of
    src/index.ts throws the configuration error before it looks at the
    message, and the async variant returns a promise rejected with it; in
    both cases no client is called and no key is minted (the world is as
    it was), whatever the message, the transform and the callback. *)
Theorem sendMessage_requires_bucket this (variant : Part001.SQSExtended) params callback w :
  truthy (bucketName this) = false ->
  truthy (Part001.bucketName variant) = false ->
  Index.sendMessage this params callback w
  = (Throw (Error "bucketName option is required for sending messages"), w) /\
  Part001.sendMessage variant params w
  = (Normal {| settledAt := clock w;
               outcome := Rejected (Error "bucketName option is required for sending messages") |},
     w).
Proof.
  intros Hthis Hvariant. split.
  - unfold Index.sendMessage. by rewrite Hthis.
  - unfold Part001.sendMessage, async. rewrite Hvariant. cbn [negb]. unfold throw.
    by rewrite setClock_same.
Qed.

Lemma sendMessage_requires_bucket_witness :
  Index.sendMessage
    (new_SQSExtended testQueue testStore
       {| optBucketName := Some ""; alwaysUseS3 := Some true; messageSizeThreshold := None;
          optSendTransform := None; optReceiveTransform := None |})
    smallMessage (Some (Callback "done")) testWorld
  = (Throw (Error "bucketName option is required for sending messages"), testWorld) /\
  Part001.sendMessage
    (Part001.new_SQSExtended testQueue testStore
       {| Part001.optBucketName := None; Part001.optAlwaysUseS3 := Some true;
          Part001.optMessageSizeThreshold := None |})
    smallMessage testWorld
  = (Normal {| settledAt := 0;
               outcome := Rejected (Error "bucketName option is required for sending messages") |},
     testWorld).
Proof.
  apply sendMessage_requires_bucket; reflexivity.
Defined.

(** X7.  What the sender writes the receiver can read.  When sendMessage
    offloads a body (bucket b, key k minted; no line terminator in either,
    no closing parenthesis in k), the message that goes to the queue keeps
    its queue and every attribute of the caller, and the reserved
    attribute added to it decodes, on any received message bearing the
    same attributes, to the very bucket and key under which the content
    was uploaded. *)
Theorem sendMessage_reference_fetchable this params w bucket :
  bucketName this = Some bucket -> bucket <> "" -> noLineTerminator bucket ->
  truthy (s3Content (sendTransform this params)) = true ->
  reservedAttribute params = None ->
  let key := uuids w (minted w) in
  key <> "" -> noLineTerminator key -> (forall n, ~ occursAt ")" key n) ->
  let after := snd (Index.sendMessage this params None w) in
  exists outgoing attributes,
    queueSends (events after) = queueSends (events w) ++ [outgoing] /\
    uploads (events after)
      = uploads (events w)
        ++ [{| Bucket := Some bucket; Key := key;
               Body := s3Content (sendTransform this params) |}] /\
    QueueUrl outgoing = QueueUrl params /\
    MessageAttributes outgoing = Some attributes /\
    (forall name, name <> RESERVED_ATTRIBUTE_NAME ->
       attributes !! name = default ∅ (MessageAttributes params) !! name) /\
    (forall received : Message.t,
       Message.MessageAttributes received = MessageAttributes outgoing ->
       fetchFor (referenceToken received)
       = Some {| Bucket := Some bucket; Key := key; Body := None |}).
Proof.
  intros Hbucket Hb Hline Hcontent Hnone key Hkey Hkline Hparen after.
  assert (Htruthy : truthy (bucketName this) = true)
    by (rewrite Hbucket; by apply truthy_Some_ne).
  unfold after. rewrite (sendMessage_offloads this params w Htruthy Hcontent Hnone Hkey).
  cbn [snd]. fold key. rewrite Hbucket. cbn [templated].
  eexists. eexists.
  rewrite !queueSends_record, !uploads_record, events_mint. cbn [app].
  rewrite !app_nil_r.
  split; [reflexivity |]. split; [reflexivity |]. split; [reflexivity |].
  split; [reflexivity |]. split.
  - intros name Hname. unfold addS3MessageKeyAttribute.
    by rewrite lookup_insert_ne.
  - intros received Hreceived. unfold referenceToken. rewrite Hreceived.
    cbn [MessageAttributes withMessageBody withMessageAttributes].
    unfold addS3MessageKeyAttribute. rewrite lookup_insert_eq. cbn [StringValue].
    unfold fetchFor, getS3MessageKeyAndBucket.
    change (truthy (Some ("(" +:+ bucket +:+ ")" +:+ key))) with true. cbn [negb].
    change (default "" (Some ("(" +:+ bucket +:+ ")" +:+ key)))
      with ("(" +:+ bucket +:+ ")" +:+ key).
    rewrite matchReference_encoded by done.
    destruct (String.eqb_spec key ""); [done |].
    cbn [refS3MessageKey refBucketName]. rewrite (truthy_Some_ne _ Hkey). done.
Qed.

Lemma sendMessage_reference_fetchable_witness :
  let this := new_SQSExtended testQueue testStore alwaysOffload in
  let after := snd (Index.sendMessage this smallMessage None testWorld) in
  exists outgoing attributes,
    queueSends (events after) = [outgoing] /\
    uploads (events after)
      = [{| Bucket := Some "test-bucket"; Key := mockS3Key;
            Body := Some "small message body" |}] /\
    QueueUrl outgoing = Some "test-queue" /\
    MessageAttributes outgoing = Some attributes /\
    (forall name, name <> RESERVED_ATTRIBUTE_NAME ->
       attributes !! name = default ∅ (MessageAttributes smallMessage) !! name) /\
    (forall received : Message.t,
       Message.MessageAttributes received = MessageAttributes outgoing ->
       fetchFor (referenceToken received)
       = Some {| Bucket := Some "test-bucket"; Key := mockS3Key; Body := None |}).
Proof.
  intros this.
  apply (sendMessage_reference_fetchable this smallMessage testWorld "test-bucket").
  - reflexivity.
  - discriminate.
  - apply noLineTerminator_dotStar. reflexivity.
  - reflexivity.
  - reflexivity.
  - discriminate.
  - apply noLineTerminator_dotStar. reflexivity.
  - apply indexOf_absent. reflexivity.
Defined.

(** X8.  With a callback, an offloading sendMessage runs its send function
    twice, once on behalf of the callback and once for the promise it
    returns: the content is uploaded twice under the same key, both
    uploads being dispatched at the time of the call, and the callback is
    called once, when the first run completes, with the error of the
    upload or else of the queue.  The promise returned is the one returned
    without a callback: it still rejects when the upload or the queue
    fails. *)
Theorem sendMessage_with_callback_runs_twice this params cb w :
  truthy (bucketName this) = true ->
  truthy (s3Content (sendTransform this params)) = true ->
  reservedAttribute params = None ->
  uuids w (minted w) <> "" ->
  let key := uuids w (minted w) in
  let outgoing :=
    withMessageBody
      (withMessageAttributes params
         (addS3MessageKeyAttribute ("(" +:+ templated (bucketName this) +:+ ")" +:+ key)
            (MessageAttributes params)))
      (or_else (messageBody (sendTransform this params)) (Some key)) in
  let put := {| Bucket := bucketName this; Key := key;
                Body := s3Content (sendTransform this params) |} in
  let told :=
    match answer (putObjectReply (s3 this) put), answer (sendMessageReply (sqs this) outgoing) with
    | Rejected fnErr, _ => CallbackCall cb (Some fnErr) TheRequest
    | Fulfilled _, Rejected err => CallbackCall cb (Some err) TheRequest
    | Fulfilled _, Fulfilled _ => CallbackCall cb None TheResponse
    end in
  let completed :=
    match answer (putObjectReply (s3 this) put) with
    | Fulfilled _ =>
        Nat.max (Nat.max (clock w) (clock w + latency (putObjectReply (s3 this) put)))
          (clock w + latency (sendMessageReply (sqs this) outgoing))
    | Rejected _ => Nat.max (clock w) (clock w + latency (putObjectReply (s3 this) put))
    end in
  let after := snd (Index.sendMessage this params (Some cb) w) in
  log after
    = log w ++ [(clock w, SqsSendMessage outgoing); (clock w, S3PutObject put);
                (completed, told); (clock w, S3PutObject put)] /\
  uploads (events after) = uploads (events w) ++ [put; put] /\
  queueSends (events after) = queueSends (events w) ++ [outgoing] /\
  minted after = S (minted w) /\
  fst (Index.sendMessage this params (Some cb) w) = fst (Index.sendMessage this params None w).
Proof.
  intros Hbucket Hcontent Hnone Hkey key outgoing put told completed after.
  assert (Hrun : exists p, Index.sendMessage this params (Some cb) w
                   = (Normal p,
                      record (clock w) (S3PutObject put)
                        (record completed told
                           (record (clock w) (S3PutObject put)
                              (record (clock w) (SqsSendMessage outgoing) (mint w))))) /\
                   fst (Index.sendMessage this params None w) = Normal p).
  { rewrite (sendMessage_offloads this params w Hbucket Hcontent Hnone Hkey). cbn [fst].
    unfold Index.sendMessage, Index._prepareSend, Index._storeS3Content,
      wrapRequest, invokeFnBeforeRequest, sqs_sendMessage, s3_putObject, dispatch,
      async, await, settle, emit, v4, bind, ret, throw.
    cbv zeta. unfold reservedAttribute in Hnone.
    rewrite Hbucket, Hcontent, Hnone. cbn [negb orb bool_decide].
    rewrite bool_decide_eq_false_2 by (by intros [? ?]).
    cbn [preparedS3MessageKey preparedSendParams preparedS3Content default].
    unfold id. rewrite (truthy_Some_ne _ Hkey). cbn [negb].
    fold key. fold outgoing. fold put. unfold told, completed.
    cbn [mint record clock setClock settledAt outcome promise].
    destruct (answer (putObjectReply (s3 this) put)) as [[] | fnErr];
      [destruct (answer (sendMessageReply (sqs this) outgoing)) |];
      (eexists; split; [reflexivity |]); reflexivity. }
  destruct Hrun as (p & Hrun & Hsame).
  unfold after. rewrite Hrun, Hsame. cbn [fst snd].
  split; [| split; [| split; [| done]]].
  - cbn [log record mint]. rewrite <- !app_assoc. done.
  - rewrite !uploads_record, events_mint, <- !app_assoc. cbn [app].
    unfold told.
    by destruct (answer (putObjectReply (s3 this) put)) as [[] | fnErr];
      [destruct (answer (sendMessageReply (sqs this) outgoing)) |].
  - rewrite !queueSends_record, events_mint, <- !app_assoc. cbn [app].
    unfold told.
    by destruct (answer (putObjectReply (s3 this) put)) as [[] | fnErr];
      [destruct (answer (sendMessageReply (sqs this) outgoing)) |].
Qed.

Lemma sendMessage_with_callback_runs_twice_witness :
  let this := new_SQSExtended testQueue failingStore alwaysOffload in
  let put := {| Bucket := Some "test-bucket"; Key := mockS3Key;
                Body := Some "small message body" |} in
  log (snd (Index.sendMessage this smallMessage (Some (Callback "done")) testWorld))
  = [(0, SqsSendMessage offloadedMessage); (0, S3PutObject put);
     (5, CallbackCall (Callback "done") (Some (ServiceError "AccessDenied")) TheRequest);
     (0, S3PutObject put)].
Proof.
  intros this put.
  apply (sendMessage_with_callback_runs_twice this smallMessage (Callback "done") testWorld);
    [reflexivity | reflexivity | reflexivity | discriminate].
Defined.

(** X9.  The async variant never reads StringValue of undefined.  When it
    uploads nothing (the message is not over the threshold and
    alwaysUseS3 is off, or the body is empty or absent, or the reserved
    attribute is there already), the message goes to the queue and
    nothing else happens.  Its body is the body given when the variant did
    not choose to offload (not over the threshold, alwaysUseS3 off) and
    that body is not empty; in every other case it is the string value of
    the reserved attribute, whatever the body given, and it is absent when
    there is no reserved attribute.  The promise returned is the answer
    of the queue. *)
Theorem async_sendMessage_passes_through (this : Part001.SQSExtended) params w :
  truthy (Part001.bucketName this) = true ->
  let useS3 :=
    Part001.alwaysUseS3 this || isLarge params (Some (Part001.messageSizeThreshold this)) in
  useS3 = false \/ truthy (MessageBody params) = false \/ is_Some (reservedAttribute params) ->
  let outgoing :=
    withMessageBody params
      (or_else (if useS3 then None else MessageBody params)
         (match reservedAttribute params with
          | Some attr => StringValue attr
          | None => None
          end)) in
  let sending := sendMessageReply (Part001.sqs this) outgoing in
  Part001.sendMessage this params w
  = (Normal {| settledAt := clock w + latency sending; outcome := answer sending |},
     record (clock w) (SqsSendMessage outgoing) w).
Proof.
  intros Hbucket useS3 Hpath outgoing sending.
  unfold Part001.sendMessage, Part001._prepareSend, Part001._storeS3Content,
    sqs_sendMessage, s3_putObject, dispatch, async, await, settle, emit, v4, bind, ret, throw.
  cbv zeta. fold useS3. unfold reservedAttribute in *. rewrite Hbucket. cbn [negb].
  cbn [s3Content messageBody].
  set (existing := match MessageAttributes params with
                    | Some attrs => attrs !! RESERVED_ATTRIBUTE_NAME
                    | None => None
                    end) in *.
  assert (negb (truthy (if useS3 then MessageBody params else None))
          || bool_decide (is_Some existing) = true) as ->.
  { destruct Hpath as [-> | [Hbody | Hexisting]]; [done | |].
    - destruct useS3; [by rewrite Hbody | done].
    - rewrite (bool_decide_eq_true_2 _ Hexisting). apply orb_true_r. }
  cbn [preparedS3MessageKey preparedSendParams preparedS3Content truthy andb].
  fold outgoing. fold sending. cbn [record clock setClock settledAt outcome].
  destruct (answer sending) as [result | e];
    (apply result_eq;
     [apply promise_eq; cbn; [lia | done] | apply world_eq; cbn; done]).
Qed.

Lemma async_sendMessage_passes_through_witness :
  let this := Part001.new_SQSExtended testQueue testStore
                {| Part001.optBucketName := Some "test-bucket";
                   Part001.optAlwaysUseS3 := None;
                   Part001.optMessageSizeThreshold := None |} in
  let empty := {| QueueUrl := Some "test-queue"; MessageBody := Some "";
                  MessageAttributes := None |} in
  Part001.sendMessage this empty testWorld
  = (Normal {| settledAt := 3; outcome := Fulfilled {| MessageId := Some "test message id" |} |},
     record 0 (SqsSendMessage {| QueueUrl := Some "test-queue"; MessageBody := None;
                                 MessageAttributes := None |}) testWorld).
Proof.
  intros this empty.
  apply (async_sendMessage_passes_through this empty testWorld);
    [reflexivity | left; reflexivity].
Defined.

(** With alwaysUseS3 and the reserved attribute already there, what goes
    to the queue is the string value of the attribute, not the body given. *)
Example async_sendMessage_always_with_reference :
  let this := Part001.new_SQSExtended testQueue testStore
                {| Part001.optBucketName := Some "test-bucket";
                   Part001.optAlwaysUseS3 := Some true;
                   Part001.optMessageSizeThreshold := None |} in
  events (snd (Part001.sendMessage this referencedMessage testWorld))
  = [SqsSendMessage {| QueueUrl := Some "test-queue";
                       MessageBody := Some "(test-bucket)1234-5678";
                       MessageAttributes := MessageAttributes referencedMessage |}].
Proof. vm_compute. done. Qed.

End SendPipelineMore.

(** ** More on the delete pipeline *)

Section DeletePipelineMore.

Implicit Types (this : SQSExtended) (params : DeleteMessageRequest) (w : World).

Lemma log_record t ev w : log (record t ev w) = log w ++ [(t, ev)].
Proof. reflexivity. Qed.

(** Without a bucket the deletion step returns null, and the send
    function fails on it at once. *)
Lemma delete_sendFn_without_bucket {R} this (request : Promise R) bucket key callback w :
  truthy bucket = false ->
  invokeFnBeforeRequest request (Index._deleteS3Content this bucket key) callback w
  = (Normal {| settledAt := clock w;
               outcome := Rejected (TypeError "Cannot read properties of null (reading 'then')") |},
     w).
Proof.
  intros Hbucket.
  unfold invokeFnBeforeRequest, Index._deleteS3Content, async, bind, ret, throw.
  rewrite Hbucket. cbn [negb]. by rewrite setClock_same.
Qed.

(** X10.  A receipt handle from which a key is extracted but no bucket
    (the key marker is there, the bucket marker is not, or nothing stands
    between the bucket markers): the request to delete goes to the queue,
    and the send function of the wrapped request, whenever it is run,
    rejects with a TypeError, the deletion step having returned null; the
    object store is not called, and a callback, given to deleteMessage or
    to the send function, is never called, not even with the error. *)
Theorem deleteMessage_key_without_bucket this params callback w :
  let handle := ReceiptHandle params in
  truthy (extractS3MessageKeyFromReceiptHandle handle) = true ->
  truthy (extractBucketNameFromReceiptHandle handle) = false ->
  let after := snd (Index.deleteMessage this params callback w) in
  exists wrapped,
    fst (Index.deleteMessage this params callback w) = Normal (TheWrappedRequest wrapped) /\
    events after
      = events w ++ [SqsDeleteMessage {| delQueueUrl := delQueueUrl params;
                                         ReceiptHandle := getOriginReceiptHandle handle |}] /\
    forall cb w1,
      promise wrapped cb w1
      = (Normal {| settledAt := clock w1;
                   outcome :=
                     Rejected (TypeError "Cannot read properties of null (reading 'then')") |},
         w1).
Proof.
  intros handle Hkey Hbucket after. unfold after.
  destruct callback as [cb |].
  - rewrite (deleteMessage_with_callback this params cb w Hkey). cbn [fst snd].
    eexists. split; [reflexivity |]. cbn [promise].
    cbn [preparedBucketName Index._prepareDelete]. fold handle.
    split.
    + rewrite delete_sendFn_without_bucket by done. cbn [snd]. by rewrite events_record.
    + intros cb' w1. by apply delete_sendFn_without_bucket.
  - rewrite (deleteMessage_wraps this params w Hkey). cbn [fst snd].
    eexists. split; [reflexivity |]. cbn [promise].
    cbn [preparedBucketName Index._prepareDelete]. fold handle.
    split; [by rewrite events_record |].
    intros cb' w1. by apply delete_sendFn_without_bucket.
Qed.

Lemma deleteMessage_key_without_bucket_witness :
  let params := {| delQueueUrl := Some "test-queue";
                   ReceiptHandle := "-..s3Key..-8765-4321-..s3Key..-receipthandle" |} in
  let this := new_SQSExtended testQueue testStore testOptions in
  exists wrapped,
    fst (Index.deleteMessage this params (Some (Callback "done")) testWorld)
      = Normal (TheWrappedRequest wrapped) /\
    events (snd (Index.deleteMessage this params (Some (Callback "done")) testWorld))
      = [SqsDeleteMessage {| delQueueUrl := Some "test-queue";
                             ReceiptHandle := "receipthandle" |}] /\
    forall cb w1,
      promise wrapped cb w1
      = (Normal {| settledAt := clock w1;
                   outcome :=
                     Rejected (TypeError "Cannot read properties of null (reading 'then')") |},
         w1).
Proof.
  intros params this.
  apply (deleteMessage_key_without_bucket this params (Some (Callback "done")) testWorld);
    reflexivity.
Defined.

(** X11.  deleteMessage of the async variant deletes from the queue first
    and from the store afterwards.  The request to the queue is dispatched
    at once, with the handle unwrapped.  If the queue refuses it, the
    promise rejects with the error of the queue and the object is left in
    the store.  If the queue accepts it and a key and a bucket were
    extracted from the handle, the deletion of the object is dispatched
    when the queue has answered; the promise then settles when the store
    has answered, to the answer of the queue, or to the error of the
    store.  Otherwise the store is not called. *)
Theorem async_deleteMessage_queue_first (this : Part001.SQSExtended) params w :
  let handle := ReceiptHandle params in
  let key := extractS3MessageKeyFromReceiptHandle handle in
  let bucket := extractBucketNameFromReceiptHandle handle in
  let unwrapped :=
    {| delQueueUrl := delQueueUrl params; ReceiptHandle := getOriginReceiptHandle handle |} in
  let object := {| Bucket := bucket; Key := default "" key; Body := None |} in
  let deleting := deleteMessageReply (Part001.sqs this) unwrapped in
  let cleaning := deleteObjectReply (Part001.s3 this) object in
  let answered := (clock w + latency deleting)%nat in
  let returned := fst (Part001.deleteMessage this params w) in
  let after := snd (Part001.deleteMessage this params w) in
  exists p,
    returned = Normal p /\
    match answer deleting with
    | Rejected e =>
        p = {| settledAt := answered; outcome := Rejected e |} /\
        log after = log w ++ [(clock w, SqsDeleteMessage unwrapped)]
    | Fulfilled result =>
        if truthy key && truthy bucket then
          p = {| settledAt := answered + latency cleaning;
                 outcome := match answer cleaning with
                            | Fulfilled _ => Fulfilled result
                            | Rejected e => Rejected e
                            end |} /\
          log after = log w ++ [(clock w, SqsDeleteMessage unwrapped);
                                (answered, S3DeleteObject object)]
        else
          p = {| settledAt := answered; outcome := Fulfilled result |} /\
          log after = log w ++ [(clock w, SqsDeleteMessage unwrapped)]
    end.
Proof.
  intros handle key bucket unwrapped object deleting cleaning answered returned after.
  unfold returned, after.
  unfold Part001.deleteMessage, Part001._prepareDelete, Part001._deleteS3Content,
    sqs_deleteMessage, s3_deleteObject, dispatch, async, await, settle, emit, bind, ret, throw.
  cbv zeta. cbn [preparedDeleteKey preparedBucketName deleteParams].
  fold handle. fold key. fold bucket. fold unwrapped. fold deleting.
  cbn [record clock setClock settledAt outcome log].
  destruct (answer deleting) as [result | e].
  - destruct (truthy key); cbn [andb].
    + destruct (truthy bucket); cbn [negb].
      * fold object. fold cleaning.
        cbn [record clock setClock settledAt outcome log fst snd].
        destruct (answer cleaning) as [[] | e];
          (eexists; split; [reflexivity |]);
          cbn [record clock setClock settledAt outcome log fst snd];
          rewrite <- app_assoc; cbn [app];
          (split; [apply promise_eq; cbn; [unfold answered; lia | done] |]);
          repeat f_equal; unfold answered; lia.
      * eexists. split; [reflexivity |].
        cbn [record clock setClock settledAt outcome log fst snd].
        split; [apply promise_eq; cbn; [unfold answered; lia | done] | done].
    + eexists. split; [reflexivity |].
      cbn [record clock setClock settledAt outcome log fst snd].
      split; [apply promise_eq; cbn; [unfold answered; lia | done] | done].
  - eexists. split; [reflexivity |].
    cbn [record clock setClock settledAt outcome log fst snd].
    split; [apply promise_eq; cbn; [unfold answered; lia | done] | done].
Qed.

End DeletePipelineMore.

(** ** More on the receive pipeline *)

Section ReceivePipelineMore.

Implicit Types (this : SQSExtended) (w : World) (m : Message.t) (r : SQSRecord).

(** A message that is not offloaded, taken alone. *)
Lemma processedMessage_plain this m :
  truthy (referenceToken m) = false ->
  processedMessage this m
  = {| latency := 0; answer := Fulfilled (withBody m (receiveTransform this m None)) |}.
Proof.
  intros Hplain. unfold processedMessage, fetchFor, getS3MessageKeyAndBucket.
  rewrite Hplain. reflexivity.
Qed.

Lemma fetchLog_plain t (batch : list Message.t) :
  Forall (fun m => truthy (referenceToken m) = false) batch ->
  fetchLog t (referenceToken <$> batch) = [].
Proof.
  induction 1 as [|m batch Hm _ IH]; [done |].
  rewrite fmap_cons, fetchLog_cons, IH, app_nil_r.
  unfold fetchLog, fetchFor, getS3MessageKeyAndBucket. cbn. by rewrite Hm.
Qed.

Lemma withBody_same m : withBody m (Message.Body m) = m.
Proof. by destruct m. Qed.

(** X12.  When the queue has no batch to give, nothing is fetched and no
    message is touched.  receiveMessage asks the queue once, for the
    attributes the caller named and the reserved one.  If the queue
    refuses, the promise rejects with the error of the queue, and a
    callback is called once, with that error and nothing else; if the
    queue answers without messages, the promise fulfils with the answer,
    and a callback is called once, with the answer. *)
Theorem receiveMessage_without_batch this params callback w :
  let modifiedParams :=
    {| rcvQueueUrl := rcvQueueUrl params;
       MessageAttributeNames :=
         Some (default [] (MessageAttributeNames params) ++ [RESERVED_ATTRIBUTE_NAME]) |} in
  let reply := receiveMessageReply (sqs this) modifiedParams in
  let received := (clock w + latency reply)%nat in
  let asked := record (clock w) (SqsReceiveMessage modifiedParams) w in
  let told err data :=
    match callback with
    | Some cb => record received (CallbackCall cb err data) asked
    | None => asked
    end in
  (forall e, answer reply = Rejected e ->
     Index.receiveMessage this params callback w
     = (Normal {| settledAt := received; outcome := Rejected e |}, told (Some e) NoData)) /\
  (answer reply = Fulfilled None ->
   Index.receiveMessage this params callback w
   = (Normal {| settledAt := received; outcome := Fulfilled (Some {| Messages := None |}) |},
      told None TheResponse)).
Proof.
  intros modifiedParams reply received asked told. split.
  - intros e Hreply.
    unfold Index.receiveMessage, wrapRequest, invokeFnAfterRequest, Index._processReceive,
      sqs_receiveMessage. fold modifiedParams. fold reply.
    unfold async, settle, tryCatch, emit, bind, ret, throw. rewrite Hreply.
    cbn [settledAt outcome clock record setClock promise].
    unfold told, asked.
    destruct callback as [cb |]; cbn [settledAt outcome clock record setClock promise];
      (apply result_eq;
       [apply promise_eq; cbn; [unfold received; lia | done]
       | apply world_eq; cbn; try done; repeat f_equal; unfold received; lia]).
  - intros Hreply.
    unfold Index.receiveMessage, wrapRequest, invokeFnAfterRequest, Index._processReceive,
      sqs_receiveMessage. fold modifiedParams. fold reply.
    unfold async, settle, tryCatch, promiseAll, emit, bind, ret, throw. rewrite Hreply.
    cbn [settledAt outcome clock record setClock promise Messages default mapM firstRejection
         fmap list_fmap foldr].
    unfold ret. unfold told, asked.
    destruct callback as [cb |];
      cbn [settledAt outcome clock record setClock promise Messages default mapM
           firstRejection fmap list_fmap foldr];
      (apply result_eq;
       [apply promise_eq; cbn; [unfold received; lia | done]
       | apply world_eq; cbn; try done; repeat f_equal; unfold received; lia]).
Qed.

Lemma receiveMessage_without_batch_witness :
  Index.receiveMessage (new_SQSExtended failingQueue testStore testOptions)
    receiveParams (Some (Callback "done")) testWorld
  = (Normal {| settledAt := 1; outcome := Rejected (ServiceError "ServiceUnavailable") |},
     record 1 (CallbackCall (Callback "done") (Some (ServiceError "ServiceUnavailable")) NoData)
       (record 0 (SqsReceiveMessage
                    {| rcvQueueUrl := Some "test-queue";
                       MessageAttributeNames := Some ["MessageAttribute"; "S3MessageBodyKey"] |})
          testWorld)) /\
  Index.receiveMessage (new_SQSExtended testQueue testStore testOptions)
    receiveParams None testWorld
  = (Normal {| settledAt := 1; outcome := Fulfilled (Some {| Messages := None |}) |},
     record 0 (SqsReceiveMessage
                 {| rcvQueueUrl := Some "test-queue";
                    MessageAttributeNames := Some ["MessageAttribute"; "S3MessageBodyKey"] |})
       testWorld).
Proof.
  split.
  - apply (proj1 (receiveMessage_without_batch
                    (new_SQSExtended failingQueue testStore testOptions)
                    receiveParams (Some (Callback "done")) testWorld)).
    reflexivity.
  - apply (proj2 (receiveMessage_without_batch
                    (new_SQSExtended testQueue testStore testOptions)
                    receiveParams None testWorld)).
    reflexivity.
Defined.

(** X13.  A batch in which no message bears a reference (the reserved
    attribute is absent, or its string value is empty) costs no fetch:
    every message gets as its body what the receive transform makes of it
    without content, its receipt handle and attributes as they were, and
    the promise fulfils with the batch.  With the default receive
    transform the messages come back exactly as the queue gave them. *)
Theorem receiveMessage_plain_batch this params w batch :
  let modifiedParams :=
    {| rcvQueueUrl := rcvQueueUrl params;
       MessageAttributeNames :=
         Some (default [] (MessageAttributeNames params) ++ [RESERVED_ATTRIBUTE_NAME]) |} in
  let after := snd (Index.receiveMessage this params None w) in
  answer (receiveMessageReply (sqs this) modifiedParams) = Fulfilled (Some batch) ->
  Forall (fun m => truthy (referenceToken m) = false) batch ->
  (exists p,
     fst (Index.receiveMessage this params None w) = Normal p /\
     outcome p = Fulfilled (Some {| Messages := Some (seq (List.length (messages w))
                                                          (List.length batch)) |})) /\
  events after = events w ++ [SqsReceiveMessage modifiedParams] /\
  messages after
    = messages w ++ ((fun m => withBody m (receiveTransform this m None)) <$> batch) /\
  (receiveTransform this = defaultReceiveTransform -> messages after = messages w ++ batch).
Proof.
  intros modifiedParams after Hreply Hplain.
  destruct (receiveMessage_batch this params w batch Hreply) as (p & Hrun & Hp).
  fold modifiedParams in Hrun, Hp.
  assert (Hsettled : (fun m => settled m (processedMessage this m)) <$> batch
            = (fun m => withBody m (receiveTransform this m None)) <$> batch).
  { apply Forall_fmap_ext_1. eapply Forall_impl; [exact Hplain |].
    intros m Hm. cbn beta. by rewrite processedMessage_plain. }
  assert (Hnone : firstRejection
            (processing (clock w + latency (receiveMessageReply (sqs this) modifiedParams))
             <$> (processedMessage this <$> batch)) = None).
  { apply batch_promise. intros m Hm.
    rewrite processedMessage_plain by (by eapply (proj1 (Forall_forall _ _) Hplain)).
    eauto. }
  rewrite Hnone in Hp.
  unfold after. rewrite Hrun. cbn [fst snd messages].
  rewrite Hsettled. split; [eauto |]. split; [| split; [done |]].
  - unfold events. cbn [log]. rewrite fetchLog_plain by done. by rewrite fmap_app.
  - intros Hdefault. f_equal. rewrite <- (list_fmap_id batch) at 2.
    apply Forall_fmap_ext_1. eapply Forall_impl; [exact Hplain |].
    intros m _. cbn beta. rewrite Hdefault. unfold defaultReceiveTransform, or_else.
    cbn [truthy]. apply withBody_same.
Qed.

Lemma receiveMessage_plain_batch_witness :
  messages (snd (Index.receiveMessage
                   (new_SQSExtended (queueWith [plainMessage; plainMessage]) testStore testOptions)
                   receiveParams None testWorld))
  = [plainMessage; plainMessage].
Proof.
  apply (receiveMessage_plain_batch
           (new_SQSExtended (queueWith [plainMessage; plainMessage]) testStore testOptions)
           receiveParams testWorld [plainMessage; plainMessage]);
    [reflexivity | repeat constructor | reflexivity].
Defined.

(** X14.  With the default receive transform, a message of the batch
    whose reference decodes to a bucket and a key, and whose object the
    store returns, comes back with the content of the object as its body
    (with the body the queue gave when the content is empty) and with the
    bucket, the key and its receipt handle wrapped into the receipt
    handle; its attributes are as they were.  This holds whatever becomes
    of the other messages of the batch. *)
Theorem receiveMessage_offloaded_message this params w batch i m bucket key content :
  let modifiedParams :=
    {| rcvQueueUrl := rcvQueueUrl params;
       MessageAttributeNames :=
         Some (default [] (MessageAttributeNames params) ++ [RESERVED_ATTRIBUTE_NAME]) |} in
  let object := {| Bucket := Some bucket; Key := key; Body := None |} in
  let after := snd (Index.receiveMessage this params None w) in
  receiveTransform this = defaultReceiveTransform ->
  answer (receiveMessageReply (sqs this) modifiedParams) = Fulfilled (Some batch) ->
  batch !! i = Some m ->
  fetchFor (referenceToken m) = Some object ->
  answer (getObjectReply (s3 this) object) = Fulfilled content ->
  object ∈ fetches (events after) /\
  messages after !! (List.length (messages w) + i)%nat
  = Some {| Message.Body := if String.eqb content "" then Message.Body m else Some content;
            Message.ReceiptHandle :=
              Some (embedS3MarkersInReceiptHandle bucket key (Message.ReceiptHandle m));
            Message.MessageAttributes := Message.MessageAttributes m |}.
Proof.
  intros modifiedParams object after Hdefault Hreply Hi Hfetch Hcontent.
  destruct (receiveMessage_batch this params w batch Hreply) as (p & Hrun & _).
  fold modifiedParams in Hrun. unfold after. rewrite Hrun. cbn [snd messages].
  split.
  - match goal with
    | |- _ ∈ fetches (events ?after) =>
        assert (fetches (events after)
                = fetches (events w) ++ omap fetchFor (referenceToken <$> batch)) as ->
    end.
    { unfold events at 1. cbn [log]. rewrite fmap_app, fmap_cons. cbn [snd].
      unfold fetches at 1. rewrite omap_app. cbn [omap]. fold (fetches (events w)).
      f_equal. apply fetches_fetchLog. }
    apply elem_of_app. right. apply list_elem_of_omap.
    exists (referenceToken m). split; [| done].
    apply list_elem_of_fmap. exists m. split; [done |]. by eapply list_elem_of_lookup_2.
  - rewrite lookup_app_r by lia.
    replace (List.length (messages w) + i - List.length (messages w))%nat with i by lia.
    rewrite list_lookup_fmap, Hi. cbn [fmap option_fmap option_map]. f_equal.
    unfold processedMessage. rewrite Hfetch.
    destruct (getS3MessageKeyAndBucket (referenceToken m)) as [reference | e] eqn:E.
    + fold object. rewrite Hcontent. unfold settled. cbn [answer Bucket Key default].
      rewrite Hdefault. unfold defaultReceiveTransform, or_else, truthy, withReceiptHandle,
        withBody. cbn [Message.Body Message.ReceiptHandle Message.MessageAttributes].
      unfold id. by destruct (String.eqb content "").
    + unfold fetchFor in Hfetch. by rewrite E in Hfetch.
Qed.

Lemma receiveMessage_offloaded_message_witness :
  let this := new_SQSExtended (queueWith [missingMessage; storedMessage]) flakyStore testOptions in
  messages (snd (Index.receiveMessage this receiveParams None testWorld)) !! 1%nat
  = Some {| Message.Body := Some "message body";
            Message.ReceiptHandle :=
              Some (embedS3MarkersInReceiptHandle "test-bucket" "8765-4321"
                      (Some "receipthandle"));
            Message.MessageAttributes := Message.MessageAttributes storedMessage |}.
Proof.
  intros this.
  apply (receiveMessage_offloaded_message this receiveParams testWorld
           [missingMessage; storedMessage] 1 storedMessage "test-bucket" "8765-4321"
           "message body"); reflexivity.
Defined.

(** One record of an event that succeeded, and the whole event. *)
Lemma succeedRecord_async this i r w :
  records w !! i = Some r ->
  async (Index.succeedRecord this i) w =
    (Normal (processing (clock w) (succeededRecord (s3 this) r)),
     {| clock := clock w;
        log := log w ++ cleanupLog (clock w) [recordToken r];
        uuids := uuids w; minted := minted w;
        messages := messages w;
        records := records w |}).
Proof.
  intros Hr.
  assert (Hlog : cleanupLog (clock w) [recordToken r]
                 = match cleanupFor (recordToken r) with
                   | Some object => [(clock w, S3DeleteObject object)]
                   | None => []
                   end).
  { unfold cleanupLog. cbn. by destruct (cleanupFor (recordToken r)). }
  rewrite Hlog. clear Hlog.
  unfold Index.succeedRecord, Index._deleteS3Content, succeededRecord, cleanupFor, fetchFor,
    processing.
  unfold async at 1, bind at 1, readRecord at 1. rewrite Hr.
  change (match messageAttributes r with
          | Some attrs => match attrs !! S3_MESSAGE_BODY_KEY with
                          | Some attr => stringValue attr
                          | None => None
                          end
          | None => None
          end) with (recordToken r).
  unfold bind at 1, lift at 1.
  destruct (getS3MessageKeyAndBucket (recordToken r)) as [reference | e].
  - destruct (truthy (refS3MessageKey reference)).
    + cbn [Bucket]. destruct (truthy (refBucketName reference)); cbn [negb].
      * unfold await, settle, s3_deleteObject, dispatch, emit, bind, ret, throw.
        cbn [record clock log setClock records settledAt outcome fst snd].
        set (deleting := deleteObjectReply (s3 this) _).
        cbn [answer latency].
        destruct (answer deleting) as [[] | e];
          cbn [record clock log setClock records settledAt outcome fst snd];
          (apply result_eq; [apply promise_eq; cbn; [lia | done] |]);
          apply world_eq; cbn; done.
      * unfold bind, ret. cbn [answer latency].
        apply result_eq; [apply promise_eq; cbn; [lia | done] |].
        apply world_eq; cbn; try done. by rewrite app_nil_r.
    + unfold ret. cbn [answer latency].
      apply result_eq; [apply promise_eq; cbn; [lia | done] |].
      apply world_eq; cbn; try done. by rewrite app_nil_r.
  - cbn [answer latency].
    apply result_eq; [apply promise_eq; cbn; [lia | done] |].
    apply world_eq; cbn; try done. by rewrite app_nil_r.
Qed.

Lemma cleanupLog_cons t token tokens :
  cleanupLog t (token :: tokens) = cleanupLog t [token] ++ cleanupLog t tokens.
Proof. unfold cleanupLog. cbn. by destruct (cleanupFor token). Qed.

Lemma succeedRecords_batch this pre todo w :
  records w = pre ++ todo ->
  mapM (fun record => async (Index.succeedRecord this record))
    (seq (List.length pre) (List.length todo)) w =
    (Normal (processing (clock w) <$> (succeededRecord (s3 this) <$> todo)),
     {| clock := clock w;
        log := log w ++ cleanupLog (clock w) (recordToken <$> todo);
        uuids := uuids w; minted := minted w;
        messages := messages w;
        records := records w |}).
Proof.
  revert pre w. induction todo as [|r todo IH]; intros pre w Hw.
  - cbn. unfold ret. apply result_eq; [done |].
    apply world_eq; cbn; rewrite ?app_nil_r; done.
  - cbn [List.length seq mapM]. unfold bind at 1.
    rewrite (succeedRecord_async this (List.length pre) r w)
      by (rewrite Hw; by apply list_lookup_middle).
    set (w1 := {| clock := clock w; log := _; records := _ |}).
    assert (Hw1 : records w1 = (pre ++ [r]) ++ todo).
    { unfold w1. cbn [records]. rewrite Hw. by rewrite <- app_assoc. }
    specialize (IH _ w1 Hw1). rewrite length_app, Nat.add_1_r in IH.
    unfold bind at 1. rewrite IH. unfold ret.
    apply result_eq; [done |].
    apply world_eq; unfold w1; cbn [clock log uuids minted messages records]; try done.
    by rewrite fmap_cons,
      (cleanupLog_cons _ (recordToken r) (recordToken <$> todo)), app_assoc.
Qed.

Lemma objectDeletes_cleanupLog t tokens :
  objectDeletes (cleanupLog t tokens).*2 = omap cleanupFor tokens.
Proof.
  induction tokens as [|token tokens IH]; [done |].
  rewrite cleanupLog_cons, fmap_app. unfold objectDeletes in *. rewrite omap_app, IH.
  unfold cleanupLog. cbn. by destruct (cleanupFor token).
Qed.

(** X15.  eventSucceeded asks the object store, at once, to delete the
    object of every record of the event whose reference decodes to a key
    and a bucket that is not empty, in the order of the records, and asks
    for nothing else; it fetches nothing and leaves the records and the
    messages as they are.  When no record fails, its promise fulfils when
    the last record has been dealt with: at the latest of the times at
    which the deletions are answered, and not before the call.  It
    rejects with the first failure (a reference that does not decode, a
    deletion the store refuses), at the time of that failure. *)
Theorem eventSucceeded_deletes_objects this event w batch :
  let after := snd (Index.eventSucceeded this event w) in
  records w = batch ->
  Records event = seq 0 (List.length batch) ->
  exists p,
    fst (Index.eventSucceeded this event w) = Normal p /\
    log after = log w ++ cleanupLog (clock w) (recordToken <$> batch) /\
    objectDeletes (events after)
      = objectDeletes (events w) ++ omap cleanupFor (recordToken <$> batch) /\
    records after = batch /\ messages after = messages w /\ clock after = clock w /\
    (forall failing e,
       failing ∈ batch -> answer (succeededRecord (s3 this) failing) = Rejected e ->
       exists first e',
         first ∈ batch /\ answer (succeededRecord (s3 this) first) = Rejected e' /\
         outcome p = Rejected e' /\
         settledAt p = (clock w + latency (succeededRecord (s3 this) first))%nat /\
         (settledAt p <= clock w + latency (succeededRecord (s3 this) failing))%nat) /\
    ((forall r, r ∈ batch ->
        exists same, answer (succeededRecord (s3 this) r) = Fulfilled same) ->
     (exists done, outcome p = Fulfilled done) /\
     settledAt p
     = foldr Nat.max (clock w)
         ((fun r => (clock w + latency (succeededRecord (s3 this) r))%nat) <$> batch)).
Proof.
  intros after Hw Hevent.
  pose proof (succeedRecords_batch this [] batch w Hw) as Hbatch.
  change (List.length (@nil SQSRecord)) with 0%nat in Hbatch.
  unfold after, Index.eventSucceeded, bind. rewrite Hevent, Hbatch.
  unfold promiseAll. cbn [clock fst snd log records messages].
  set (promises := processing (clock w) <$> (succeededRecord (s3 this) <$> batch)).
  destruct (batch_promise (succeededRecord (s3 this)) batch (clock w)) as [Hfail Hok].
  fold promises in Hfail, Hok.
  eexists. split; [reflexivity |]. split; [done |]. split.
  { unfold events at 1. cbn [log]. rewrite fmap_app.
    unfold objectDeletes at 1. rewrite omap_app. fold (objectDeletes (events w)).
    f_equal. apply objectDeletes_cleanupLog. }
  split; [done |]. split; [done |]. split; [done |]. split.
  - intros failing e Hin Hrejected.
    destruct (Hfail failing e Hin Hrejected) as (first & e' & t' & ? & ? & Hfirst & -> & ?).
    rewrite Hfirst. cbn [outcome settledAt].
    exists first, e'. split; [done |]. split; [done |]. split; [done |]. lia.
  - intros Hall. rewrite (Hok Hall). cbn [outcome settledAt]. split; [eauto |].
    unfold promises. by rewrite <- !list_fmap_compose.
Qed.

Lemma eventSucceeded_deletes_objects_witness :
  let this := new_SQSExtended testQueue testStore testOptions in
  let batch := [storedRecord; missingRecord] in
  log (snd (Index.eventSucceeded this (eventOf batch) (worldWith batch)))
  = [(0, S3DeleteObject {| Bucket := Some "test-bucket"; Key := "8765-4321"; Body := None |});
     (0, S3DeleteObject {| Bucket := Some "test-bucket"; Key := "missing"; Body := None |})] /\
  exists p,
    fst (Index.eventSucceeded this (eventOf batch) (worldWith batch)) = Normal p /\
    settledAt p = 1%nat.
Proof.
  intros this batch.
  destruct (eventSucceeded_deletes_objects this (eventOf batch) (worldWith batch) batch
              eq_refl eq_refl) as (p & Hp & Hlog & _ & _ & _ & _ & _ & Hok).
  split; [exact Hlog |]. exists p. split; [exact Hp |].
  destruct Hok as [_ Htime]; [| exact Htime].
  intros r Hr. apply list_elem_of_In in Hr. simpl in Hr.
  destruct Hr as [<- | [<- | []]]; eexists; reflexivity.
Defined.

(** X16.  checkEvent changes nothing of a record but its body, and its
    body only to the content, not empty, fetched from the object the
    reference of that record names; the records stay in their places, and
    no message is touched.  A record without a reference, one whose
    reference does not decode, one whose object the store does not
    return, and one whose object is empty keep the body they had. *)
Theorem checkEvent_rewrites_body_only this event w batch :
  let after := snd (Index.checkEvent this event w) in
  records w = batch ->
  Records event = seq 0 (List.length batch) ->
  List.length (records after) = List.length batch /\
  messages after = messages w /\
  forall i r, batch !! i = Some r ->
    exists rewritten,
      records after !! i = Some rewritten /\
      receiptHandle rewritten = receiptHandle r /\
      messageAttributes rewritten = messageAttributes r /\
      (body rewritten = body r \/
       exists object content,
         fetchFor (recordToken r) = Some object /\
         answer (getObjectReply (s3 this) object) = Fulfilled content /\
         content <> "" /\ body rewritten = Some content).
Proof.
  intros after Hw Hevent.
  destruct (checkEvent_batch this event [] batch w Hw Hevent) as (p & Hrun & _).
  unfold after. rewrite Hrun. cbn [snd records messages app].
  split; [by rewrite length_fmap |]. split; [done |].
  intros i r Hi. rewrite list_lookup_fmap, Hi. cbn [fmap option_fmap option_map].
  eexists. split; [reflexivity |].
  unfold processedRecord, settled.
  destruct (getS3MessageKeyAndBucket (recordToken r)) as [reference | e]; [| by auto].
  destruct (fetchFor (recordToken r)) as [object |]; [| by auto].
  cbn [answer].
  destruct (answer (getObjectReply (s3 this) object)) as [content | e] eqn:Econtent;
    [| by auto].
  cbn [body receiptHandle messageAttributes]. split; [done |]. split; [done |].
  unfold or_else, truthy. destruct (String.eqb_spec content ""); cbn [negb]; [by left |].
  right. exists object, content. done.
Qed.

Lemma checkEvent_rewrites_body_only_witness :
  let this := new_SQSExtended testQueue flakyStore testOptions in
  let batch := [storedRecord; missingRecord] in
  exists rewritten,
    records (snd (Index.checkEvent this (eventOf batch) (worldWith batch))) !! 1%nat
      = Some rewritten /\
    receiptHandle rewritten = Some "otherhandle" /\
    messageAttributes rewritten = messageAttributes missingRecord.
Proof.
  intros this batch.
  destruct (checkEvent_rewrites_body_only this (eventOf batch) (worldWith batch) batch
              eq_refl eq_refl) as (_ & _ & Hrecords).
  destruct (Hrecords 1%nat missingRecord eq_refl) as (rewritten & H1 & H2 & H3 & _).
  exists rewritten. split; [exact H1 |]. split; [exact H2 | exact H3].
Defined.

End ReceivePipelineMore.

(** ** The async variant: receiving, and the events *)

Section AsyncVariant.

Implicit Types (this : SQSExtended) (variant : Part001.SQSExtended) (w : World)
  (m : Message.t) (r : SQSRecord).

Lemma mapM_ext {A B} (f g : A -> M B) (xs : list A) :
  (forall x w, f x w = g x w) -> forall w, mapM f xs w = mapM g xs w.
Proof.
  intros Hfg. induction xs as [|x xs IH]; intros w; [done |].
  cbn [mapM]. unfold bind. rewrite Hfg. destruct (g x w) as [[y | e] w1]; [| done].
  rewrite IH. done.
Qed.

Lemma async_ext {A} (body1 body2 : M A) w : body1 w = body2 w -> async body1 w = async body2 w.
Proof. unfold async. by intros ->. Qed.

(** The promises of async functions started one after the other: the
    caller has them all in hand at the time it started. *)
Lemma mapM_async_returns {A B} (body : A -> M B) (xs : list A) w :
  exists ps w1, mapM (fun x => async (body x)) xs w = (Normal ps, w1) /\ clock w1 = clock w.
Proof.
  revert w. induction xs as [|x xs IH]; intros w.
  - by exists [], w.
  - cbn [mapM]. unfold bind at 1. unfold async at 1.
    destruct (body x w) as [c w'].
    destruct (IH (setClock (clock w) w')) as (ps & w1 & Hrun & Hclock).
    unfold bind at 1. rewrite Hrun. unfold ret. eexists _, _. split; [reflexivity |].
    by rewrite Hclock.
Qed.

Lemma foldr_max_le (c : nat) (ts : list nat) : (c <= foldr Nat.max c ts)%nat.
Proof. induction ts as [|t ts IH]; simpl; lia. Qed.

(** Waiting, in an async function, for the promise of [Promise.all] and
    returning what it gives is the promise itself. *)
Lemma async_await_all {B} (start : M (list (Promise B))) w :
  (exists ps w1, start w = (Normal ps, w1) /\ clock w1 = clock w) ->
  async (started <- start ;; all <- promiseAll started ;; await all) w
  = (started <- start ;; promiseAll started) w.
Proof.
  intros (ps & w1 & Hrun & Hclock).
  unfold async, bind. rewrite Hrun. unfold promiseAll, await, settle, bind, ret, throw.
  pose proof (foldr_max_le (clock w1) (settledAt <$> ps)) as Hle.
  destruct (firstRejection ps) as [[t e] |];
    cbn [outcome settledAt clock setClock].
  - apply result_eq; [apply promise_eq; cbn; [lia | done] |].
    apply world_eq; cbn; done.
  - apply result_eq; [apply promise_eq; cbn; [lia | done] |].
    apply world_eq; cbn; done.
Qed.

Lemma async_checkRecord this variant i w :
  Part001.s3 variant = s3 this ->
  Part001.checkRecord variant i w = Index.checkRecord this i w.
Proof.
  intros Hs3. unfold Part001.checkRecord, Index.checkRecord,
    Part001._getS3Content, Index._getS3Content. by rewrite Hs3.
Qed.

Lemma async_succeedRecord this variant i w :
  Part001.s3 variant = s3 this ->
  Part001.succeedRecord variant i w = Index.succeedRecord this i w.
Proof.
  intros Hs3. unfold Part001.succeedRecord, Index.succeedRecord,
    Part001._deleteS3Content, Index._deleteS3Content. rewrite Hs3.
  unfold bind, lift, readRecord.
  destruct (records w !! i) as [read |]; [| done].
  destruct (getS3MessageKeyAndBucket _) as [reference | e]; [| done].
  destruct (truthy (refS3MessageKey reference)); [| done].
  destruct (truthy (refBucketName reference)); cbn [negb].
  - unfold async, await, settle, s3_deleteObject, dispatch, emit, bind, ret, throw.
    cbn [record clock log setClock settledAt outcome].
    set (deleting := deleteObjectReply (s3 this) _).
    destruct (answer deleting) as [[] | e];
      cbn [record clock log setClock settledAt outcome].
    + apply result_eq; [done |]. apply world_eq; cbn; try done. lia.
    + f_equal. apply world_eq; cbn; try done. lia.
  - unfold async, await, settle, bind, ret.
    cbn [clock setClock settledAt outcome].
    apply result_eq; [done |]. apply world_eq; cbn; try done. lia.
Qed.

(** X17.  On the events of a Lambda the two variants of the class do the
    same: with the same object store, checkEvent of the async variant
    returns the promise and leaves the world that checkEvent of
    src/index.ts does, and so does eventSucceeded. *)
Theorem async_event_methods_agree this variant event w :
  Part001.s3 variant = s3 this ->
  Part001.checkEvent variant event w = Index.checkEvent this event w /\
  Part001.eventSucceeded variant event w = Index.eventSucceeded this event w.
Proof.
  intros Hs3. split.
  - unfold Part001.checkEvent, Index.checkEvent.
    rewrite (async_ext _ (checking <- mapM (fun record => async (Index.checkRecord this record))
                                        (Records event) ;;
                          all <- promiseAll checking ;; await all)).
    + apply async_await_all, mapM_async_returns.
    + unfold bind.
      rewrite (mapM_ext _ (fun record => async (Index.checkRecord this record))); [done |].
      intros i w1. apply async_ext. by apply async_checkRecord.
  - unfold Part001.eventSucceeded, Index.eventSucceeded.
    rewrite (async_ext _ (succeeding <- mapM (fun record =>
                                                async (Index.succeedRecord this record))
                                          (Records event) ;;
                          all <- promiseAll succeeding ;; await all)).
    + apply async_await_all, mapM_async_returns.
    + unfold bind.
      rewrite (mapM_ext _ (fun record => async (Index.succeedRecord this record))); [done |].
      intros i w1. apply async_ext. by apply async_succeedRecord.
Qed.

Lemma async_event_methods_agree_witness :
  let this := new_SQSExtended testQueue flakyStore testOptions in
  let variant := Part001.new_SQSExtended testQueue flakyStore
                   {| Part001.optBucketName := Some "test-bucket";
                      Part001.optAlwaysUseS3 := None;
                      Part001.optMessageSizeThreshold := None |} in
  let batch := [storedRecord; missingRecord] in
  Part001.checkEvent variant (eventOf batch) (worldWith batch)
    = Index.checkEvent this (eventOf batch) (worldWith batch) /\
  Part001.eventSucceeded variant (eventOf batch) (worldWith batch)
    = Index.eventSucceeded this (eventOf batch) (worldWith batch).
Proof.
  intros this variant batch.
  apply (async_event_methods_agree this variant (eventOf batch) (worldWith batch)).
  reflexivity.
Defined.

(** One message of the batch, in the async variant. *)
Lemma async_processMessage variant i m w :
  messages w !! i = Some m ->
  async (Part001.processMessage variant i) w =
    (Normal (processing (clock w) (receivedMessage (Part001.s3 variant) m)),
     {| clock := clock w;
        log := log w ++ fetchLog (clock w) [referenceToken m];
        uuids := uuids w; minted := minted w;
        messages := <[i := settled m (receivedMessage (Part001.s3 variant) m)]> (messages w);
        records := records w |}).
Proof.
  intros Hm.
  assert (Hi : (i < List.length (messages w))%nat) by (by eapply lookup_lt_Some).
  assert (Hlog : fetchLog (clock w) [referenceToken m]
                 = match fetchFor (referenceToken m) with
                   | Some object => [(clock w, S3GetObject object)]
                   | None => []
                   end).
  { unfold fetchLog. cbn. by destruct (fetchFor (referenceToken m)). }
  rewrite Hlog. clear Hlog.
  unfold Part001.processMessage, Part001._getS3Content, receivedMessage, fetchFor,
    processing, settled.
  unfold async at 1, bind at 1, readMessage at 1. rewrite Hm.
  change (match Message.MessageAttributes m with
          | Some attrs => match attrs !! S3_MESSAGE_BODY_KEY with
                          | Some attr => StringValue attr
                          | None => None
                          end
          | None => None
          end) with (referenceToken m).
  unfold bind at 1, lift at 1.
  destruct (getS3MessageKeyAndBucket (referenceToken m)) as [reference | e].
  - destruct (truthy (refS3MessageKey reference)).
    + unfold async, await, settle, s3_getObject, dispatch, emit, bind, ret, throw,
        readMessage, writeMessage.
      cbn [record clock log setClock messages settledAt outcome fst snd].
      set (fetching := getObjectReply (Part001.s3 variant) _).
      cbn [answer latency Bucket Key].
      destruct (answer fetching) as [content | e];
        cbn [record clock log setClock messages settledAt outcome fst snd].
      * rewrite Hm.
        cbn [record clock log setClock messages settledAt outcome fst snd].
        rewrite list_lookup_insert_eq by done.
        cbn [record clock log setClock messages settledAt outcome fst snd].
        rewrite list_insert_insert_eq.
        apply result_eq; [apply promise_eq; cbn; [lia | done] |].
        apply world_eq; cbn; done.
      * rewrite list_insert_id by done.
        apply result_eq; [apply promise_eq; cbn; [lia | done] |].
        apply world_eq; cbn; done.
    + unfold ret. cbn [answer latency]. rewrite list_insert_id by done.
      apply result_eq; [apply promise_eq; cbn; [lia | done] |].
      apply world_eq; cbn; try done. by rewrite app_nil_r.
  - cbn [answer latency].
    rewrite list_insert_id by done.
    apply result_eq; [apply promise_eq; cbn; [lia | done] |].
    apply world_eq; cbn; try done. by rewrite app_nil_r.
Qed.

Lemma async_processMessages variant pre todo w :
  messages w = pre ++ todo ->
  mapM (fun message => async (Part001.processMessage variant message))
    (seq (List.length pre) (List.length todo)) w =
    (Normal (processing (clock w) <$> (receivedMessage (Part001.s3 variant) <$> todo)),
     {| clock := clock w;
        log := log w ++ fetchLog (clock w) (referenceToken <$> todo);
        uuids := uuids w; minted := minted w;
        messages :=
          pre ++ ((fun m => settled m (receivedMessage (Part001.s3 variant) m)) <$> todo);
        records := records w |}).
Proof.
  revert pre w. induction todo as [|m todo IH]; intros pre w Hw.
  - rewrite app_nil_r in Hw. cbn. unfold ret. apply result_eq; [done |].
    apply world_eq; cbn; rewrite ?app_nil_r; done.
  - cbn [List.length seq mapM]. unfold bind at 1.
    rewrite (async_processMessage variant (List.length pre) m w)
      by (rewrite Hw; by apply list_lookup_middle).
    set (w1 := {| clock := clock w; log := _; messages := _ |}).
    assert (Hw1 : messages w1
                  = (pre ++ [settled m (receivedMessage (Part001.s3 variant) m)]) ++ todo).
    { unfold w1. cbn [messages]. rewrite Hw.
      rewrite insert_app_r_alt, Nat.sub_diag by lia. cbn. by rewrite <- app_assoc. }
    specialize (IH _ w1 Hw1). rewrite length_app, Nat.add_1_r in IH.
    unfold bind at 1. rewrite IH. unfold ret.
    apply result_eq; [done |].
    apply world_eq; unfold w1; cbn [clock log uuids minted messages records]; try done.
    + by rewrite fmap_cons,
        (fetchLog_cons _ (referenceToken m) (referenceToken <$> todo)), app_assoc.
    + by rewrite fmap_cons, <- app_assoc.
Qed.

(** X18.  receiveMessage of the async variant, when the queue answers with
    a batch.  The queue is asked once, for the attributes the caller named
    and the reserved one; when it has answered, the objects of all the
    messages whose references decode to a key are fetched, at once.  A
    message without such a reference is not touched at all.  A message
    whose object the store returns gets the content as its body, even an
    empty one, and its receipt handle wrapped with the bucket and the key;
    one whose fetch fails is left as it was.  Without a failure the
    promise fulfils with the batch, at the latest of the times at which
    the fetches are answered (when the queue has answered, if there is
    none).  With a failure it rejects with the failure that occurs first,
    at the time it occurs: no later than any other failure of the
    batch. *)
Theorem async_receiveMessage_batch variant params w batch :
  let modifiedParams :=
    {| rcvQueueUrl := rcvQueueUrl params;
       MessageAttributeNames :=
         Some (default [] (MessageAttributeNames params) ++ [RESERVED_ATTRIBUTE_NAME]) |} in
  let reply := receiveMessageReply (Part001.sqs variant) modifiedParams in
  let received := (clock w + latency reply)%nat in
  let after := snd (Part001.receiveMessage variant params w) in
  answer reply = Fulfilled (Some batch) ->
  exists p,
    fst (Part001.receiveMessage variant params w) = Normal p /\
    log after = log w ++ (clock w, SqsReceiveMessage modifiedParams)
                      :: fetchLog received (referenceToken <$> batch) /\
    (forall i m, batch !! i = Some m ->
       messages after !! (List.length (messages w) + i)%nat
       = Some match fetchFor (referenceToken m) with
              | Some object =>
                  match answer (getObjectReply (Part001.s3 variant) object) with
                  | Fulfilled content =>
                      {| Message.Body := Some content;
                         Message.ReceiptHandle :=
                           Some (embedS3MarkersInReceiptHandle
                                   (default "null" (Bucket object)) (Key object)
                                   (Message.ReceiptHandle m));
                         Message.MessageAttributes := Message.MessageAttributes m |}
                  | Rejected _ => m
                  end
              | None => m
              end) /\
    (forall failing e,
       failing ∈ batch -> answer (receivedMessage (Part001.s3 variant) failing) = Rejected e ->
       exists first e',
         first ∈ batch /\ answer (receivedMessage (Part001.s3 variant) first) = Rejected e' /\
         outcome p = Rejected e' /\
         settledAt p = (received + latency (receivedMessage (Part001.s3 variant) first))%nat /\
         (settledAt p <= received + latency (receivedMessage (Part001.s3 variant) failing))%nat) /\
    ((forall m, m ∈ batch ->
        exists rewritten, answer (receivedMessage (Part001.s3 variant) m) = Fulfilled rewritten) ->
     outcome p = Fulfilled {| Messages := Some (seq (List.length (messages w))
                                                    (List.length batch)) |} /\
     settledAt p
     = foldr Nat.max received
         ((fun m => (received + latency (receivedMessage (Part001.s3 variant) m))%nat)
          <$> batch)).
Proof.
  intros modifiedParams reply received after Hreply.
  set (promises := processing received <$> (receivedMessage (Part001.s3 variant) <$> batch)).
  assert (Hrun : exists p,
    Part001.receiveMessage variant params w =
      (Normal p,
       {| clock := clock w;
          log := log w ++ (clock w, SqsReceiveMessage modifiedParams)
                       :: fetchLog received (referenceToken <$> batch);
          uuids := uuids w; minted := minted w;
          messages := messages w
                      ++ ((fun m => settled m (receivedMessage (Part001.s3 variant) m))
                          <$> batch);
          records := records w |}) /\
    match firstRejection promises with
    | Some (t, e) => outcome p = Rejected e /\ settledAt p = t
    | None => outcome p = Fulfilled {| Messages := Some (seq (List.length (messages w))
                                                             (List.length batch)) |} /\
              settledAt p
              = Nat.max received (foldr Nat.max received (settledAt <$> promises))
    end).
  { unfold Part001.receiveMessage, Part001._processReceive, sqs_receiveMessage.
    fold modifiedParams. fold reply.
    unfold async at 1. unfold bind at 1. unfold bind at 1, emit at 1.
    cbn [record clock log messages]. rewrite Hreply.
    unfold bind at 1, await at 1, bind at 1, settle at 1.
    cbn [settledAt outcome clock setClock]. unfold ret at 1.
    cbn [default Messages]. unfold bind at 1, bind at 1.
    set (w2 := setClock _ _).
    assert (Hclock : clock w2 = received) by (unfold w2, received; cbn; lia).
    pose proof (async_processMessages variant (messages w) batch w2 eq_refl) as Hbatch.
    unfold id. rewrite Hbatch. rewrite Hclock.
    unfold promiseAll at 1. cbn [clock log messages]. fold promises.
    unfold bind at 1, await at 1, bind at 1, settle at 1.
    destruct (firstRejection promises) as [[t e] |] eqn:Efirst.
    - eexists. split.
      + unfold throw. cbn [setClock clock log messages uuids minted records fst snd outcome].
        apply result_eq; [reflexivity |].
        apply world_eq; unfold w2;
          cbn [setClock record clock log messages uuids minted records]; try done.
        by rewrite <- app_assoc.
      + cbn [outcome settledAt setClock clock]. split; [done |].
        apply firstRejection_Some in Efirst as (q & Hq & _ & Ht & _).
        unfold promises in Hq. rewrite <- list_fmap_compose in Hq.
        apply list_elem_of_fmap in Hq as (m & -> & _). cbn in Ht. lia.
    - eexists. split.
      + unfold ret. cbn [setClock clock log messages uuids minted records fst snd outcome].
        apply result_eq; [reflexivity |].
        apply world_eq; unfold w2;
          cbn [setClock record clock log messages uuids minted records]; try done.
        by rewrite <- app_assoc.
      + cbn [outcome settledAt setClock clock]. done. }
  destruct Hrun as (p & Hrun & Hp). unfold after. rewrite Hrun. cbn [fst snd log messages].
  destruct (batch_promise (receivedMessage (Part001.s3 variant)) batch received)
    as [Hfail Hok].
  fold promises in Hfail, Hok.
  exists p. split; [done |]. split; [done |]. split; [| split].
  - intros i m Hi. rewrite lookup_app_r by lia.
    replace (List.length (messages w) + i - List.length (messages w))%nat with i by lia.
    rewrite list_lookup_fmap, Hi. cbn [fmap option_fmap option_map]. f_equal.
    unfold receivedMessage, settled.
    destruct (fetchFor (referenceToken m)) as [object |] eqn:Efetch.
    + destruct (getS3MessageKeyAndBucket (referenceToken m)) as [reference | e] eqn:E.
      * cbn [answer]. by destruct (answer (getObjectReply (Part001.s3 variant) object)).
      * unfold fetchFor in Efetch. by rewrite E in Efetch.
    + by destruct (getS3MessageKeyAndBucket (referenceToken m)).
  - intros failing e Hin Hrejected.
    destruct (Hfail failing e Hin Hrejected) as (first & e' & t' & ? & ? & Hfirst & -> & ?).
    rewrite Hfirst in Hp. destruct Hp as [Ho Ht].
    exists first, e'. rewrite Ht. done.
  - intros Hall. rewrite (Hok Hall) in Hp. destruct Hp as [Ho Ht]. split; [done |].
    rewrite Ht. unfold promises. rewrite <- !list_fmap_compose.
    pose proof (foldr_max_le received
                  ((settledAt ∘ (processing received ∘ receivedMessage (Part001.s3 variant)))
                   <$> batch)) as Hle.
    apply Nat.max_r in Hle. exact Hle.
Qed.

Lemma async_receiveMessage_batch_witness :
  let variant := Part001.new_SQSExtended (queueWith [storedMessage; plainMessage]) testStore
                   {| Part001.optBucketName := Some "test-bucket";
                      Part001.optAlwaysUseS3 := None;
                      Part001.optMessageSizeThreshold := None |} in
  exists p,
    fst (Part001.receiveMessage variant receiveParams testWorld) = Normal p /\
    outcome p = Fulfilled {| Messages := Some [0; 1]%nat |} /\
    settledAt p = 5%nat /\
    messages (snd (Part001.receiveMessage variant receiveParams testWorld)) !! 1%nat
      = Some plainMessage.
Proof.
  intros variant.
  destruct (async_receiveMessage_batch variant receiveParams testWorld
              [storedMessage; plainMessage] eq_refl)
    as (p & Hp & _ & Hmessages & _ & Hok).
  destruct Hok as [Houtcome Htime].
  { intros m Hm. apply list_elem_of_In in Hm. simpl in Hm.
    destruct Hm as [<- | [<- | []]]; eexists; reflexivity. }
  exists p. split; [exact Hp |]. split; [exact Houtcome |]. split; [exact Htime |].
  exact (Hmessages 1%nat plainMessage eq_refl).
Defined.

End AsyncVariant.

(** ** From send to delete *)

Section RoundTrip.

Implicit Types (this : SQSExtended) (w : World) (m : Message.t).

(** Unwrapping the handle [receiveMessage] makes, when each marker is in
    it twice. *)
Lemma prepareDelete_wrapped bucket key handle queueUrl :
  let wrapped := embedS3MarkersInReceiptHandle bucket key (Some handle) in
  countOccurrences S3_BUCKET_NAME_MARKER wrapped = 2%nat ->
  countOccurrences S3_MESSAGE_KEY_MARKER wrapped = 2%nat ->
  Index._prepareDelete {| delQueueUrl := queueUrl; ReceiptHandle := wrapped |}
  = {| preparedBucketName := Some bucket;
       preparedDeleteKey := Some key;
       deleteParams := {| delQueueUrl := queueUrl; ReceiptHandle := handle |} |}.
Proof.
  intros wrapped Hbucket Hkey.
  assert (Hwrapped1 : wrapped = "" +:+ S3_BUCKET_NAME_MARKER +:+ bucket +:+
                                S3_BUCKET_NAME_MARKER +:+
                                (S3_MESSAGE_KEY_MARKER +:+ key +:+ S3_MESSAGE_KEY_MARKER +:+ handle))
    by reflexivity.
  assert (Hwrapped2 : wrapped = (S3_BUCKET_NAME_MARKER +:+ bucket +:+ S3_BUCKET_NAME_MARKER) +:+
                                S3_MESSAGE_KEY_MARKER +:+ key +:+ S3_MESSAGE_KEY_MARKER +:+ handle)
    by (unfold wrapped, embedS3MarkersInReceiptHandle; simpl templated;
        by rewrite !string_app_assoc).
  rewrite Hwrapped1 in Hbucket. rewrite Hwrapped2 in Hkey.
  apply marked_section in Hbucket as (Hb1 & Hb2 & Hb3 & _); [| done].
  apply marked_section in Hkey as (Hk1 & Hk2 & Hk3 & Hk4); [| done].
  rewrite <- Hwrapped1 in Hb1, Hb2, Hb3. rewrite <- Hwrapped2 in Hk1, Hk2, Hk3, Hk4.
  unfold Index._prepareDelete. cbn [ReceiptHandle].
  unfold extractBucketNameFromReceiptHandle, extractS3MessageKeyFromReceiptHandle,
    getOriginReceiptHandle.
  rewrite Hb3, Hk3, Hk4.
  rewrite Hb1, Hk1.
  destruct (Z.leb_spec 0 (Z.of_nat (String.length ""))); [| lia].
  destruct (Z.leb_spec 0 (Z.of_nat (String.length
    (S3_BUCKET_NAME_MARKER +:+ bucket +:+ S3_BUCKET_NAME_MARKER)))); [| lia].
  done.
Qed.

(** X19.  The round trip of an offloaded body, with the default
    transforms.  sendMessage uploads the body under a fresh key and sends
    the key in its place, with the reference.  When the queue later hands
    that message over with a receipt handle, and the store returns what was
    uploaded, receiveMessage gives the caller the original body, and a
    receipt handle from which deleteMessage recovers the bucket, the key
    and the handle of the queue.  No line terminator may start in the
    bucket name or the key, no closing parenthesis may be in the key, and
    each marker literal must occur exactly twice in the wrapped handle. *)
Theorem offloaded_body_round_trip queue store options params w bucket content handle
    receive w' queueUrl :
  let this := new_SQSExtended queue store options in
  let threshold := default DEFAULT_MESSAGE_SIZE_THRESHOLD (messageSizeThreshold options) in
  let key := uuids w (minted w) in
  let wrapped := embedS3MarkersInReceiptHandle bucket key (Some handle) in
  let modified :=
    {| rcvQueueUrl := rcvQueueUrl receive;
       MessageAttributeNames :=
         Some (default [] (MessageAttributeNames receive) ++ [RESERVED_ATTRIBUTE_NAME]) |} in
  optSendTransform options = None -> optReceiveTransform options = None ->
  optBucketName options = Some bucket -> bucket <> "" -> noLineTerminator bucket ->
  key <> "" -> noLineTerminator key -> (forall n, ~ occursAt ")" key n) ->
  countOccurrences S3_BUCKET_NAME_MARKER wrapped = 2%nat ->
  countOccurrences S3_MESSAGE_KEY_MARKER wrapped = 2%nat ->
  MessageBody params = Some content -> content <> "" ->
  reservedAttribute params = None ->
  default false (alwaysUseS3 options) = true \/ (threshold < estimatedSize params)%Z ->
  answer (getObjectReply store {| Bucket := Some bucket; Key := key; Body := None |})
    = Fulfilled content ->
  exists outgoing,
    queueSends (events (snd (Index.sendMessage this params None w)))
      = queueSends (events w) ++ [outgoing] /\
    uploads (events (snd (Index.sendMessage this params None w)))
      = uploads (events w) ++ [{| Bucket := Some bucket; Key := key; Body := Some content |}] /\
    MessageBody outgoing = Some key /\
    (answer (receiveMessageReply queue modified)
       = Fulfilled (Some [{| Message.Body := MessageBody outgoing;
                             Message.ReceiptHandle := Some handle;
                             Message.MessageAttributes := MessageAttributes outgoing |}]) ->
     messages (snd (Index.receiveMessage this receive None w'))
     = messages w' ++ [{| Message.Body := Some content;
                          Message.ReceiptHandle := Some wrapped;
                          Message.MessageAttributes := MessageAttributes outgoing |}]) /\
    Index._prepareDelete {| delQueueUrl := queueUrl; ReceiptHandle := wrapped |}
    = {| preparedBucketName := Some bucket;
         preparedDeleteKey := Some key;
         deleteParams := {| delQueueUrl := queueUrl; ReceiptHandle := handle |} |}.
Proof.
  intros this threshold key wrapped modified Hsend Hreceive Hbucket Hb Hbline Hkey Hkline
    Hparen Hcount1 Hcount2 Hbody Hcontent Hnone Hover Hstored.
  assert (Htruthy : truthy (bucketName this) = true)
    by (unfold this, new_SQSExtended; cbn [bucketName]; rewrite Hbucket;
        by apply truthy_Some_ne).
  assert (Huse : sendTransform this params
                 = {| s3Content := MessageBody params; messageBody := None |}).
  { unfold this, new_SQSExtended. cbn [sendTransform]. rewrite Hsend.
    unfold defaultSendTransform.
    assert (default false (alwaysUseS3 options)
            || isLarge params (messageSizeThreshold options) = true) as ->; [| done].
    destruct Hover as [-> | Hlarge]; [done |].
    rewrite isLarge_estimatedSize. fold threshold.
    destruct (Z.ltb_spec threshold (estimatedSize params)); [apply orb_true_r | lia]. }
  assert (Htransform : receiveTransform this = defaultReceiveTransform)
    by (unfold this, new_SQSExtended; cbn [receiveTransform]; by rewrite Hreceive).
  pose proof (sendMessage_offloads this params w Htruthy) as Hrun.
  rewrite Huse in Hrun. cbn [s3Content messageBody] in Hrun.
  specialize (Hrun ltac:(rewrite Hbody; by apply truthy_Some_ne) Hnone Hkey).
  cbv zeta in Hrun. rewrite Hrun. cbn [snd].
  assert (Hname : bucketName this = Some bucket) by done.
  rewrite Hname. cbn [templated]. fold key.
  eexists.
  rewrite !queueSends_record, !uploads_record, events_mint. cbn [app].
  rewrite !app_nil_r, Hbody.
  split; [reflexivity |]. split; [reflexivity |]. split; [reflexivity |].
  split; [| by apply prepareDelete_wrapped].
  cbn [MessageBody MessageAttributes withMessageBody withMessageAttributes or_else truthy].
  set (m := {| Message.Body := Some key; Message.ReceiptHandle := Some handle;
               Message.MessageAttributes := _ |}).
  intros Hreply.
  destruct (receiveMessage_batch this receive w' [m] Hreply) as (p & Hreceived & _).
  rewrite Hreceived. cbn [snd messages fmap list_fmap]. f_equal. f_equal.
  assert (Htoken : referenceToken m = Some ("(" +:+ bucket +:+ ")" +:+ key)).
  { unfold referenceToken, m. cbn [Message.MessageAttributes].
    unfold addS3MessageKeyAttribute. by rewrite lookup_insert_eq. }
  assert (Hdecoded : getS3MessageKeyAndBucket (referenceToken m)
                     = Normal {| refBucketName := Some bucket; refS3MessageKey := Some key |}).
  { rewrite Htoken. unfold getS3MessageKeyAndBucket.
    change (truthy (Some ("(" +:+ bucket +:+ ")" +:+ key))) with true. cbn [negb].
    change (default "" (Some ("(" +:+ bucket +:+ ")" +:+ key)))
      with ("(" +:+ bucket +:+ ")" +:+ key).
    rewrite matchReference_encoded by done. by destruct (String.eqb_spec key ""). }
  unfold processedMessage, fetchFor. rewrite Hdecoded.
  cbn [refS3MessageKey refBucketName]. rewrite (truthy_Some_ne _ Hkey).
  change (default "" (Some key)) with key. cbn [latency answer].
  change (s3 this) with store. rewrite Hstored.
  unfold settled. cbn [answer Bucket Key]. rewrite Htransform.
  unfold defaultReceiveTransform, or_else. rewrite (truthy_Some_ne _ Hcontent).
  reflexivity.
Qed.

Lemma offloaded_body_round_trip_witness :
  let params := {| QueueUrl := Some "test-queue"; MessageBody := Some "message body";
                   MessageAttributes := None |} in
  let attributes := Some (referenceAttribute "(test-bucket)1234-5678") in
  let delivered := {| Message.Body := Some mockS3Key;
                      Message.ReceiptHandle := Some "receipthandle";
                      Message.MessageAttributes := attributes |} in
  let this := new_SQSExtended (queueWith [delivered]) testStore alwaysOffload in
  let wrapped := embedS3MarkersInReceiptHandle "test-bucket" mockS3Key (Some "receipthandle") in
  exists outgoing,
    queueSends (events (snd (Index.sendMessage this params None testWorld))) = [outgoing] /\
    uploads (events (snd (Index.sendMessage this params None testWorld)))
      = [{| Bucket := Some "test-bucket"; Key := mockS3Key; Body := Some "message body" |}] /\
    MessageBody outgoing = Some mockS3Key /\
    (answer (receiveMessageReply (queueWith [delivered])
               {| rcvQueueUrl := Some "test-queue";
                  MessageAttributeNames := Some ["MessageAttribute"; "S3MessageBodyKey"] |})
       = Fulfilled (Some [{| Message.Body := MessageBody outgoing;
                             Message.ReceiptHandle := Some "receipthandle";
                             Message.MessageAttributes := MessageAttributes outgoing |}]) ->
     messages (snd (Index.receiveMessage this receiveParams None testWorld))
     = [{| Message.Body := Some "message body";
           Message.ReceiptHandle := Some wrapped;
           Message.MessageAttributes := MessageAttributes outgoing |}]) /\
    Index._prepareDelete {| delQueueUrl := Some "test-queue"; ReceiptHandle := wrapped |}
    = {| preparedBucketName := Some "test-bucket";
         preparedDeleteKey := Some mockS3Key;
         deleteParams := {| delQueueUrl := Some "test-queue";
                            ReceiptHandle := "receipthandle" |} |}.
Proof.
  intros params attributes delivered this wrapped.
  apply (offloaded_body_round_trip (queueWith [delivered]) testStore alwaysOffload params
           testWorld "test-bucket" "message body" "receipthandle" receiveParams testWorld
           (Some "test-queue")).
  - reflexivity.
  - reflexivity.
  - reflexivity.
  - discriminate.
  - apply noLineTerminator_dotStar. reflexivity.
  - discriminate.
  - apply noLineTerminator_dotStar. reflexivity.
  - apply indexOf_absent. reflexivity.
  - vm_compute. reflexivity.
  - vm_compute. reflexivity.
  - reflexivity.
  - discriminate.
  - reflexivity.
  - left. reflexivity.
  - reflexivity.
Defined.

End RoundTrip.

(** ** Receiving with a callback *)

Section ReceiveWithCallback.

Implicit Types (this : SQSExtended) (w : World) (m : Message.t).

Lemma referenceToken_settled this m :
  referenceToken (settled m (processedMessage this m)) = referenceToken m.
Proof.
  unfold settled, processedMessage.
  destruct (getS3MessageKeyAndBucket (referenceToken m)) as [reference | e]; [| done].
  destruct (fetchFor (referenceToken m)) as [object |]; [| done].
  cbn [answer]. by destruct (answer (getObjectReply (s3 this) object)).
Qed.

Lemma fetches_app (evs1 evs2 : list Event) :
  fetches (evs1 ++ evs2) = fetches evs1 ++ fetches evs2.
Proof. apply omap_app. Qed.

(** One run of the send function of [receiveMessage], on a batch that is
    in the heap. *)
Lemma processReceive_run this (request : Promise ReceiveMessageResult) pre todo callback w :
  let response := {| Messages := Some (seq (List.length pre) (List.length todo)) |} in
  let started := Nat.max (clock w) (settledAt request) in
  let promises := processing started <$> (processedMessage this <$> todo) in
  outcome request = Fulfilled response ->
  messages w = pre ++ todo ->
  exists p,
    invokeFnAfterRequest request (Index._processReceive this) callback w =
      (Normal p,
       {| clock := clock w;
          log := log w ++ fetchLog started (referenceToken <$> todo)
                       ++ match callback with
                          | Some cb =>
                              [(settledAt p,
                                CallbackCall cb
                                  match firstRejection promises with
                                  | Some (_, e) => Some e
                                  | None => None
                                  end TheResponse)]
                          | None => []
                          end;
          uuids := uuids w; minted := minted w;
          messages := pre ++ ((fun m => settled m (processedMessage this m)) <$> todo);
          records := records w |}) /\
    outcome p = match firstRejection promises, callback with
                | Some (_, e), None => Rejected e
                | Some _, Some _ => Fulfilled None
                | None, _ => Fulfilled (Some response)
                end.
Proof.
  intros response started promises Hrequest Hw.
  unfold invokeFnAfterRequest, Index._processReceive.
  unfold async at 1, bind at 1, settle at 1. rewrite Hrequest.
  cbn [default Messages response]. unfold bind at 1, tryCatch at 1, bind at 1.
  fold started.
  set (w2 := setClock started w).
  pose proof (processMessages_batch this pre todo w2 Hw) as Hbatch.
  unfold id. rewrite Hbatch. cbn [clock w2 setClock]. fold promises.
  unfold promiseAll at 1, settle at 1. cbn [clock log messages].
  destruct (firstRejection promises) as [[t e] |] eqn:Efirst;
    destruct callback as [cb |];
    unfold emit, bind, ret, throw;
    cbn [setClock record clock log messages uuids minted records fst snd outcome settledAt];
    (eexists; split;
     [apply result_eq; [reflexivity |];
      apply world_eq;
      cbn [setClock record clock log messages uuids minted records settledAt];
      rewrite ?app_nil_r, <- ?app_assoc; done
     | done]).
Qed.

(** X20.  With a callback, receiveMessage processes the batch twice, once
    on behalf of the callback and once for the promise it returns: the
    object of every offloaded message is fetched twice, the callback is
    called once (when the first pass is over, with the first failure of
    that pass if there is one), and since the second pass works on the
    messages as the first pass left them, a message whose object the store
    returns ends up with its receipt handle wrapped twice. *)
Theorem receiveMessage_with_callback_processes_twice this params cb w batch :
  let modifiedParams :=
    {| rcvQueueUrl := rcvQueueUrl params;
       MessageAttributeNames :=
         Some (default [] (MessageAttributeNames params) ++ [RESERVED_ATTRIBUTE_NAME]) |} in
  let reply := receiveMessageReply (sqs this) modifiedParams in
  let received := (clock w + latency reply)%nat in
  let after := snd (Index.receiveMessage this params (Some cb) w) in
  let err :=
    match firstRejection (processing received <$> (processedMessage this <$> batch)) with
    | Some (_, e) => Some e
    | None => None
    end in
  answer reply = Fulfilled (Some batch) ->
  (exists told,
     log after = log w ++ (clock w, SqsReceiveMessage modifiedParams)
                       :: fetchLog received (referenceToken <$> batch)
                       ++ (told, CallbackCall cb err TheResponse)
                       :: fetchLog received (referenceToken <$> batch)) /\
  fetches (events after)
    = fetches (events w) ++ omap fetchFor (referenceToken <$> batch)
                         ++ omap fetchFor (referenceToken <$> batch) /\
  (forall i m bucket key content,
     batch !! i = Some m ->
     fetchFor (referenceToken m) = Some {| Bucket := Some bucket; Key := key; Body := None |} ->
     answer (getObjectReply (s3 this) {| Bucket := Some bucket; Key := key; Body := None |})
       = Fulfilled content ->
     Message.ReceiptHandle <$> messages after !! (List.length (messages w) + i)%nat
     = Some (Some (embedS3MarkersInReceiptHandle bucket key
                     (Some (embedS3MarkersInReceiptHandle bucket key
                              (Message.ReceiptHandle m)))))).
Proof.
  intros modifiedParams reply received after err Hreply.
  set (once := fun m => settled m (processedMessage this m)).
  assert (Hrun : exists told,
    after = {| clock := clock w;
               log := log w ++ (clock w, SqsReceiveMessage modifiedParams)
                            :: fetchLog received (referenceToken <$> batch)
                            ++ (told, CallbackCall cb err TheResponse)
                            :: fetchLog received (referenceToken <$> batch);
               uuids := uuids w; minted := minted w;
               messages := messages w ++ (once <$> (once <$> batch));
               records := records w |}).
  { unfold after, Index.receiveMessage, wrapRequest, sqs_receiveMessage.
    fold modifiedParams. fold reply.
    unfold bind at 1. unfold bind at 1, emit at 1. cbn [record clock log messages].
    rewrite Hreply.
    set (request := {| settledAt := (clock w + latency reply)%nat; outcome := _ |}).
    set (w1 := {| clock := clock w; log := _; messages := messages w ++ batch |}).
    destruct (processReceive_run this request (messages w) batch (Some cb) w1 eq_refl eq_refl)
      as (p1 & Hrun1 & _).
    unfold bind at 1, bind at 1, bind at 1. rewrite Hrun1. unfold ret at 1, ret at 1.
    cbn [promise].
    set (w2 := {| clock := clock w1; log := _; messages := messages w ++ (_ <$> batch) |}).
    assert (Hrequest : outcome request
                       = Fulfilled {| Messages := Some (seq (List.length (messages w))
                                                            (List.length (once <$> batch))) |})
      by (by rewrite length_fmap).
    destruct (processReceive_run this request (messages w) (once <$> batch) None w2
                Hrequest eq_refl) as (p2 & Hrun2 & _).
    rewrite Hrun2. cbn [snd].
    assert (Htokens : referenceToken <$> (once <$> batch) = referenceToken <$> batch).
    { rewrite <- list_fmap_compose. apply list_fmap_ext. intros i m _. cbn.
      apply referenceToken_settled. }
    rewrite Htokens.
    assert (Hstarted : Nat.max (clock w) (settledAt request) = received)
      by (unfold request, received; cbn; lia).
    eexists. apply world_eq; unfold w2, w1;
      cbn [clock log uuids minted messages records]; try done.
    rewrite Hstarted, app_nil_r, <- !app_assoc. cbn [app]. reflexivity. }
  destruct Hrun as (told & ->). cbn [log messages].
  split; [eauto |]. split.
  - match goal with
    | |- fetches (events ?after) = _ =>
        assert (events after
                = events w ++ [SqsReceiveMessage modifiedParams]
                  ++ (fetchLog received (referenceToken <$> batch)).*2
                  ++ [CallbackCall cb err TheResponse]
                  ++ (fetchLog received (referenceToken <$> batch)).*2) as ->
    end.
    { unfold events. cbn [log]. rewrite fmap_app, fmap_cons, fmap_app, fmap_cons. done. }
    rewrite !fetches_app, !fetches_fetchLog.
    change (fetches [SqsReceiveMessage modifiedParams]) with (@nil S3Params).
    change (fetches [CallbackCall cb err TheResponse]) with (@nil S3Params).
    done.
  - intros i m bucket key content Hi Hfetch Hcontent.
    rewrite lookup_app_r by lia.
    replace (List.length (messages w) + i - List.length (messages w))%nat with i by lia.
    rewrite !list_lookup_fmap, Hi. cbn [fmap option_fmap option_map]. f_equal.
    assert (Honce : forall m', referenceToken m' = referenceToken m ->
              Message.ReceiptHandle (once m')
              = Some (embedS3MarkersInReceiptHandle bucket key (Message.ReceiptHandle m'))).
    { intros m' Htoken. unfold once, settled, processedMessage. rewrite Htoken, Hfetch.
      destruct (getS3MessageKeyAndBucket (referenceToken m)) as [reference | e] eqn:E.
      - cbn [answer Bucket Key]. rewrite Hcontent. reflexivity.
      - unfold fetchFor in Hfetch. by rewrite E in Hfetch. }
    rewrite (Honce (once m)) by apply referenceToken_settled.
    by rewrite (Honce m).
Qed.

Lemma receiveMessage_with_callback_processes_twice_witness :
  let this := new_SQSExtended (queueWith [storedMessage]) testStore testOptions in
  let after := snd (Index.receiveMessage this receiveParams (Some (Callback "done")) testWorld) in
  fetches (events after)
    = [{| Bucket := Some "test-bucket"; Key := "8765-4321"; Body := None |};
       {| Bucket := Some "test-bucket"; Key := "8765-4321"; Body := None |}] /\
  Message.ReceiptHandle <$> messages after !! 0%nat
    = Some (Some (embedS3MarkersInReceiptHandle "test-bucket" "8765-4321"
                    (Some (embedS3MarkersInReceiptHandle "test-bucket" "8765-4321"
                             (Some "receipthandle"))))).
Proof.
  intros this after.
  destruct (receiveMessage_with_callback_processes_twice this receiveParams (Callback "done")
              testWorld [storedMessage] eq_refl) as (_ & Hfetches & Hhandles).
  split; [exact Hfetches |].
  exact (Hhandles 0%nat storedMessage "test-bucket" "8765-4321" "message body"
           eq_refl eq_refl eq_refl).
Defined.

End ReceiveWithCallback.

(** ** The wrappers, with and without a callback *)

Section Wrappers.

Implicit Types (w : World).

(** X22.  The send function invokeFnAfterRequest makes, whatever the
    request and the step after it.  With a callback the promise never
    rejects and the callback is called exactly once, after the step has
    run: without an error and with the response when the request and the
    step both succeeded (the promise then fulfils with the response), and
    otherwise with the error of the request, of the step or of its
    promise (the promise then fulfils with undefined).  Without a
    callback nothing is called, and the promise fulfils with the response
    or rejects with that error. *)
Theorem invokeFnAfterRequest_outcome {R A} (request : Promise R) (fn : R -> M (Promise A))
    callback w :
  let arrived := setClock (Nat.max (clock w) (settledAt request)) w in
  let failure :=
    match outcome request with
    | Rejected err => Some err
    | Fulfilled response =>
        match fn response arrived with
        | (Throw err, _) => Some err
        | (Normal started, _) =>
            match outcome started with
            | Rejected s3Err => Some s3Err
            | Fulfilled _ => None
            end
        end
    end in
  let ran :=
    match outcome request with
    | Rejected _ => arrived
    | Fulfilled response => snd (fn response arrived)
    end in
  let after := snd (invokeFnAfterRequest request fn callback w) in
  exists p,
    fst (invokeFnAfterRequest request fn callback w) = Normal p /\
    clock after = clock w /\
    match callback with
    | Some cb =>
        (exists data, log after = log ran ++ [(settledAt p, CallbackCall cb failure data)]) /\
        outcome p = match failure, outcome request with
                    | None, Fulfilled response => Fulfilled (Some response)
                    | _, _ => Fulfilled None
                    end
    | None =>
        log after = log ran /\
        outcome p = match failure, outcome request with
                    | None, Fulfilled response => Fulfilled (Some response)
                    | Some err, _ => Rejected err
                    | None, Rejected err => Rejected err
                    end
    end.
Proof.
  intros arrived failure ran after.
  unfold after, failure, ran, invokeFnAfterRequest, async, settle, tryCatch, emit, bind, ret,
    throw.
  fold arrived.
  destruct (outcome request) as [response | err].
  - destruct (fn response arrived) as [[started | err] w1]; cbn [fst snd].
    + destruct (outcome started) as [done | s3Err], callback as [cb |];
        cbn [fst snd clock setClock log record settledAt outcome];
        (eexists; split; [reflexivity |]); (split; [reflexivity |]);
        cbn [fst snd clock setClock log record settledAt outcome]; eauto.
    + destruct callback as [cb |];
        cbn [fst snd clock setClock log record settledAt outcome];
        (eexists; split; [reflexivity |]); (split; [reflexivity |]);
        cbn [fst snd clock setClock log record settledAt outcome]; eauto.
  - destruct callback as [cb |];
      cbn [fst snd clock setClock log record settledAt outcome];
      (eexists; split; [reflexivity |]); (split; [reflexivity |]);
      cbn [fst snd clock setClock log record settledAt outcome]; eauto.
Qed.

(** X23.  The send function invokeFnBeforeRequest makes, when the step
    before the request returns a promise.  With a callback the promise
    never rejects and the callback is called exactly once: without an
    error and with the response when the step and the request both
    succeeded, and otherwise with the error of the step, or else of the
    request, and with the request.  Without a callback nothing is called,
    and the promise fulfils with the response or rejects with that
    error.  The error of the step hides that of the request. *)
Theorem invokeFnBeforeRequest_outcome {R} (request : Promise R) (fn : M (option (Promise unit)))
    callback w started w1 :
  fn w = (Normal (Some started), w1) ->
  let failure :=
    match outcome started, outcome request with
    | Rejected fnErr, _ => Some fnErr
    | Fulfilled _, Rejected err => Some err
    | Fulfilled _, Fulfilled _ => None
    end in
  let after := snd (invokeFnBeforeRequest request fn callback w) in
  exists p,
    fst (invokeFnBeforeRequest request fn callback w) = Normal p /\
    clock after = clock w /\
    match callback with
    | Some cb =>
        log after
          = log w1 ++ [(settledAt p,
                        CallbackCall cb failure
                          match failure with None => TheResponse | Some _ => TheRequest end)] /\
        outcome p = match failure, outcome request with
                    | None, Fulfilled response => Fulfilled (Some response)
                    | _, _ => Fulfilled None
                    end
    | None =>
        log after = log w1 /\
        outcome p = match failure, outcome request with
                    | None, Fulfilled response => Fulfilled (Some response)
                    | Some err, _ => Rejected err
                    | None, Rejected err => Rejected err
                    end
    end.
Proof.
  intros Hfn failure after.
  unfold after, failure, invokeFnBeforeRequest, async, settle, emit, bind, ret, throw.
  rewrite Hfn.
  destruct (outcome started) as [done | fnErr], (outcome request) as [response | err],
    callback as [cb |];
    cbn [fst snd clock setClock log record settledAt outcome];
    (eexists; split; [reflexivity |]); (split; [reflexivity |]);
    cbn [fst snd clock setClock log record settledAt outcome]; eauto.
Qed.

Lemma invokeFnBeforeRequest_outcome_witness :
  let this := new_SQSExtended testQueue failingStore testOptions in
  let request := {| settledAt := 3; outcome := Fulfilled {| MessageId := Some "id" |} |} in
  let fn := (storing <- Index._storeS3Content this mockS3Key (Some "content") ;;
             ret (Some storing))%js in
  exists p,
    fst (invokeFnBeforeRequest request fn (Some (Callback "done")) testWorld) = Normal p /\
    outcome p = Fulfilled None /\
    log (snd (invokeFnBeforeRequest request fn (Some (Callback "done")) testWorld))
      = [(0, S3PutObject {| Bucket := Some "test-bucket"; Key := mockS3Key;
                            Body := Some "content" |});
         (settledAt p,
          CallbackCall (Callback "done") (Some (ServiceError "AccessDenied")) TheRequest)].
Proof.
  intros this request fn.
  destruct (invokeFnBeforeRequest_outcome request fn (Some (Callback "done")) testWorld
              {| settledAt := 5; outcome := Rejected (ServiceError "AccessDenied") |}
              (record 0 (S3PutObject {| Bucket := Some "test-bucket"; Key := mockS3Key;
                                        Body := Some "content" |}) testWorld)
              eq_refl) as (p & Hp & _ & Hlog & Houtcome).
  exists p. split; [exact Hp |]. split; [exact Houtcome | exact Hlog].
Defined.

(** The offloading send of the async variant, on the inputs of the tests. *)
Lemma async_sendMessage_uploads_first_witness :
  let this := Part001.new_SQSExtended testQueue testStore
                {| Part001.optBucketName := Some "test-bucket";
                   Part001.optAlwaysUseS3 := Some true;
                   Part001.optMessageSizeThreshold := None |} in
  exists request,
    fst (Part001.sendMessage this smallMessage testWorld) = Normal request /\
    outcome request = Fulfilled {| MessageId := Some "test message id" |} /\
    settledAt request = 8%nat /\
    log (snd (Part001.sendMessage this smallMessage testWorld))
      = [(0, S3PutObject {| Bucket := Some "test-bucket"; Key := mockS3Key;
                            Body := Some "small message body" |});
         (5, SqsSendMessage offloadedMessage)].
Proof.
  intros this.
  destruct (async_sendMessage_uploads_first this smallMessage testWorld)
    as (request & Hrequest & Hrest);
    [reflexivity | reflexivity | reflexivity | reflexivity | discriminate |].
  exists request. split; [exact Hrequest | exact Hrest].
Defined.

End Wrappers.

(** ** What offloading leaves of the size *)

Section OffloadedSize.

Implicit Types (this : SQSExtended) (params : SendMessageRequest) (w : World).

(** X24.  What an offloaded message weighs.  When sendMessage offloads
    and the transform leaves no body for the queue (as the default
    transform does), the estimated size of the message that goes to the
    queue is that of the attributes of the caller, plus the reserved
    attribute (its name, its type and the reference), plus the key that
    stands for the body: the size of the attributes given, 24 bytes, the
    length of the bucket name and twice the length of the key.  The body
    no longer counts, the attributes still do. *)
Theorem offloaded_message_size this params w bucket :
  bucketName this = Some bucket -> bucket <> "" ->
  truthy (s3Content (sendTransform this params)) = true ->
  truthy (messageBody (sendTransform this params)) = false ->
  reservedAttribute params = None ->
  let key := uuids w (minted w) in
  key <> "" ->
  let after := snd (Index.sendMessage this params None w) in
  exists outgoing,
    queueSends (events after) = queueSends (events w) ++ [outgoing] /\
    estimatedSize outgoing
    = (getMessageAttributesSize (MessageAttributes params)
       + 24 + byteLength bucket + 2 * byteLength key)%Z.
Proof.
  intros Hbucket Hb Hcontent Hbody Hnone key Hkey after.
  assert (Htruthy : truthy (bucketName this) = true)
    by (rewrite Hbucket; by apply truthy_Some_ne).
  unfold after. rewrite (sendMessage_offloads this params w Htruthy Hcontent Hnone Hkey).
  cbn [snd]. fold key. rewrite Hbucket. cbn [templated].
  eexists. rewrite !queueSends_record, events_mint. cbn [app]. rewrite !app_nil_r.
  split; [reflexivity |].
  unfold estimatedSize, or_else. rewrite Hbody.
  cbn [MessageBody MessageAttributes withMessageBody withMessageAttributes default].
  unfold id, addS3MessageKeyAttribute.
  assert (Hfresh : default ∅ (MessageAttributes params) !! S3_MESSAGE_BODY_KEY = None).
  { unfold reservedAttribute in Hnone. destruct (MessageAttributes params); [done |].
    apply lookup_empty. }
  rewrite getMessageAttributesSize_fresh by done.
  assert (getMessageAttributesSize (Some (default ∅ (MessageAttributes params)))
          = getMessageAttributesSize (MessageAttributes params)) as ->
    by (by destruct (MessageAttributes params)).
  unfold attributeSize, byteLength. cbn [DataType StringValue BinaryValue truthy default].
  rewrite !string_length_app. cbn [String.length negb String.eqb Ascii.eqb].
  change (String.length S3_MESSAGE_BODY_KEY) with 16%nat.
  change (String.length (id "String")) with 6%nat. lia.
Qed.

Lemma offloaded_message_size_witness :
  let this := new_SQSExtended testQueue testStore alwaysOffload in
  exists outgoing,
    queueSends (events (snd (Index.sendMessage this smallMessage None testWorld))) = [outgoing] /\
    estimatedSize outgoing = 85%Z.
Proof.
  intros this.
  apply (offloaded_message_size this smallMessage testWorld "test-bucket");
    [reflexivity | discriminate | reflexivity | reflexivity | reflexivity | discriminate].
Defined.

End OffloadedSize.
